(** * Block-aligned reading and tile writing of GeoTIFF images

    A shallow embedding of [delta/imagery/sources/tiff.py]: the classes
    [TiffImage] (block aligner, ROI batch scheduler, band reader) and
    [TiffWriter] (tile validator and writer), with the properties the
    specification states about them.

    Conventions of the embedding.
    - Python integers are [Z].  The source divides with [/] (true division)
      and then applies [math.floor] or [math.ceil]; on integers below 2^53
      this is the exact floor (ceiling) of the quotient, which is what
      [Z.div] computes for a non-zero divisor.  A zero divisor raises
      [ZeroDivisionError].  [PyFloat] has the division through a double as
      CPython does it, and [ceil_truediv_exact] proves that its ceiling is
      the exact one below 2^53.
    - An exception is a value of [exn]; fallible code returns [result].
    - GDAL is outside the repository: a dataset is a record of what the
      source asks of it (sizes, bands, block size, window reads). *)

From Stdlib Require Import ZArith Lia Bool List.
From stdpp Require Import base option list gmap strings pretty.

Open Scope Z_scope.

(** ** Exceptions and fallible computations *)

(** The exceptions the modelled code can raise.  The source raises plain
    [Exception] and [IOError] objects told apart by their message; each
    constructor stands for one [raise] site (or one failing primitive) and
    carries the name the specification gives to it. *)
Inductive exn : Type :=
| SourceOpenError          (* Exception('Failed to create output file: ...') *)
| DimensionMismatchError   (* Exception('Images ... have different sizes!') *)
| ClosedSourceError        (* IOError('Operating on an image that has been closed.') *)
| RegionOutOfBoundsError   (* Exception('desired_roi ... is outside the bounds ...'),
                              Exception('Roi outside image bounds: ...') *)
| OutOfBoundsError         (* bounds check of DeltaImage.read *)
| BufferShapeError         (* IOError('Buffer shape should be ...') *)
| BackendIOError           (* a window read that the backend refuses *)
| InvalidTileIndexError    (* Exception('Block position ... is outside the tile count ...') *)
| TileOverflowError        (* Exception('Error: Data block max position ...') *)
| TileShapeMismatchError   (* Exception('Error: Data block size is ...') *)
| WriterClosedError        (* AttributeError: self._handle is None *)
| ZeroDivisionError
| OverflowError            (* integer division result too large for a float *)
| IndexError
| ValueError               (* numpy: negative dimensions are not allowed *)
| TypeError
| AssertionError
| CallbackError.           (* an exception raised by the caller's callback *)

Inductive result (A : Type) : Type :=
| Ok (a : A)
| Raise (e : exn).
Arguments Ok {A} a.
Arguments Raise {A} e.

#[global] Instance result_ret : MRet result := fun A a => Ok a.

#[global] Instance result_bind : MBind result := fun A B k m =>
  match m with
  | Ok a => k a
  | Raise e => Raise e
  end.

#[global] Instance result_fmap : FMap result := fun A B f m =>
  match m with
  | Ok a => Ok (f a)
  | Raise e => Raise e
  end.

(** ** Python arithmetic and indexing *)

(** [int(math.floor(a / b))] *)
Definition floor_div (a b : Z) : result Z :=
  if b =? 0 then Raise ZeroDivisionError else Ok (a / b).

(** [int(math.ceil(a / b))] *)
Definition ceil_div (a b : Z) : result Z :=
  if b =? 0 then Raise ZeroDivisionError else Ok (- ((- a) / b)).

(** *** True division through a double

    [a / b] on two Python integers is the double nearest to the quotient
    (ties to even), [OverflowError] when that is beyond the doubles and 0.0
    when the quotient is too small. *)

Module PyFloat.

(** A finite double: the number [mant * 2 ^ expo]. *)
Record float : Type := Float { mant : Z; expo : Z }.

(** The integer nearest to [n / d], for [d > 0]; a tie goes to the even
    one. *)
Definition round_half_even (n d : Z) : Z :=
  let q := n / d in
  match 2 * (n mod d) ?= d with
  | Lt => q
  | Gt => q + 1
  | Eq => if Z.even q then q else q + 1
  end.

(** [a / b] for positive [a] and [b].  [fl] is the exponent of the
    quotient, [floor(log2(a / b))], read off the quotient scaled by 2^1200
    (a quotient below 2^-1200 is far below the least double); the double has
    53 bits with the exponent [fl - 52], never below -1074. *)
Definition truediv_pos (a b : Z) : result float :=
  let fl := Z.log2 (a * 2 ^ 1200 / b) - 1200 in
  let e := Z.max (fl - 52) (- 1074) in
  let m := round_half_even (a * 2 ^ Z.max 0 (- e)) (b * 2 ^ Z.max 0 e) in
  if 2 ^ 1024 <=? m * 2 ^ Z.max 0 e then Raise OverflowError
  else Ok (Float m e).

(** [a / b] *)
Definition truediv (a b : Z) : result float :=
  if b =? 0 then Raise ZeroDivisionError
  else if a =? 0 then Ok (Float 0 0)
  else
    f ← truediv_pos (Z.abs a) (Z.abs b);
    Ok (if Z.sgn a * Z.sgn b <? 0 then Float (- mant f) (expo f) else f).

(** [math.ceil(x)] *)
Definition ceil (x : float) : Z :=
  if 0 <=? expo x then mant x * 2 ^ expo x
  else - ((- mant x) / 2 ^ (- expo x)).

(** [int(math.ceil(a / b))], through the double. *)
Definition ceil_truediv (a b : Z) : result Z :=
  x ← truediv a b; Ok (ceil x).

End PyFloat.

(** [l[i]] on a Python list: a negative index counts from the end. *)
Definition py_index {A} (l : list A) (i : Z) : result A :=
  let n := Z.of_nat (length l) in
  let j := if i <? 0 then i + n else i in
  if (0 <=? j) && (j <? n)
  then match l !! Z.to_nat j with
       | Some a => Ok a
       | None => Raise IndexError
       end
  else Raise IndexError.

(** ** Rectangle *)

Module Rectangle.

(** Modelled from the spec: the class [Rectangle] of [delta/imagery/rectangle.py],
    which is not among the sources.  Section 3 gives the fields
    [min_x, min_y, max_x, max_y] (half open, max exclusive) and
    [width = max_x - min_x], [height = max_y - min_y]. *)
Record t : Type := mk { min_x : Z; min_y : Z; max_x : Z; max_y : Z }.

Definition width (r : t) : Z := max_x r - min_x r.
Definition height (r : t) : Z := max_y r - min_y r.

(** Modelled from the spec: the constructor call
    [Rectangle(x, y, width=w, height=h)] used in the formula of section 4.3. *)
Definition of_size (x y w h : Z) : t := mk x y (x + w) (y + h).

(** Modelled from the spec: the invariant [min_x <= max_x], [min_y <= max_y]
    of section 3. *)
Definition wf (r : t) : Prop := min_x r <= max_x r /\ min_y r <= max_y r.

(** Modelled from the spec: [contains] of section 4.1, "true iff other lies
    entirely within bounds"; read as the comparison of the four bounds, under
    which a rectangle of zero area lying within the bounds is contained. *)
Definition contains_rect (self other : t) : bool :=
  (min_x self <=? min_x other) && (min_y self <=? min_y other)
  && (max_x other <=? max_x self) && (max_y other <=? max_y self).

(** Modelled from the spec: [intersect] of section 4.1, "component-wise max
    of mins, min of maxes". *)
Definition get_intersection (self other : t) : t :=
  mk (Z.max (min_x self) (min_x other)) (Z.max (min_y self) (min_y other))
     (Z.min (max_x self) (max_x other)) (Z.min (max_y self) (max_y other)).

#[global] Instance eq_dec : EqDecision t.
Proof. solve_decision. Defined.

End Rectangle.

Abbreviation Rect := Rectangle.t.

(** ** numpy arrays *)

Definition pixel : Type := Z.

(** A two-dimensional array: its shape and its items. *)
Record ndarray2 : Type := { shape2 : Z * Z; item2 : Z -> Z -> pixel }.

(** A three-dimensional array. *)
Record ndarray3 : Type := { shape3 : Z * Z * Z; item3 : Z -> Z -> Z -> pixel }.

(** [np.zeros(shape=(a, b, c))] *)
Definition np_zeros (a b c : Z) : result ndarray3 :=
  if (a <? 0) || (b <? 0) || (c <? 0) then Raise ValueError
  else Ok {| shape3 := (a, b, c); item3 := fun _ _ _ => 0 |}.

(** [np.transpose(buf, [1, 2, 0])] *)
Definition np_transpose_120 (buf : ndarray3) : ndarray3 :=
  let '(a, b, c) := shape3 buf in
  {| shape3 := (b, c, a); item3 := fun i j k => item3 buf k i j |}.

(** The bounds of the slice [start:stop] on an axis of length [n]
    (CPython's [PySlice_AdjustIndices] for step 1): the first index taken
    and the number of indices taken. *)
Definition slice_adjust (n start stop : Z) : Z * Z :=
  let clip i := if i <? 0 then Z.max (i + n) 0 else Z.min i n in
  let a := clip start in
  let b := clip stop in
  (a, Z.max (b - a) 0).

(** [buf[a0:b0, a1:b1, :]] *)
Definition slice3 (buf : ndarray3) (a0 b0 a1 b1 : Z) : ndarray3 :=
  let '(n0, n1, n2) := shape3 buf in
  let '(s0, l0) := slice_adjust n0 a0 b0 in
  let '(s1, l1) := slice_adjust n1 a1 b1 in
  {| shape3 := (l0, l1, n2);
     item3 := fun i j k => item3 buf (s0 + i) (s1 + j) k |}.

(** [buf[i, :, :]] for [0 <= i], and its shape. *)
Definition plane (buf : ndarray3) (i : Z) : result ndarray2 :=
  let '(n0, n1, n2) := shape3 buf in
  if (0 <=? i) && (i <? n0)
  then Ok {| shape2 := (n1, n2); item2 := fun x y => item3 buf i x y |}
  else Raise IndexError.

(** The effect of filling [buf[i, :, :]] in place with [arr]. *)
Definition set_plane (buf : ndarray3) (i : Z) (arr : Z -> Z -> pixel) : ndarray3 :=
  {| shape3 := shape3 buf;
     item3 := fun b x y => if b =? i then arr x y else item3 buf b x y |}.

(** ** The GDAL backend *)

(** A GDAL data type: its code, and what
    [utilities.gdal_dtype_to_numpy_type] makes of it, the name of a numpy
    type or an exception ([utilities.py] is not among the sources, so its
    table comes with the type). *)
Record GDALDataType : Type := {
  gdt_code : Z;
  gdt_numpy_type : result string
}.

(** A raster band: [GetBlockSize()], the attribute [DataType] and
    [ReadAsArray(xoff, yoff, win_xsize, win_ysize)], which yields the rows
    of the window ([None]: the backend fails the read). *)
Record Band : Type := {
  GetBlockSize : Z * Z;
  DataType : GDALDataType;
  ReadAsArray : Z -> Z -> Z -> Z -> option (Z -> Z -> pixel)
}.

(** An opened dataset; [RasterCount] is the number of its bands. *)
Record Dataset : Type := {
  RasterXSize : Z;
  RasterYSize : Z;
  bands : list Band
}.

(** [GetRasterBand(b)], bands counted from 1; [None] outside the range. *)
Definition GetRasterBand (h : Dataset) (b : Z) : option Band :=
  if 1 <=? b then bands h !! Z.to_nat (b - 1) else None.

(** ** TiffImage *)

Module TiffImage.

Import Rectangle.

(** The state of a [TiffImage]: [close] sets every field to [None].
    ([_paths] is only used in messages.) *)
Record t : Type := {
  _handles : option (list Dataset);
  _band_map : option (list (nat * Z))
}.

(** The band map that [__init__] builds from the opened datasets:
    [(i, j + 1)] for every band [j] of every handle [i]. *)
Definition make_band_map (hs : list Dataset) : list (nat * Z) :=
  mbind (M := list)
        (fun ih : nat * Dataset =>
           (fun j : nat => (ih.1, Z.of_nat j + 1)) <$> seq 0 (length (bands ih.2)))
        (imap (fun i h => (i, h)) hs).

(** [__init__] once the paths are opened: every dataset must have the size
    of the first one. *)
Definition init (hs : list Dataset) : result t :=
  if forallb (fun h => match hs with
                       | h0 :: _ => (RasterXSize h =? RasterXSize h0)
                                    && (RasterYSize h =? RasterYSize h0)
                       | [] => true
                       end) hs
  then Ok {| _handles := Some hs; _band_map := Some (make_band_map hs) |}
  else Raise DimensionMismatchError.

Definition __asert_open (self : t) : result unit :=
  match _handles self with
  | None => Raise ClosedSourceError
  | Some _ => Ok tt
  end.

Definition close (self : t) : t := {| _handles := None; _band_map := None |}.

(** Reading an attribute that may hold [None]. *)
Definition attr {A} (o : option A) : result A :=
  match o with
  | Some a => Ok a
  | None => Raise TypeError
  end.

Definition num_bands (self : t) : result Z :=
  _ ← __asert_open self;
  m ← attr (_band_map self);
  Ok (Z.of_nat (length m)).

Definition size (self : t) : result (Z * Z) :=
  _ ← __asert_open self;
  hs ← attr (_handles self);
  h ← py_index hs 0;
  Ok (RasterYSize h, RasterXSize h).

(** Modelled from the spec: [width()] and [height()] of the base class
    [DeltaImage] ([basic_sources.py], not among the sources): the extents of
    the full image bounds of section 4.3, taken from [size()].  [_read] below
    hands [roi.width()] to GDAL as the window's y size, so the width is the
    first component of [size()]. *)
Definition width (self : t) : result Z := s ← size self; Ok s.1.
Definition height (self : t) : result Z := s ← size self; Ok s.2.

Definition _gdal_band (self : t) (band : Z) : result Band :=
  m ← attr (_band_map self);
  hb ← py_index m band;
  hs ← attr (_handles self);
  ds ← py_index hs (Z.of_nat hb.1);
  match GetRasterBand ds hb.2 with
  | Some ret => Ok ret
  | None => Raise AssertionError
  end.

(** [data_type(band)]: the GDAL data type of the band. *)
Definition data_type (self : t) (band : Z) : result GDALDataType :=
  _ ← __asert_open self;
  band_handle ← _gdal_band self band;
  Ok (DataType band_handle).

(** [numpy_type(band)] *)
Definition numpy_type (self : t) (band : Z) : result string :=
  _ ← __asert_open self;
  dt ← data_type self band;
  gdt_numpy_type dt.

(** Returns [((block_size[1], block_size[0]), (num blocks x, num blocks y))]. *)
Definition block_info (self : t) (band : Z) : result ((Z * Z) * (Z * Z)) :=
  _ ← __asert_open self;
  band_handle ← _gdal_band self band;
  let block_size := GetBlockSize band_handle in
  h ← height self;
  num_blocks_x ← ceil_div h block_size.2;
  w ← width self;
  num_blocks_y ← ceil_div w block_size.1;
  Ok ((block_size.2, block_size.1), (num_blocks_x, num_blocks_y)).

(** The bounds [Rectangle(0, 0, width=self.width(), height=self.height())]. *)
Definition whole_bounds (self : t) : result Rect :=
  w ← width self;
  h ← height self;
  Ok (of_size 0 0 w h).

Definition get_block_aligned_read_roi (self : t) (desired_roi : Rect) : result Rect :=
  _ ← __asert_open self;
  bounds ← whole_bounds self;
  if negb (contains_rect bounds desired_roi) then Raise RegionOutOfBoundsError
  else
    bi ← block_info self 0;
    let block_size := bi.1 in
    start_block_x ← floor_div (min_x desired_roi) block_size.1;
    start_block_y ← floor_div (min_y desired_roi) block_size.2;
    stop_block_x ← floor_div (max_x desired_roi - 1) block_size.1;
    stop_block_y ← floor_div (max_y desired_roi - 1) block_size.2;
    let start_x := start_block_x * block_size.1 in
    let start_y := start_block_y * block_size.2 in
    let w := (stop_block_x - start_block_x + 1) * block_size.1 in
    let h := (stop_block_y - start_block_y + 1) * block_size.2 in
    let ans := of_size start_x start_y w h in
    bounds ← whole_bounds self;
    Ok (get_intersection ans bounds).

(** The loop of [_read] over [enumerate(bands)], from index [i] on. *)
Fixpoint _read_bands (self : t) (roi : Rect) (i : Z) (bands : list Z)
    (buf : ndarray3) : result ndarray3 :=
  match bands with
  | [] => Ok buf
  | b :: rest =>
      band_handle ← _gdal_band self b;
      p ← plane buf i;
      if negb (bool_decide (shape2 p = (Rectangle.width roi, Rectangle.height roi)))
      then Raise BufferShapeError
      else
        match ReadAsArray band_handle (min_y roi) (min_x roi) (Rectangle.height roi) (Rectangle.width roi) with
        | None => Raise BackendIOError
        | Some arr => _read_bands self roi (i + 1) rest (set_plane buf i arr)
        end
  end.

Definition _read (self : t) (roi : Rect) (bands : list Z) (buf : option ndarray3)
    : result ndarray3 :=
  _ ← __asert_open self;
  buf ← match buf with
        | None =>
            (* the arguments of [np.zeros] in their order: the shape, then
               [dtype=self.numpy_type()], the type of band 0; the pixels of
               the model are integers whatever the type *)
            nb ← num_bands self;
            _ ← numpy_type self 0;
            np_zeros nb (Rectangle.width roi) (Rectangle.height roi)
        | Some b => Ok b
        end;
  buf ← _read_bands self roi 0 bands buf;
  Ok (np_transpose_120 buf).

(** [range(n)] *)
Definition range (n : Z) : list Z := Z.of_nat <$> seq 0 (Z.to_nat n).

(** Modelled from the spec: [read] of the base class [DeltaImage]
    ([basic_sources.py], not among the sources), section 4.2: it fails with
    [OutOfBoundsError] if the region is not contained in the full extent, and
    reads the listed bands (all of them when none is given, as
    [process_rois] calls it) through [_read]. *)
Definition read (self : t) (roi : Rect) (bands : option (list Z))
    (buf : option ndarray3) : result ndarray3 :=
  bounds ← whole_bounds self;
  if negb (contains_rect bounds roi) then Raise OutOfBoundsError
  else
    bands ← match bands with
            | Some l => Ok l
            | None => nb ← num_bands self; Ok (range nb)
            end;
    _read self roi bands buf.

(** *** The ROI batch scheduler *)

(** [process_rois] mutates list objects, submits reads to a one-worker
    executor, calls back into the caller's code and prints progress.  Its
    model runs over a world made of the store of Python list objects, the
    trace of what was submitted, called and printed, and the state of the
    caller's code. *)

Inductive event : Type :=
| Submit (read_roi : Rect)                  (* exe.submit(functools.partial(self.read, read_roi)) *)
| Callback (roi : Rect) (data : ndarray3)   (* callback_function(roi, data) *)
| Progress (completed total : Z)            (* utilities.progress_bar(...) *)
| Newline.                                  (* print() *)

Record world (U : Type) : Type := World {
  lists : gmap positive (list Rect);
  trace : list event;
  user : U
}.
Arguments World {U} lists trace user.
Arguments lists {U} w.
Arguments trace {U} w.
Arguments user {U} w.

(** How a run ends: it returns, raises, or is still looping when the fuel
    of the model is spent. *)
Inductive outcome (A : Type) : Type :=
| Returns (a : A)
| Raises (e : exn)
| Diverges.
Arguments Returns {A} a.
Arguments Raises {A} e.
Arguments Diverges {A}.

Definition M (U A : Type) : Type := world U -> outcome A * world U.

#[global] Instance M_ret U : MRet (M U) := fun A a w => (Returns a, w).

#[global] Instance M_bind U : MBind (M U) := fun A B k m w =>
  match m w with
  | (Returns a, w') => k a w'
  | (Raises e, w') => (Raises e, w')
  | (Diverges, w') => (Diverges, w')
  end.

Section Scheduler.

Context {U : Type}.

Definition lift {A} (r : result A) : M U A := fun w =>
  (match r with Ok a => Returns a | Raise e => Raises e end, w).

Definition diverge {A} : M U A := fun w => (Diverges, w).

(** Reading the list object at [l].  (A reference always leads to an object
    in Python; the model raises on an address that holds none.) *)
Definition load (l : positive) : M U (list Rect) := fun w =>
  match lists w !! l with
  | Some v => (Returns v, w)
  | None => (Raises TypeError, w)
  end.

(** Replacing the contents of the list object at [l]. *)
Definition store (l : positive) (v : list Rect) : M U unit := fun w =>
  (Returns tt, World (<[l := v]> (lists w)) (trace w) (user w)).

(** A new list object. *)
Definition alloc (v : list Rect) : M U positive := fun w =>
  let l := fresh (dom (lists w)) in
  (Returns l, World (<[l := v]> (lists w)) (trace w) (user w)).

Definition emit (e : event) : M U unit := fun w =>
  (Returns tt, World (lists w) (trace w ++ [e]) (user w)).

(** Calling the caller's callback, which may raise. *)
Definition call (callback_function : Rect -> ndarray3 -> U -> result U)
    (roi : Rect) (data : ndarray3) : M U unit := fun w =>
  let tr := trace w ++ [Callback roi data] in
  match callback_function roi data (user w) with
  | Ok u => (Returns tt, World (lists w) tr u)
  | Raise e => (Raises e, World (lists w) tr (user w))
  end.

(** A job: the future of the read, the aligned region, the grouped ROIs.
    The worker evaluates [self.read(read_roi)]; reads do not change the
    image, so the future holds the value of that call. *)
Definition job : Type := result ndarray3 * Rect * list Rect.

(** [for roi in requested_rois: if not whole_bounds.contains_rect(roi): raise] *)
Fixpoint check_rois (whole_bounds : Rect) (rois : list Rect) : result unit :=
  match rois with
  | [] => Ok tt
  | roi :: rest =>
      if negb (contains_rect whole_bounds roi) then Raise RegionOutOfBoundsError
      else check_rois whole_bounds rest
  end.

(** The inner loop [while index < len(block_rois)]; every turn either
    advances [index] or pops an element, so the fuel handed to it by
    [group_rois] is never spent. *)
Fixpoint collect_rois (fuel : nat) (read_roi : Rect) (block_rois : positive)
    (index : nat) (applicable_rois : list Rect) : M U (list Rect) :=
  match fuel with
  | O => diverge
  | S fuel =>
      l ← load block_rois;
      if bool_decide (index < length l)%nat then
        r ← lift (py_index l (Z.of_nat index));
        if negb (contains_rect read_roi r)
        then collect_rois fuel read_roi block_rois (S index) applicable_rois
        else
          _ ← store block_rois (delete index l);
          collect_rois fuel read_roi block_rois index (applicable_rois ++ [r])
      else mret applicable_rois
  end.

(** The outer loop [while block_rois]. *)
Fixpoint group_rois (fuel : nat) (self : t) (block_rois : positive)
    (jobs : list job) : M U (list job) :=
  match fuel with
  | O => diverge
  | S fuel =>
      l ← load block_rois;
      if bool_decide (l = []) then mret jobs
      else
        first ← lift (py_index l 0);
        read_roi ← lift (get_block_aligned_read_roi self first);
        applicable_rois ← collect_rois (S (length l)) read_roi block_rois 0 [];
        _ ← emit (Submit read_roi);
        let buf := read self read_roi None None in
        group_rois fuel self block_rois (jobs ++ [(buf, read_roi, applicable_rois)])
  end.

(** [for roi in rois] of the delivery loop. *)
Fixpoint deliver_rois (callback_function : Rect -> ndarray3 -> U -> result U)
    (show_progress : bool) (total_rois : Z) (buf : ndarray3) (read_roi : Rect)
    (rois : list Rect) (num_remaining : Z) : M U Z :=
  match rois with
  | [] => mret num_remaining
  | roi :: rest =>
      let x0 := min_x roi - min_x read_roi in
      let y0 := min_y roi - min_y read_roi in
      _ ← call callback_function roi
            (slice3 buf x0 (x0 + Rectangle.width roi) y0 (y0 + Rectangle.height roi));
      let num_remaining := num_remaining - 1 in
      _ ← (if show_progress
           then emit (Progress (total_rois - num_remaining) total_rois)
           else mret tt);
      deliver_rois callback_function show_progress total_rois buf read_roi rest
                   num_remaining
  end.

(** [for (buf_exe, read_roi, rois) in jobs] *)
Fixpoint deliver_jobs (callback_function : Rect -> ndarray3 -> U -> result U)
    (show_progress : bool) (total_rois : Z) (jobs : list job)
    (num_remaining : Z) : M U Z :=
  match jobs with
  | [] => mret num_remaining
  | (buf_exe, read_roi, rois) :: rest =>
      buf ← lift buf_exe;
      num_remaining ← deliver_rois callback_function show_progress total_rois
                                   buf read_roi rois num_remaining;
      deliver_jobs callback_function show_progress total_rois rest num_remaining
  end.

(** [requested_rois] is the list object the caller passes. *)
Definition process_rois (fuel : nat) (self : t) (requested_rois : positive)
    (callback_function : Rect -> ndarray3 -> U -> result U)
    (show_progress : bool) : M U unit :=
  _ ← lift (__asert_open self);
  l ← load requested_rois;
  block_rois ← alloc l;
  whole_bounds ← lift (whole_bounds self);
  l ← load requested_rois;
  _ ← lift (check_rois whole_bounds l);
  let jobs := [] in
  l ← load block_rois;
  let total_rois := Z.of_nat (length l) in
  jobs ← group_rois fuel self block_rois jobs;
  let num_remaining := total_rois in
  _ ← deliver_jobs callback_function show_progress total_rois jobs num_remaining;
  if show_progress then emit Newline else mret tt.

End Scheduler.

(** The reads submitted and the callbacks made, in a trace. *)
Definition submits (tr : list event) : list Rect :=
  omap (fun e => match e with Submit r => Some r | _ => None end) tr.

Definition callbacks (tr : list event) : list (Rect * ndarray3) :=
  omap (fun e => match e with Callback r d => Some (r, d) | _ => None end) tr.

End TiffImage.

(** ** TiffWriter *)

Module TiffWriter.

(** The creation options handed to GDAL. *)
Inductive creation_option : Type :=
| COMPRESS_LZW
| BigTIFF_IF_SAFER
| INTERLEAVE_BAND
| BLOCKXSIZE (n : Z)
| BLOCKYSIZE (n : Z)
| TILED_YES.

#[global] Instance creation_option_eq_dec : EqDecision creation_option.
Proof. solve_decision. Defined.

(** One [WriteArray(data, xoff, yoff)] on band [wr_band]. *)
Record write : Type := {
  wr_band : Z;
  wr_data : ndarray2;
  wr_xoff : Z;
  wr_yoff : Z
}.

(** The dataset [driver.Create(path, xsize, ysize, bands, type, options)]
    returns, with what has been set and written on it.  (The georeferencing
    metadata is handed on to GDAL as it is and is left out.) *)
Record OutDataset : Type := {
  out_xsize : Z;
  out_ysize : Z;
  out_count : Z;
  out_options : list creation_option;
  out_nodata : option Z;
  out_writes : list write;
  out_flushed : bool
}.

Record t : Type := {
  _width : Z;
  _height : Z;
  _tile_height : Z;
  _tile_width : Z;
  _handle : option OutDataset
}.

Definition MIN_SIZE_FOR_TILES : Z := 100.

(** The option list [__init__] builds. *)
Definition init_options (width height tile_width tile_height : Z)
    : list creation_option :=
  let options := [COMPRESS_LZW; BigTIFF_IF_SAFER; INTERLEAVE_BAND] in
  let options := options ++ [BLOCKXSIZE tile_height; BLOCKYSIZE tile_width] in
  if (width >? MIN_SIZE_FOR_TILES) || (height >? MIN_SIZE_FOR_TILES)
  then options ++ [TILED_YES]
  else options.

(** [__init__]; [created] tells whether the driver could create the file. *)
Definition init (created : bool) (width height num_bands tile_width tile_height : Z)
    (no_data_value : option Z) : result t :=
  let options := init_options width height tile_width tile_height in
  if created then
    Ok {| _width := width; _height := height;
          _tile_height := tile_height; _tile_width := tile_width;
          _handle := Some {| out_xsize := height; out_ysize := width;
                             out_count := num_bands; out_options := options;
                             out_nodata := no_data_value;
                             out_writes := []; out_flushed := false |} |}
  else Raise SourceOpenError.

(** [close]: the writer afterwards, and the dataset it flushed, if any. *)
Definition close (self : t) : t * option OutDataset :=
  match _handle self with
  | Some h =>
      ({| _width := _width self; _height := _height self;
          _tile_height := _tile_height self; _tile_width := _tile_width self;
          _handle := None |},
       Some {| out_xsize := out_xsize h; out_ysize := out_ysize h;
               out_count := out_count h; out_options := out_options h;
               out_nodata := out_nodata h; out_writes := out_writes h;
               out_flushed := true |})
  | None => (self, None)
  end.

Definition get_size (self : t) : Z * Z := (_width self, _height self).

Definition get_tile_size (self : t) : Z * Z := (_tile_width self, _tile_height self).

(** [get_num_tiles]: the two ceilings are the exact ones, as the source
    computes them through a double for sizes below 2^53
    ([ceil_truediv_exact]). *)
Definition get_num_tiles (self : t) : result (Z * Z) :=
  num_x ← ceil_div (_width self) (_tile_width self);
  num_y ← ceil_div (_height self) (_tile_height self);
  Ok (num_x, num_y).

(** [write_block]: the writer after the write, or the exception.  Every
    [raise] comes before the one effect, the [WriteArray] call. *)
Definition write_block (self : t) (data : ndarray2) (block_x block_y band : Z)
    : result t :=
  num_tiles ← get_num_tiles self;
  if (block_x >=? num_tiles.1) || (block_y >=? num_tiles.2)
  then Raise InvalidTileIndexError
  else
    let is_edge_block := (block_x =? num_tiles.1 - 1) || (block_y =? num_tiles.2 - 1) in
    _ ← (if is_edge_block then
           let max_x := block_x * _tile_width self + (shape2 data).1 in
           let max_y := block_y * _tile_height self + (shape2 data).2 in
           if (max_x >? _width self) || (max_y >? _height self)
           then Raise TileOverflowError else Ok tt
         else
           if negb ((shape2 data).1 =? _tile_width self)
              || negb ((shape2 data).2 =? _tile_height self)
           then Raise TileShapeMismatchError else Ok tt);
    h ← match _handle self with
        | None => Raise WriterClosedError
        | Some h => Ok h
        end;
    if negb ((1 <=? band + 1) && (band + 1 <=? out_count h)) then Raise AssertionError
    else
      let w := {| wr_band := band + 1; wr_data := data;
                  wr_xoff := block_y * _tile_height self;
                  wr_yoff := block_x * _tile_width self |} in
      Ok {| _width := _width self; _height := _height self;
            _tile_height := _tile_height self; _tile_width := _tile_width self;
            _handle := Some {| out_xsize := out_xsize h; out_ysize := out_ysize h;
                               out_count := out_count h; out_options := out_options h;
                               out_nodata := out_nodata h;
                               out_writes := out_writes h ++ [w];
                               out_flushed := out_flushed h |} |}.

(** Whether the dataset of the writer was created with [TILED=YES]. *)
Definition is_tiled (self : t) : bool :=
  match _handle self with
  | Some h => bool_decide (TILED_YES ∈ out_options h)
  | None => false
  end.

(** The writes made so far on the dataset the writer holds. *)
Definition writes (self : t) : list write :=
  match _handle self with
  | Some h => out_writes h
  | None => []
  end.

End TiffWriter.

(** ** The specification's side *)

Module Spec.

Import Rectangle.

(** The aligned rectangle of section 4.3, before clipping, for a block of
    extent [bsx] along x and [bsy] along y. *)
Definition aligned (bsx bsy : Z) (desired : Rect) : Rect :=
  let start_block_x := min_x desired / bsx in
  let start_block_y := min_y desired / bsy in
  let stop_block_x := (max_x desired - 1) / bsx in
  let stop_block_y := (max_y desired - 1) / bsy in
  of_size (start_block_x * bsx) (start_block_y * bsy)
          ((stop_block_x - start_block_x + 1) * bsx)
          ((stop_block_y - start_block_y + 1) * bsy).

(** A rectangle made of whole blocks. *)
Definition block_aligned (bsx bsy : Z) (r : Rect) : Prop :=
  (bsx | min_x r) /\ (bsx | max_x r) /\ (bsy | min_y r) /\ (bsy | max_y r).

(** The part of the buffer of the aligned region [read_roi] that is handed
    to the callback for [roi]: the slice that starts at
    [roi.min - read_roi.min]. *)
Definition sub_buffer (buf : ndarray3) (read_roi roi : Rect) : ndarray3 :=
  let x0 := min_x roi - min_x read_roi in
  let y0 := min_y roi - min_y read_roi in
  slice3 buf x0 (x0 + width roi) y0 (y0 + height roi).

(** The callbacks a job gives rise to once its read has returned. *)
Definition delivered (j : TiffImage.job) : list (Rect * ndarray3) :=
  match j with
  | (Ok buf, read_roi, rois) => (fun roi => (roi, sub_buffer buf read_roi roi)) <$> rois
  | (Raise _, _, _) => []
  end.

(** What [process_rois] puts in the job of a group: the future of the read
    of the aligned region of one of the ROIs of the group, and ROIs that the
    region contains. *)
Definition job_of_group (self : TiffImage.t) (j : TiffImage.job) : Prop :=
  j.1.1 = TiffImage.read self j.1.2 None None
  /\ (exists first, first ∈ j.2
                     /\ TiffImage.get_block_aligned_read_roi self first = Ok j.1.2)
  /\ Forall (fun r => contains_rect j.1.2 r = true) j.2.

(** A computation that leaves an observation [f] of the world as it is,
    however it ends. *)
Definition preserves {U A X} (f : TiffImage.world U -> X) (m : TiffImage.M U A) : Prop :=
  forall (w w' : TiffImage.world U) (o : TiffImage.outcome A),
    m w = (o, w') -> f w' = f w.

(** The state of the caller's code after the given calls of the callback. *)
Fixpoint apply_calls {U} (callback_function : Rect -> ndarray3 -> U -> result U)
    (calls : list (Rect * ndarray3)) (u : U) : result U :=
  match calls with
  | [] => Ok u
  | (roi, data) :: rest =>
      u' ← callback_function roi data u;
      apply_calls callback_function rest u'
  end.

End Spec.

(** ** Sample values *)

Module Sample.

(** [GDT_Byte], which the table turns into [numpy.uint8]. *)
Definition GDT_Byte : GDALDataType := {| gdt_code := 1; gdt_numpy_type := Ok "uint8" |}.

(** A band of blocks [bsx] by [bsy] (GDAL's x and y) whose pixel at column
    [c], row [r] is [1000 * r + c]. *)
Definition band (bsx bsy : Z) : Band :=
  {| GetBlockSize := (bsx, bsy); DataType := GDT_Byte;
     ReadAsArray := fun xoff yoff _ _ => Some (fun r c => 1000 * (yoff + r) + (xoff + c)) |}.

(** A band that fails every read. *)
Definition broken_band (bsx bsy : Z) : Band :=
  {| GetBlockSize := (bsx, bsy); DataType := GDT_Byte;
     ReadAsArray := fun _ _ _ _ => None |}.

Definition dataset (xsize ysize : Z) (bs : list Band) : Dataset :=
  {| RasterXSize := xsize; RasterYSize := ysize; bands := bs |}.

(** An image of 100 by 100 pixels, one band, blocks of 32 by 32. *)
Definition image : TiffImage.t :=
  {| TiffImage._handles := Some [dataset 100 100 [band 32 32]];
     TiffImage._band_map := Some (TiffImage.make_band_map [dataset 100 100 [band 32 32]]) |}.

(** The same image on a backend that fails every read. *)
Definition broken_image : TiffImage.t :=
  {| TiffImage._handles := Some [dataset 100 100 [broken_band 32 32]];
     TiffImage._band_map := Some [(0%nat, 1)] |}.

(** An image of 100 by 100 pixels whose blocks are not square:
    [block_info] reports the block size [(16, 32)]. *)
Definition striped_image : TiffImage.t :=
  {| TiffImage._handles := Some [dataset 100 100 [band 32 16]];
     TiffImage._band_map := Some [(0%nat, 1)] |}.

(** An image of one file that has no band. *)
Definition bandless_image : TiffImage.t :=
  {| TiffImage._handles := Some [dataset 100 100 []];
     TiffImage._band_map := Some (TiffImage.make_band_map [dataset 100 100 []]) |}.

(** An image of width 100 and height 60 with three bands. *)
Definition rgb_image : TiffImage.t :=
  {| TiffImage._handles := Some [dataset 60 100 [band 16 16; band 16 16; band 16 16]];
     TiffImage._band_map := Some [(0%nat, 1); (0%nat, 2); (0%nat, 3)] |}.

(** A band whose reads succeed in the first column of blocks only. *)
Definition flaky_band (bsx bsy : Z) : Band :=
  {| GetBlockSize := (bsx, bsy); DataType := GDT_Byte;
     ReadAsArray := fun xoff yoff _ _ =>
       if xoff =? 0 then Some (fun r c => 1000 * (yoff + r) + (xoff + c)) else None |}.

Definition flaky_image : TiffImage.t :=
  {| TiffImage._handles := Some [dataset 100 100 [flaky_band 32 32]];
     TiffImage._band_map := Some [(0%nat, 1)] |}.

(** A callback that counts its calls. *)
Definition count_calls (roi : Rect) (data : ndarray3) (n : nat) : result nat := Ok (S n).

(** A world whose only list object, at address 1, holds [rois]. *)
Definition world_of (rois : list Rect) : TiffImage.world nat :=
  TiffImage.World {[ 1%positive := rois ]} [] 0%nat.

(** A writer for an image of 10 by 10 in tiles of 4 by 4, one band. *)
Definition writer : TiffWriter.t :=
  {| TiffWriter._width := 10; TiffWriter._height := 10;
     TiffWriter._tile_height := 4; TiffWriter._tile_width := 4;
     TiffWriter._handle :=
       Some {| TiffWriter.out_xsize := 10; TiffWriter.out_ysize := 10;
               TiffWriter.out_count := 1;
               TiffWriter.out_options := TiffWriter.init_options 10 10 4 4;
               TiffWriter.out_nodata := None; TiffWriter.out_writes := [];
               TiffWriter.out_flushed := false |} |}.

(** A band-first buffer of the given shape filled with zeros. *)
Definition buffer (a b c : Z) : ndarray3 :=
  {| shape3 := (a, b, c); item3 := fun _ _ _ => 0 |}.

(** A block of the given shape filled with zeros. *)
Definition block (w h : Z) : ndarray2 := {| shape2 := (w, h); item2 := fun _ _ => 0 |}.

End Sample.

(** ** Observations on runs *)

Module Laws.

(** A computation that only appends events that satisfy [P] to the trace,
    however it ends. *)
Definition appends {U A} (P : TiffImage.event -> Prop) (m : TiffImage.M U A) : Prop :=
  forall (w w' : TiffImage.world U) (o : TiffImage.outcome A),
    m w = (o, w') ->
    exists tr, TiffImage.trace w' = TiffImage.trace w ++ tr /\ Forall P tr.

(** An event that is not the submission of a read. *)
Definition not_submit (e : TiffImage.event) : Prop :=
  match e with
  | TiffImage.Submit _ => False
  | _ => True
  end.

(** A band whose window reads return the pixels [pix] of the window: the
    item at row [r], column [c] of the array is the pixel at row
    [yoff + r], column [xoff + c]. *)
Definition reads_pixels (band : Band) (pix : Z -> Z -> pixel) : Prop :=
  forall xoff yoff xsize ysize arr,
    ReadAsArray band xoff yoff xsize ysize = Some arr ->
    forall r c, 0 <= r < ysize -> 0 <= c < xsize ->
                arr r c = pix (yoff + r) (xoff + c).

End Laws.

(** ** Further sample values *)

Module SampleMore.

(** A callback that counts its calls and raises on a ROI that starts at
    [x = 60]. *)
Definition picky (roi : Rect) (data : ndarray3) (n : nat) : result nat :=
  if Rectangle.min_x roi =? 60 then Raise CallbackError else Ok (S n).

(** Three ROIs in the 100 by 100 sample image: two in its first block
    group, one in another. *)
Definition rois3 : list Rect :=
  [Rectangle.mk 0 0 50 50; Rectangle.mk 60 60 100 100; Rectangle.mk 10 10 20 30].

(** The pixels of [Sample.band]. *)
Definition pixels (row col : Z) : pixel := 1000 * row + col.

End SampleMore.

(** ** Opening several files as one image: sample *)

Module SampleFiles.

(** Two files of the same size, with two bands and one band. *)
Definition two_files : list Dataset :=
  [Sample.dataset 100 100 [Sample.band 32 32; Sample.band 16 16];
   Sample.dataset 100 100 [Sample.band 8 8]].

(** A third file of another size. *)
Definition odd_file : Dataset := Sample.dataset 100 50 [Sample.band 8 8].

(** An image of one file of 60 by 100 pixels in GDAL's terms, one band,
    blocks of 32 by 16. *)
Definition oblong_image : TiffImage.t :=
  {| TiffImage._handles := Some [Sample.dataset 60 100 [Sample.band 32 16]];
     TiffImage._band_map :=
       Some (TiffImage.make_band_map [Sample.dataset 60 100 [Sample.band 32 16]]) |}.

End SampleFiles.

(** ** write_tiff *)

Module WriteTiff.

(** The array handed to [write_tiff]: of rank two, or of rank three with the
    bands on the last axis. *)
Inductive ndarray : Type :=
| Rank2 (a : ndarray2)
| Rank3 (a : ndarray3).

(** [data[:, :, b]] for [0 <= b]. *)
Definition take_band (a : ndarray3) (b : Z) : ndarray2 :=
  let '(n0, n1, n2) := shape3 a in
  {| shape2 := (n0, n1); item2 := fun x y => item3 a x y b |}.

(** [for b in range(num_bands): writer.write_block(data[:, :, b], 0, 0, b)]:
    how the loop ends, and the writer as the last call that returned left
    it. *)
Fixpoint write_bands (writer : TiffWriter.t) (data : ndarray3) (bs : list Z)
    : result unit * TiffWriter.t :=
  match bs with
  | [] => (Ok tt, writer)
  | b :: rest =>
      match TiffWriter.write_block writer (take_band data b) 0 0 b with
      | Ok writer' => write_bands writer' data rest
      | Raise e => (Raise e, writer)
      end
  end.

(** [with TiffWriter(...) as writer: body]: [__enter__] hands the writer to
    the body, [__exit__] closes it whether the body raised or not and lets
    the exception through.  The result is how the body ended and the dataset
    that was flushed. *)
Definition with_writer (made : result TiffWriter.t)
    (body : TiffWriter.t -> result unit * TiffWriter.t)
    : result unit * option TiffWriter.OutDataset :=
  match made with
  | Raise e => (Raise e, None)
  | Ok writer =>
      let '(r, writer') := body writer in
      (r, (TiffWriter.close writer').2)
  end.

(** [write_tiff(output_path, data, metadata)]; [created] tells whether the
    driver could create the file. *)
Definition write_tiff (created : bool) (data : ndarray)
    : result unit * option TiffWriter.OutDataset :=
  let num_bands := match data with
                   | Rank2 _ => 1
                   | Rank3 a => (shape3 a).2
                   end in
  let shape0 := match data with
                | Rank2 a => (shape2 a).1
                | Rank3 a => (shape3 a).1.1
                end in
  let shape1 := match data with
                | Rank2 a => (shape2 a).2
                | Rank3 a => (shape3 a).1.2
                end in
  with_writer
    (TiffWriter.init created shape0 shape1 num_bands shape0 shape1 None)
    (fun writer =>
       match data with
       | Rank2 a =>
           match TiffWriter.write_block writer a 0 0 0 with
           | Ok writer' => (Ok tt, writer')
           | Raise e => (Raise e, writer)
           end
       | Rank3 a => write_bands writer a (TiffImage.range num_bands)
       end).




End WriteTiff.

Module SampleArrays.

(** An array of shape 3 by 2 with two bands whose item at [(x, y, b)] is
    [100 * b + 10 * x + y]. *)
Definition cube : ndarray3 :=
  {| shape3 := (3, 2, 2); item3 := fun x y b => 100 * b + 10 * x + y |}.

End SampleArrays.

(** ** convert_input_images_pbs.py *)

Module Pbs.

(** What a function of the script can end in: a value, an exception, or a
    loop that is still running when the fuel of the model is spent. *)
Inductive failure : Type :=
| Exception (msg : string)   (* raise Exception(msg) *)
| Builtin (e : exn).         (* an exception of a built-in operation *)

Inductive run (A : Type) : Type :=
| Done (a : A)
| Fails (e : failure)
| Loops.
Arguments Done {A} a.
Arguments Fails {A} e.
Arguments Loops {A}.

Definition newline : string := String (Ascii.ascii_of_nat 10) "".

(** [(numProcesses, tasksPerJob, maxHours)] of a node type. *)
Definition getParallelParams (nodeType : string) : run (Z * Z * Z) :=
  if String.eqb nodeType "san" then Done (16, 600, 2)
  else if String.eqb nodeType "ivy" then Done (20, 700, 2)
  else if String.eqb nodeType "has" then Done (24, 800, 2)
  else if String.eqb nodeType "bro" then Done (28, 900, 2)
  else if String.eqb nodeType "wes" then Done (12, 400, 2)
  else Fails (Exception ("No params defined for node type " +:+ nodeType)).

Definition getEmailAddress (user_name : string) : run string :=
  if String.eqb user_name "smcmich1" then Done "scott.t.mcmichael@nasa.gov"
  else Fails (Exception ("Don't know email address for: " +:+ user_name)).

(** *** write_input_files *)

(** The inner loop [while current_file_count < files_per_job] of
    [write_input_files]: how it ends (with the new [input_iter]) and the
    strings written to the open file.  [indices] is the shuffled index
    array. *)
Fixpoint write_lines (fuel : nat) (file_list : list string) (indices : list Z)
    (files_per_job current_file_count input_iter : Z) (written : list string)
    : run Z * list string :=
  match fuel with
  | O => (Loops, written)
  | S fuel =>
      if current_file_count <? files_per_job then
        match py_index indices input_iter with
        | Raise e => (Fails (Builtin e), written)
        | Ok idx =>
            match py_index file_list idx with
            | Raise e => (Fails (Builtin e), written)
            | Ok this_file =>
                let written := written ++ [this_file +:+ newline] in
                let current_file_count := current_file_count + 1 in
                let input_iter := input_iter + 1 in
                if input_iter >=? Z.of_nat (length file_list)
                then (Done input_iter, written)
                else write_lines fuel file_list indices files_per_job
                                 current_file_count input_iter written
            end
        end
      else (Done input_iter, written)
  end.

(** The outer loop [while input_iter < num_files]: how it ends and the
    files on disk (each file is the list of the strings written to it;
    opening with ['w'] starts it anew). *)
Fixpoint write_files (fuel : nat) (file_list : list string) (indices : list Z)
    (files_per_job : Z) (output_prefix : string) (output_files : list string)
    (input_iter : Z) (disk : gmap string (list string))
    : run (list string) * gmap string (list string) :=
  match fuel with
  | O => (Loops, disk)
  | S fuel =>
      if input_iter <? Z.of_nat (length file_list) then
        let file_path := output_prefix +:+ pretty (length output_files) +:+ ".txt" in
        let output_files := output_files ++ [file_path] in
        let '(r, written) :=
          write_lines (S (length file_list)) file_list indices files_per_job
                      0 input_iter [] in
        let disk := <[file_path := written]> disk in
        match r with
        | Done input_iter =>
            write_files fuel file_list indices files_per_job output_prefix
                        output_files input_iter disk
        | Fails e => (Fails e, disk)
        | Loops => (Loops, disk)
        end
      else (Done output_files, disk)
  end.

(** [write_input_files(file_list, files_per_job, output_prefix)], with the
    order [indices] that [np.random.shuffle] left in the index array. *)
Definition write_input_files (fuel : nat) (indices : list Z)
    (file_list : list string) (files_per_job : Z) (output_prefix : string)
    (disk : gmap string (list string))
    : run (list string) * gmap string (list string) :=
  write_files fuel file_list indices files_per_job output_prefix [] 0 disk.

(** The name of the [k]-th list file. *)
Definition list_file_name (output_prefix : string) (k : nat) : string :=
  output_prefix +:+ pretty k +:+ ".txt".

(** The lines in the order of the shuffle. *)
Definition shuffled_lines (file_list : list string) (order : list nat) : list string :=
  omap (fun i => (fun f => f +:+ newline) <$> file_list !! i) order.

(** *** submitBatchJobs *)

(** [pass_along_args] is used as a string by [submitBatchJobs] and built as
    a list by [main]. *)
Inductive py_args : Type :=
| ArgStr (s : string)
| ArgList (l : list string).

Record options : Type := {
  node_type : string;
  output_folder : string;
  minutesInDevelQueue : Z;
  python_site_path : string
}.

(** The arguments of one [pbs_functions.submitJob] call. *)
Record job : Type := {
  job_name : string;
  job_queue : string;
  job_maxHours : Z;
  job_minutesInDevelQueue : Z;
  job_group : string;
  job_node_type : string;
  job_python_path : string;
  job_command : string;
  job_log_prefix : string;
  job_pythonPath : string
}.

Inductive event : Type :=
| Print (s : string)
| Popen (cmd : list string)
| SubmitJob (j : job).

Definition GROUP_ID : string := "s2022".

Fixpoint zeros (k : nat) : string :=
  match k with
  | O => ""
  | S k => "0" +:+ zeros k
  end.

(** ['%05d' % n] *)
Definition format_05d (n : nat) : string :=
  let s := pretty n in zeros (5 - String.length s) +:+ s.

Fixpoint ends_with_slash (s : string) : bool :=
  match s with
  | "" => false
  | String c "" => String.eqb (String c "") "/"
  | String _ s' => ends_with_slash s'
  end.

(** [os.path.join(a, b)] on POSIX. *)
Definition path_join (a b : string) : string :=
  if String.prefix "/" b then b
  else if String.eqb a "" || ends_with_slash a then a +:+ b
  else a +:+ "/" +:+ b.

(** [args += pass_along_args] for a string [args]. *)
Definition str_iadd (args : string) (more : py_args) : run string :=
  match more with
  | ArgStr s => Done (args +:+ s)
  | ArgList _ => Fails (Builtin TypeError)
  end.

(** The loop [for list_file in list_files] of [submitBatchJobs];
    [submitJob] stands for [pbs_functions.submitJob], which returns the
    identifier of the job. *)
Fixpoint submit_loop {J} (submitJob : job -> J) (opts : options)
    (numProcesses maxHours : Z) (python_path : string) (pass_along_args : py_args)
    (list_files : list string) (index : nat) (jobIDs : list J) (tr : list event)
    : run (list J) * list event :=
  match list_files with
  | [] => (Done jobIDs, tr)
  | list_file :: rest =>
      let scriptPath := "convert_input_image_folder.py" in
      let name := "DELTA_CI" +:+ format_05d index in
      let log_prefix := path_join (output_folder opts) name in
      let args := "--input-file-list " +:+ list_file +:+ "  --num-processes "
                  +:+ pretty numProcesses in
      match str_iadd args pass_along_args with
      | Done args =>
          let tr := tr ++ [Print ("Submitting summary regen job: " +:+ scriptPath
                                  +:+ " " +:+ args)] in
          let j := {| job_name := name; job_queue := "normal";
                      job_maxHours := maxHours;
                      job_minutesInDevelQueue := minutesInDevelQueue opts;
                      job_group := GROUP_ID; job_node_type := node_type opts;
                      job_python_path := python_path;
                      job_command := scriptPath +:+ " " +:+ args;
                      job_log_prefix := log_prefix;
                      job_pythonPath := python_site_path opts |} in
          let tr := tr ++ [SubmitJob j] in
          submit_loop submitJob opts numProcesses maxHours python_path pass_along_args
                      rest (S index) (jobIDs ++ [submitJob j]) tr
      | Fails e => (Fails e, tr)
      | Loops => (Loops, tr)
      end
  end.

(** [submitBatchJobs(list_files, options, pass_along_args)]; [python_path]
    is what [which python3] prints. *)
Definition submitBatchJobs {J} (submitJob : job -> J) (python_path : string)
    (list_files : list string) (opts : options) (pass_along_args : py_args)
    : run (list J) * list event :=
  match getParallelParams (node_type opts) with
  | Done (numProcesses, tasksPerJob, maxHours) =>
      let numBatches := length list_files in
      let tr := [Print ("Num batches: " +:+ pretty numBatches +:+ ", tasks per job: "
                        +:+ pretty tasksPerJob);
                 Popen ["which"; "python3"]] in
      submit_loop submitJob opts numProcesses maxHours python_path pass_along_args
                  list_files 0 [] tr
  | Fails e => (Fails e, [])
  | Loops => (Loops, [])
  end.

(** The jobs submitted, in a trace. *)
Definition submitted (tr : list event) : list job :=
  omap (fun e => match e with SubmitJob j => Some j | _ => None end) tr.

End Pbs.

Module SamplePbs.

Definition files : list string := ["a.tif"; "b.tif"; "c.tif"; "d.tif"; "e.tif"].

(** An order the shuffle may leave. *)
Definition order : list nat := [3; 0; 4; 1; 2]%nat.

Definition opts : Pbs.options :=
  {| Pbs.node_type := "ivy"; Pbs.output_folder := "out";
     Pbs.minutesInDevelQueue := 0; Pbs.python_site_path := "site" |}.

(** Options naming a node type the script has no parameters for. *)
Definition gpu_opts : Pbs.options :=
  {| Pbs.node_type := "gpu"; Pbs.output_folder := "out";
     Pbs.minutesInDevelQueue := 0; Pbs.python_site_path := "site" |}.

(** A job service that numbers the jobs by the length of their name. *)
Definition submitJob (j : Pbs.job) : nat := String.length (Pbs.job_name j).

End SamplePbs.

Module PbsLaws.

(** A list cut into pieces of [k] elements, the last piece being what is
    left. *)
Fixpoint chunks {A} (fuel k : nat) (l : list A) : list (list A) :=
  match fuel with
  | O => []
  | S fuel =>
      match l with
      | [] => []
      | _ => take k l :: chunks fuel k (drop k l)
      end
  end.

(** The disk after the files [ps] have been written with the contents
    [cs], in order. *)
Definition written_disk (disk : gmap string (list string))
    (ps : list string) (cs : list (list string)) : gmap string (list string) :=
  foldl (fun d pc => <[pc.1 := pc.2]> d) disk (zip ps cs).

(** The contents of the files [ps] on the disk, in order. *)
Definition read_files (disk : gmap string (list string)) (ps : list string)
    : list (list string) :=
  omap (fun p => disk !! p) ps.

End PbsLaws.

(** * Properties *)

(** ** Fallible computations *)

Lemma bind_Ok {A B} (m : result A) (k : A -> result B) (b : B) :
  m ≫= k = Ok b -> exists a, m = Ok a /\ k a = Ok b.
Proof. destruct m as [a|e]; [eauto | discriminate]. Qed.

Lemma bind_Ok_l {A B} (a : A) (k : A -> result B) : Ok a ≫= k = k a.
Proof. reflexivity. Qed.

Lemma bind_Raise_l {A B} (e : exn) (k : A -> result B) : Raise e ≫= k = Raise e.
Proof. reflexivity. Qed.

Lemma floor_div_Ok (a b : Z) : b <> 0 -> floor_div a b = Ok (a / b).
Proof. intros Hb. unfold floor_div. destruct (Z.eqb_spec b 0); [lia | done]. Qed.

Lemma ceil_div_Ok_inv (a b q : Z) : ceil_div a b = Ok q -> b <> 0.
Proof. unfold ceil_div. destruct (Z.eqb_spec b 0); [discriminate | done]. Qed.

(** ** Alignment along one axis *)

Section Axis.

Variable b : Z.
Hypothesis b_pos : 0 < b.

(** The start of the block that holds [m]. *)
Lemma block_start_le (m : Z) : m / b * b <= m.
Proof. rewrite Z.mul_comm. apply Z.mul_div_le; lia. Qed.

(** The end of the block that holds [M - 1]. *)
Lemma block_stop_ge (M : Z) : M <= ((M - 1) / b + 1) * b.
Proof.
  pose proof (Z.mul_succ_div_gt (M - 1) b b_pos) as H.
  unfold Z.succ in H. lia.
Qed.

Lemma block_stop_lt (M : Z) : ((M - 1) / b + 1) * b - b < M.
Proof. pose proof (block_start_le (M - 1)). lia. Qed.

Lemma block_start_greatest (m a : Z) : (b | a) -> a <= m -> a <= m / b * b.
Proof.
  intros [k ->] Hle.
  apply Z.mul_le_mono_nonneg_r; [lia |].
  apply Z.div_le_lower_bound; lia.
Qed.

Lemma block_stop_least (M c : Z) : (b | c) -> M <= c -> ((M - 1) / b + 1) * b <= c.
Proof.
  intros [k ->] Hle.
  apply Z.mul_le_mono_nonneg_r; [lia |].
  assert ((M - 1) / b < k); [| lia].
  apply Z.div_lt_upper_bound; lia.
Qed.

Lemma block_start_fixed (m : Z) : m / b * b / b * b = m / b * b.
Proof. rewrite Z.div_mul; lia. Qed.

(** Clipping the end of the last block to a bound [W] that is not below the
    requested end [M] leaves the last block the same. *)
Lemma block_stop_clipped (M W : Z) :
  M <= W ->
  (Z.min (((M - 1) / b + 1) * b) W - 1) / b = (M - 1) / b.
Proof.
  intros HW.
  pose proof (block_stop_ge M) as Hge.
  pose proof (block_stop_lt M) as Hlt.
  set (q := (M - 1) / b) in *.
  symmetry. apply Z.div_unique with (r := Z.min ((q + 1) * b) W - 1 - b * q); lia.
Qed.

End Axis.

(** ** The block aligner *)

Section Aligner.

Import Rectangle.

Lemma whole_bounds_open (self : TiffImage.t) (bounds : Rect) :
  TiffImage.whole_bounds self = Ok bounds -> TiffImage.__asert_open self = Ok tt.
Proof.
  unfold TiffImage.whole_bounds, TiffImage.width, TiffImage.size.
  destruct (TiffImage.__asert_open self) as [[]|e]; [done | discriminate].
Qed.

Lemma whole_bounds_shape (self : TiffImage.t) (bounds : Rect) :
  TiffImage.whole_bounds self = Ok bounds -> min_x bounds = 0 /\ min_y bounds = 0.
Proof.
  unfold TiffImage.whole_bounds. intros H.
  apply bind_Ok in H as (w & _ & H). apply bind_Ok in H as (h & _ & H).
  injection H as <-. done.
Qed.

Lemma block_info_nonzero (self : TiffImage.t) (bsx bsy : Z) (nb : Z * Z) :
  TiffImage.block_info self 0 = Ok ((bsx, bsy), nb) -> bsx <> 0 /\ bsy <> 0.
Proof.
  unfold TiffImage.block_info. intros H.
  apply bind_Ok in H as (? & _ & H). apply bind_Ok in H as (bh & _ & H).
  apply bind_Ok in H as (h & _ & H). apply bind_Ok in H as (nx & Hx & H).
  apply bind_Ok in H as (w & _ & H). apply bind_Ok in H as (ny & Hy & H).
  injection H as <- <- _. eauto using ceil_div_Ok_inv.
Qed.

(** On a contained ROI the aligner returns the clipped rectangle of the
    formula. *)
Lemma get_block_aligned_read_roi_formula (self : TiffImage.t) (desired bounds : Rect)
    (bsx bsy : Z) (nb : Z * Z) :
  TiffImage.whole_bounds self = Ok bounds ->
  TiffImage.block_info self 0 = Ok ((bsx, bsy), nb) ->
  contains_rect bounds desired = true ->
  TiffImage.get_block_aligned_read_roi self desired
  = Ok (get_intersection (Spec.aligned bsx bsy desired) bounds).
Proof.
  intros Hb Hbi Hc.
  destruct (block_info_nonzero _ _ _ _ Hbi) as [Hx Hy].
  unfold TiffImage.get_block_aligned_read_roi.
  rewrite (whole_bounds_open _ _ Hb), bind_Ok_l, Hb, bind_Ok_l, Hc.
  cbn [negb]. rewrite Hbi, bind_Ok_l. cbn [fst snd].
  rewrite !floor_div_Ok, !bind_Ok_l by done. reflexivity.
Qed.

(** Outside the bounds the aligner raises, whatever the blocks are. *)
Lemma get_block_aligned_read_roi_outside (self : TiffImage.t) (desired bounds : Rect) :
  TiffImage.whole_bounds self = Ok bounds ->
  contains_rect bounds desired = false ->
  TiffImage.get_block_aligned_read_roi self desired = Raise RegionOutOfBoundsError.
Proof.
  intros Hb Hc. unfold TiffImage.get_block_aligned_read_roi.
  rewrite (whole_bounds_open _ _ Hb), bind_Ok_l, Hb, bind_Ok_l, Hc. reflexivity.
Qed.

Lemma contains_rect_spec (a r : Rect) :
  contains_rect a r = true <->
  min_x a <= min_x r /\ min_y a <= min_y r /\ max_x r <= max_x a /\ max_y r <= max_y a.
Proof. unfold contains_rect. rewrite !andb_true_iff, !Z.leb_le. tauto. Qed.

Lemma aligned_block_aligned (bsx bsy : Z) (desired : Rect) :
  Spec.block_aligned bsx bsy (Spec.aligned bsx bsy desired).
Proof.
  unfold Spec.block_aligned, Spec.aligned, of_size; cbn.
  repeat split.
  - apply Z.divide_factor_r.
  - exists ((max_x desired - 1) / bsx + 1). ring.
  - apply Z.divide_factor_r.
  - exists ((max_y desired - 1) / bsy + 1). ring.
Qed.

Lemma aligned_max_x (bsx bsy : Z) (d : Rect) :
  max_x (Spec.aligned bsx bsy d) = ((max_x d - 1) / bsx + 1) * bsx.
Proof. unfold Spec.aligned, of_size; cbn. ring. Qed.

Lemma aligned_max_y (bsx bsy : Z) (d : Rect) :
  max_y (Spec.aligned bsx bsy d) = ((max_y d - 1) / bsy + 1) * bsy.
Proof. unfold Spec.aligned, of_size; cbn. ring. Qed.

Lemma aligned_min_x (bsx bsy : Z) (d : Rect) :
  min_x (Spec.aligned bsx bsy d) = min_x d / bsx * bsx.
Proof. reflexivity. Qed.

Lemma aligned_min_y (bsx bsy : Z) (d : Rect) :
  min_y (Spec.aligned bsx bsy d) = min_y d / bsy * bsy.
Proof. reflexivity. Qed.

(** The aligned rectangle contains the ROI. *)
Lemma aligned_contains (bsx bsy : Z) (d : Rect) :
  0 < bsx -> 0 < bsy -> contains_rect (Spec.aligned bsx bsy d) d = true.
Proof.
  intros Hx Hy. apply contains_rect_spec.
  rewrite aligned_max_x, aligned_max_y, aligned_min_x, aligned_min_y.
  auto using block_start_le, block_stop_ge.
Qed.

(** It lies within every rectangle of whole blocks that contains the ROI. *)
Lemma aligned_least (bsx bsy : Z) (d a : Rect) :
  0 < bsx -> 0 < bsy ->
  Spec.block_aligned bsx bsy a -> contains_rect a d = true ->
  contains_rect a (Spec.aligned bsx bsy d) = true.
Proof.
  intros Hx Hy (Ha1 & Ha2 & Ha3 & Ha4) Hc.
  apply contains_rect_spec in Hc as (H1 & H2 & H3 & H4).
  apply contains_rect_spec.
  rewrite aligned_max_x, aligned_max_y, aligned_min_x, aligned_min_y.
  auto using block_start_greatest, block_stop_least.
Qed.

Lemma intersection_mono (a a' bounds : Rect) :
  contains_rect a' a = true ->
  contains_rect (get_intersection a' bounds) (get_intersection a bounds) = true.
Proof.
  rewrite !contains_rect_spec. unfold get_intersection; cbn. lia.
Qed.

Lemma intersection_contains (a bounds d : Rect) :
  contains_rect a d = true -> contains_rect bounds d = true ->
  contains_rect (get_intersection a bounds) d = true.
Proof.
  rewrite !contains_rect_spec. unfold get_intersection; cbn. lia.
Qed.

(** The clipped aligned rectangle of a contained ROI lies within the bounds. *)
Lemma clipped_within (bsx bsy : Z) (d bounds : Rect) :
  0 < bsx -> 0 < bsy ->
  min_x bounds = 0 -> min_y bounds = 0 ->
  contains_rect bounds d = true ->
  contains_rect bounds (get_intersection (Spec.aligned bsx bsy d) bounds) = true.
Proof.
  intros Hx Hy H0x H0y Hc.
  apply contains_rect_spec in Hc as (H1 & H2 & H3 & H4).
  apply contains_rect_spec. unfold get_intersection; cbn.
  assert (0 <= min_x d / bsx * bsx) by (apply Z.mul_nonneg_nonneg; [apply Z.div_pos|]; lia).
  assert (0 <= min_y d / bsy * bsy) by (apply Z.mul_nonneg_nonneg; [apply Z.div_pos|]; lia).
  lia.
Qed.

Lemma rect_ext (a b : Rect) :
  min_x a = min_x b -> min_y a = min_y b ->
  max_x a = max_x b -> max_y a = max_y b -> a = b.
Proof. destruct a, b; cbn; congruence. Qed.

(** Aligning the clipped aligned rectangle gives it back. *)
Lemma clipped_aligned_fixed (bsx bsy : Z) (d bounds : Rect) :
  0 < bsx -> 0 < bsy ->
  min_x bounds = 0 -> min_y bounds = 0 ->
  contains_rect bounds d = true ->
  let r := get_intersection (Spec.aligned bsx bsy d) bounds in
  get_intersection (Spec.aligned bsx bsy r) bounds = r.
Proof.
  intros Hx Hy H0x H0y Hc r.
  apply contains_rect_spec in Hc as (H1 & H2 & H3 & H4).
  assert (Hmx : min_x r = min_x d / bsx * bsx).
  { subst r. unfold get_intersection; cbn.
    assert (0 <= min_x d / bsx * bsx)
      by (apply Z.mul_nonneg_nonneg; [apply Z.div_pos|]; lia). lia. }
  assert (Hmy : min_y r = min_y d / bsy * bsy).
  { subst r. unfold get_intersection; cbn.
    assert (0 <= min_y d / bsy * bsy)
      by (apply Z.mul_nonneg_nonneg; [apply Z.div_pos|]; lia). lia. }
  assert (HMx : max_x r = Z.min (((max_x d - 1) / bsx + 1) * bsx) (max_x bounds)).
  { subst r. unfold get_intersection. cbn [max_x]. by rewrite aligned_max_x. }
  assert (HMy : max_y r = Z.min (((max_y d - 1) / bsy + 1) * bsy) (max_y bounds)).
  { subst r. unfold get_intersection. cbn [max_y]. by rewrite aligned_max_y. }
  assert (Hax : min_x (Spec.aligned bsx bsy r) = min_x r).
  { rewrite aligned_min_x, Hmx. by apply block_start_fixed. }
  assert (Hay : min_y (Spec.aligned bsx bsy r) = min_y r).
  { rewrite aligned_min_y, Hmy. by apply block_start_fixed. }
  assert (HAx : max_x (Spec.aligned bsx bsy r) = ((max_x d - 1) / bsx + 1) * bsx).
  { rewrite aligned_max_x, HMx. by rewrite block_stop_clipped. }
  assert (HAy : max_y (Spec.aligned bsx bsy r) = ((max_y d - 1) / bsy + 1) * bsy).
  { rewrite aligned_max_y, HMy. by rewrite block_stop_clipped. }
  assert (0 <= min_x d / bsx * bsx)
    by (apply Z.mul_nonneg_nonneg; [apply Z.div_pos|]; lia).
  assert (0 <= min_y d / bsy * bsy)
    by (apply Z.mul_nonneg_nonneg; [apply Z.div_pos|]; lia).
  apply rect_ext; unfold get_intersection at 1; cbn [min_x min_y max_x max_y];
    rewrite ?Hax, ?Hay, ?HAx, ?HAy; lia.
Qed.

(** C1.  On an open image with bounds [bounds]:
    for a desired ROI contained in the bounds, and blocks of extent [bsx]
    along x and [bsy] along y (the pair [block_info] reports),
    [get_block_aligned_read_roi] returns the rectangle of the formula of
    section 4.3 (start [floor(min / block) * block], extent
    [(stop_block - start_block + 1) * block] on each axis) intersected with
    the bounds; that rectangle contains the ROI, lies within the bounds, and
    lies within the clipping of every rectangle of whole blocks that contains
    the ROI, the unclipped one being made of whole blocks itself.
    For a desired ROI not contained in the bounds it raises the out-of-bounds
    exception and returns no region. *)
Theorem get_block_aligned_read_roi_correct
    (self : TiffImage.t) (desired bounds : Rect) :
  TiffImage.whole_bounds self = Ok bounds ->
  (contains_rect bounds desired = true ->
   forall (bsx bsy : Z) (nb : Z * Z),
     TiffImage.block_info self 0 = Ok ((bsx, bsy), nb) ->
     0 < bsx -> 0 < bsy ->
     let r := get_intersection (Spec.aligned bsx bsy desired) bounds in
     TiffImage.get_block_aligned_read_roi self desired = Ok r
     /\ Spec.block_aligned bsx bsy (Spec.aligned bsx bsy desired)
     /\ contains_rect r desired = true
     /\ contains_rect bounds r = true
     /\ forall a : Rect,
          Spec.block_aligned bsx bsy a -> contains_rect a desired = true ->
          contains_rect (get_intersection a bounds) r = true)
  /\ (contains_rect bounds desired = false ->
      TiffImage.get_block_aligned_read_roi self desired = Raise RegionOutOfBoundsError).
Proof.
  intros Hb. split.
  - intros Hc bsx bsy nb Hbi Hx Hy r.
    destruct (whole_bounds_shape _ _ Hb) as [H0x H0y].
    split; [by eapply get_block_aligned_read_roi_formula |].
    split; [apply aligned_block_aligned |].
    split; [apply intersection_contains; auto using aligned_contains |].
    split; [by apply clipped_within |].
    intros a Ha Hca. apply intersection_mono. by apply aligned_least.
  - by apply get_block_aligned_read_roi_outside.
Qed.

(** Which extent goes with which axis: x is aligned to the first component
    of the block size that [block_info] reports, y to the second. *)
Example get_block_aligned_read_roi_axes :
  TiffImage.block_info Sample.striped_image 0 = Ok ((16, 32), (7, 4))
  /\ TiffImage.get_block_aligned_read_roi Sample.striped_image (Rectangle.mk 0 0 10 10)
     = Ok (Rectangle.mk 0 0 16 32).
Proof. split; reflexivity. Qed.

Lemma get_block_aligned_read_roi_correct_witness :
  let bounds := Rectangle.mk 0 0 100 100 in
  let desired := Rectangle.mk 60 60 100 100 in
  TiffImage.whole_bounds Sample.image = Ok bounds
  /\ TiffImage.get_block_aligned_read_roi Sample.image desired
     = Ok (Rectangle.mk 32 32 100 100)
  /\ TiffImage.get_block_aligned_read_roi Sample.image (Rectangle.mk 60 60 101 100)
     = Raise RegionOutOfBoundsError.
Proof.
  intros bounds desired.
  assert (Hb : TiffImage.whole_bounds Sample.image = Ok bounds) by reflexivity.
  destruct (get_block_aligned_read_roi_correct Sample.image desired bounds Hb)
    as [Hin _].
  destruct (get_block_aligned_read_roi_correct Sample.image
              (Rectangle.mk 60 60 101 100) bounds Hb) as [_ Hout].
  split; [exact Hb |]. split.
  - destruct (Hin eq_refl 32 32 (4, 4) eq_refl ltac:(lia) ltac:(lia)) as [H _].
    exact H.
  - exact (Hout eq_refl).
Defined.

(** C9.  Block alignment is idempotent: on an open image whose blocks have
    positive extents, for every ROI contained in the bounds the aligner
    returns a region, and applied to that region it returns the same
    region. *)
Theorem get_block_aligned_read_roi_idempotent
    (self : TiffImage.t) (desired bounds : Rect) (bsx bsy : Z) (nb : Z * Z) :
  TiffImage.whole_bounds self = Ok bounds ->
  TiffImage.block_info self 0 = Ok ((bsx, bsy), nb) ->
  0 < bsx -> 0 < bsy ->
  contains_rect bounds desired = true ->
  exists r : Rect,
    TiffImage.get_block_aligned_read_roi self desired = Ok r
    /\ TiffImage.get_block_aligned_read_roi self r = Ok r.
Proof.
  intros Hb Hbi Hx Hy Hc.
  destruct (whole_bounds_shape _ _ Hb) as [H0x H0y].
  exists (get_intersection (Spec.aligned bsx bsy desired) bounds).
  split; [by eapply get_block_aligned_read_roi_formula |].
  erewrite get_block_aligned_read_roi_formula; eauto using clipped_within.
  f_equal. by apply clipped_aligned_fixed.
Qed.

Lemma get_block_aligned_read_roi_idempotent_witness :
  exists r : Rect,
    TiffImage.get_block_aligned_read_roi Sample.image (Rectangle.mk 60 60 100 100) = Ok r
    /\ TiffImage.get_block_aligned_read_roi Sample.image r = Ok r.
Proof.
  apply (get_block_aligned_read_roi_idempotent Sample.image (Rectangle.mk 60 60 100 100)
           (Rectangle.mk 0 0 100 100) 32 32 (4, 4));
    [reflexivity | reflexivity | lia | lia | reflexivity].
Defined.

End Aligner.

(** ** The tile writer *)

Section Writer.

Import TiffWriter.

Lemma get_num_tiles_ceil (self : t) :
  _tile_width self <> 0 -> _tile_height self <> 0 ->
  get_num_tiles self
  = Ok (- (- _width self / _tile_width self), - (- _height self / _tile_height self)).
Proof.
  intros Hw Hh. unfold get_num_tiles, ceil_div.
  destruct (Z.eqb_spec (_tile_width self) 0); [done |].
  destruct (Z.eqb_spec (_tile_height self) 0); [done |].
  reflexivity.
Qed.

(** C3.  For a [write_block(data, block_x, block_y, band)] on an open writer
    whose tile grid is [(nx, ny)]:
    a block index at or beyond the grid raises the invalid-index exception;
    otherwise an edge block raises the overflow exception exactly when
    [block_x * tile_w + data.shape[0]] exceeds the width or
    [block_y * tile_h + data.shape[1]] exceeds the height;
    otherwise an interior block raises the shape exception exactly when the
    shape of the data differs from [(tile_w, tile_h)];
    a call that passes these checks on an existing band returns, and every
    call that returns has appended one write of the data at pixel offset
    [(block_x * tile_w, block_y * tile_h)], handed to GDAL as
    [WriteArray(data, block_y * tile_h, block_x * tile_w)], and has changed
    nothing else. *)
Theorem write_block_correct
    (self : t) (h : OutDataset) (data : ndarray2) (block_x block_y band nx ny : Z) :
  _handle self = Some h ->
  get_num_tiles self = Ok (nx, ny) ->
  let is_edge := block_x = nx - 1 \/ block_y = ny - 1 in
  let overflow := block_x * _tile_width self + (shape2 data).1 > _width self
                  \/ block_y * _tile_height self + (shape2 data).2 > _height self in
  let mismatch := shape2 data <> (_tile_width self, _tile_height self) in
  let w := {| wr_band := band + 1; wr_data := data;
              wr_xoff := block_y * _tile_height self;
              wr_yoff := block_x * _tile_width self |} in
  (block_x >= nx \/ block_y >= ny ->
     write_block self data block_x block_y band = Raise InvalidTileIndexError)
  /\ (block_x < nx -> block_y < ny -> is_edge ->
      (write_block self data block_x block_y band = Raise TileOverflowError <-> overflow))
  /\ (block_x < nx -> block_y < ny -> ~ is_edge ->
      (write_block self data block_x block_y band = Raise TileShapeMismatchError
       <-> mismatch))
  /\ (block_x < nx -> block_y < ny ->
      (is_edge -> ~ overflow) -> (~ is_edge -> ~ mismatch) ->
      0 <= band < out_count h ->
      exists self', write_block self data block_x block_y band = Ok self')
  /\ (forall self',
        write_block self data block_x block_y band = Ok self' ->
        writes self' = writes self ++ [w]
        /\ get_size self' = get_size self
        /\ get_tile_size self' = get_tile_size self).
Proof.
  intros Hh Hnt is_edge overflow mismatch w.
  unfold write_block. rewrite Hnt, bind_Ok_l, Hh. cbn [fst snd].
  subst is_edge overflow mismatch.
  destruct (shape2 data) as [d0 d1] eqn:Hs. cbn [fst snd].
  destruct (Z.geb_spec block_x nx) as [Hx|Hx];
    [cbn [orb]; repeat split; intros; try lia; try discriminate|].
  destruct (Z.geb_spec block_y ny) as [Hy|Hy];
    [cbn [orb]; repeat split; intros; try lia; try discriminate|].
  cbn [orb].
  destruct (Z.eqb_spec block_x (nx - 1)) as [Ex|Ex];
  destruct (Z.eqb_spec block_y (ny - 1)) as [Ey|Ey]; cbn [orb];
  destruct (Z.gtb_spec (block_x * _tile_width self + d0) (_width self)) as [Ox|Ox];
  destruct (Z.gtb_spec (block_y * _tile_height self + d1) (_height self)) as [Oy|Oy];
  destruct (Z.eqb_spec d0 (_tile_width self)) as [S0|S0];
  destruct (Z.eqb_spec d1 (_tile_height self)) as [S1|S1];
  cbn [orb negb]; rewrite ?bind_Ok_l, ?bind_Raise_l;
  destruct (Z.leb_spec 1 (band + 1)) as [B1|B1];
  destruct (Z.leb_spec (band + 1) (out_count h)) as [B2|B2]; cbn [andb negb];
  (repeat split; intros;
   try lia; try discriminate; try tauto; try congruence;
   try (match goal with H : Ok _ = Ok _ |- _ => injection H as <- end;
        unfold writes, get_size, get_tile_size; cbn; rewrite ?Hh; done);
   try (exfalso;
        match goal with
        | H : ~ _ -> ~ _ <> _ |- _ => apply H; [tauto | congruence]
        end);
   eauto).
Qed.

Lemma write_block_correct_witness :
  write_block Sample.writer (Sample.block 4 4) 3 0 0 = Raise InvalidTileIndexError
  /\ (write_block Sample.writer (Sample.block 4 4) 2 2 0 = Raise TileOverflowError
      <-> 2 * 4 + 4 > 10 \/ 2 * 4 + 4 > 10)
  /\ (write_block Sample.writer (Sample.block 3 3) 0 0 0 = Raise TileShapeMismatchError
      <-> (3, 3) <> (4, 4))
  /\ exists self', write_block Sample.writer (Sample.block 2 2) 2 2 0 = Ok self'.
Proof.
  assert (Hh : _handle Sample.writer = _handle Sample.writer) by reflexivity.
  assert (Hnt : get_num_tiles Sample.writer = Ok (3, 3)) by reflexivity.
  split; [| split; [| split]].
  - apply (write_block_correct Sample.writer _ (Sample.block 4 4) 3 0 0 3 3 Hh Hnt).
    lia.
  - apply (write_block_correct Sample.writer _ (Sample.block 4 4) 2 2 0 3 3 Hh Hnt);
      cbn; lia.
  - apply (write_block_correct Sample.writer _ (Sample.block 3 3) 0 0 0 3 3 Hh Hnt);
      cbn; lia.
  - apply (write_block_correct Sample.writer _ (Sample.block 2 2) 2 2 0 3 3 Hh Hnt);
      cbn; try lia; intros H; exfalso; lia.
Defined.

(** C4 does not hold as stated: an output of width 200 and height 50 is
    created with the tiled layout although its height does not exceed the
    threshold. *)
Lemma init_tiled_not_both :
  exists self : t,
    init true 200 50 1 256 256 None = Ok self
    /\ is_tiled self = true
    /\ ~ (200 > MIN_SIZE_FOR_TILES /\ 50 > MIN_SIZE_FOR_TILES).
Proof.
  eexists. split; [reflexivity |]. split; [reflexivity |].
  unfold MIN_SIZE_FOR_TILES. lia.
Qed.

Lemma init_options_tiled (width height tile_width tile_height : Z) :
  TILED_YES ∈ init_options width height tile_width tile_height
  <-> width > MIN_SIZE_FOR_TILES \/ height > MIN_SIZE_FOR_TILES.
Proof.
  unfold init_options.
  destruct (Z.gtb_spec width MIN_SIZE_FOR_TILES) as [Hw|Hw];
  destruct (Z.gtb_spec height MIN_SIZE_FOR_TILES) as [Hh|Hh]; cbn [orb];
    rewrite ?elem_of_app, !elem_of_cons, !elem_of_nil;
    (split; [intros Hin | intros Hor]); try lia; try tauto;
    repeat (destruct Hin as [Hin|Hin]; try discriminate); done.
Qed.

(** C4, amended.  A writer that could be constructed has the tiled layout
    if and only if the width or the height exceeds the threshold of 100
    pixels; the option list always carries the block sizes and never a
    second layout option. *)
Theorem init_tiled_iff
    (width height num_bands tile_width tile_height : Z) (no_data_value : option Z) :
  MIN_SIZE_FOR_TILES = 100
  /\ exists self : t,
       init true width height num_bands tile_width tile_height no_data_value = Ok self
       /\ (is_tiled self = true <-> width > 100 \/ height > 100).
Proof.
  split; [reflexivity |]. eexists. split; [reflexivity |].
  unfold is_tiled; cbn [_handle out_options].
  rewrite bool_decide_eq_true. apply init_options_tiled.
Qed.

(** C8 does not hold as stated: on a closed writer a block index beyond the
    grid raises the invalid-index exception, not the closed-writer one. *)
Lemma write_block_closed_other_error :
  write_block (close Sample.writer).1 (Sample.block 4 4) 3 0 0
  = Raise InvalidTileIndexError
  /\ InvalidTileIndexError <> WriterClosedError.
Proof. split; [reflexivity | discriminate]. Qed.

Lemma close_handle (self : t) : _handle (close self).1 = None.
Proof. unfold close. destruct (_handle self) eqn:E; cbn; done. Qed.

Lemma close_geometry (self : t) :
  get_num_tiles (close self).1 = get_num_tiles self
  /\ _tile_width (close self).1 = _tile_width self
  /\ _tile_height (close self).1 = _tile_height self
  /\ _width (close self).1 = _width self
  /\ _height (close self).1 = _height self.
Proof. unfold close, get_num_tiles. destruct (_handle self); cbn; done. Qed.

(** A writer that holds no dataset writes nothing. *)
Lemma write_block_no_handle (self : t) (data : ndarray2) (block_x block_y band : Z) :
  _handle self = None ->
  exists e, write_block self data block_x block_y band = Raise e.
Proof.
  intros Hh. unfold write_block.
  destruct (get_num_tiles self) as [nt|e]; [| by eexists].
  rewrite bind_Ok_l.
  destruct (_ || _); [by eexists |].
  destruct (_ || _).
  - destruct (_ || _); [by eexists |]. rewrite bind_Ok_l, Hh. by eexists.
  - destruct (_ || _); [by eexists |]. rewrite bind_Ok_l, Hh. by eexists.
Qed.

(** C8, amended.  After [close()] the writer holds no dataset and closing
    again changes nothing; every later [write_block] raises, so no write
    reaches the output.  The checks of the tile index and of the shape come
    before the dataset is used: on the closed writer a call that fails one
    of them raises the exception of that check, under the conditions under
    which the open writer raises it, and a call raises the closed-writer
    exception exactly when it passes them all.  When the tile grid is not
    defined the call raises what [get_num_tiles] raises. *)
Theorem write_block_after_close
    (self : t) (data : ndarray2) (block_x block_y band : Z) :
  let c := (close self).1 in
  _handle c = None
  /\ close c = (c, None)
  /\ (exists e, write_block c data block_x block_y band = Raise e)
  /\ (forall e, get_num_tiles self = Raise e ->
                write_block c data block_x block_y band = Raise e)
  /\ (forall nx ny,
        get_num_tiles self = Ok (nx, ny) ->
        let is_edge := block_x = nx - 1 \/ block_y = ny - 1 in
        let overflow := block_x * _tile_width self + (shape2 data).1 > _width self
                        \/ block_y * _tile_height self + (shape2 data).2 > _height self in
        let mismatch := shape2 data <> (_tile_width self, _tile_height self) in
        (write_block c data block_x block_y band = Raise InvalidTileIndexError
         <-> block_x >= nx \/ block_y >= ny)
        /\ (block_x < nx -> block_y < ny -> is_edge ->
            (write_block c data block_x block_y band = Raise TileOverflowError
             <-> overflow))
        /\ (block_x < nx -> block_y < ny -> ~ is_edge ->
            (write_block c data block_x block_y band = Raise TileShapeMismatchError
             <-> mismatch))
        /\ (write_block c data block_x block_y band = Raise WriterClosedError
            <-> block_x < nx /\ block_y < ny
                /\ (is_edge -> ~ overflow) /\ (~ is_edge -> ~ mismatch))).
Proof.
  intros c.
  assert (Hc : _handle c = None) by apply close_handle.
  destruct (close_geometry self) as (Hnt & Htw & Hth & Hw & Hh). fold c in Hnt, Htw, Hth, Hw, Hh.
  split; [done |].
  split; [unfold close at 1; by rewrite Hc |].
  split; [by apply write_block_no_handle |].
  split.
  { intros e He. unfold write_block. by rewrite Hnt, He. }
  intros nx ny Hgrid is_edge overflow mismatch.
  unfold write_block. rewrite Hnt, Hgrid, bind_Ok_l, Hc, Htw, Hth, Hw, Hh.
  cbn [fst snd]. subst is_edge overflow mismatch.
  destruct (shape2 data) as [d0 d1] eqn:Hs. cbn [fst snd].
  destruct (Z.geb_spec block_x nx) as [Hx|Hx];
    [cbn [orb]; repeat split; intros; try lia; try discriminate; try tauto |].
  destruct (Z.geb_spec block_y ny) as [Hy|Hy];
    [cbn [orb]; repeat split; intros; try lia; try discriminate; try tauto |].
  cbn [orb].
  destruct (Z.eqb_spec block_x (nx - 1)) as [Ex|Ex];
  destruct (Z.eqb_spec block_y (ny - 1)) as [Ey|Ey]; cbn [orb];
  destruct (Z.gtb_spec (block_x * _tile_width self + d0) (_width self)) as [Ox|Ox];
  destruct (Z.gtb_spec (block_y * _tile_height self + d1) (_height self)) as [Oy|Oy];
  destruct (Z.eqb_spec d0 (_tile_width self)) as [S0|S0];
  destruct (Z.eqb_spec d1 (_tile_height self)) as [S1|S1];
  cbn [orb negb]; rewrite ?bind_Ok_l, ?bind_Raise_l;
  (repeat split; intros;
   try lia; try discriminate; try tauto; try congruence;
   try (exfalso;
        match goal with
        | H : _ /\ _ |- _ => destruct H as (_ & _ & He & Hi)
        end;
        first [ apply He; [tauto | lia] | apply Hi; [tauto | congruence] ])).
Qed.

Lemma write_block_after_close_witness :
  let c := (close Sample.writer).1 in
  (write_block c (Sample.block 4 4) 3 0 0 = Raise InvalidTileIndexError <-> 3 >= 3 \/ 0 >= 3)
  /\ (write_block c (Sample.block 4 4) 2 2 0 = Raise TileOverflowError
      <-> 2 * 4 + 4 > 10 \/ 2 * 4 + 4 > 10)
  /\ (write_block c (Sample.block 3 3) 0 0 0 = Raise TileShapeMismatchError
      <-> (3, 3) <> (4, 4))
  /\ (write_block c (Sample.block 4 4) 0 0 0 = Raise WriterClosedError
      <-> 0 < 3 /\ 0 < 3
          /\ (0 = 3 - 1 \/ 0 = 3 - 1 -> ~ (0 * 4 + 4 > 10 \/ 0 * 4 + 4 > 10))
          /\ (~ (0 = 3 - 1 \/ 0 = 3 - 1) -> ~ (4, 4) <> (4, 4))).
Proof.
  intros c.
  assert (Hnt : get_num_tiles Sample.writer = Ok (3, 3)) by reflexivity.
  split; [| split; [| split]].
  - destruct (write_block_after_close Sample.writer (Sample.block 4 4) 3 0 0)
      as (_ & _ & _ & _ & H).
    destruct (H 3 3 Hnt) as (Hindex & _). exact Hindex.
  - destruct (write_block_after_close Sample.writer (Sample.block 4 4) 2 2 0)
      as (_ & _ & _ & _ & H).
    destruct (H 3 3 Hnt) as (_ & Hedge & _). apply Hedge; cbn; lia.
  - destruct (write_block_after_close Sample.writer (Sample.block 3 3) 0 0 0)
      as (_ & _ & _ & _ & H).
    destruct (H 3 3 Hnt) as (_ & _ & Hinner & _). apply Hinner; cbn; lia.
  - destruct (write_block_after_close Sample.writer (Sample.block 4 4) 0 0 0)
      as (_ & _ & _ & _ & H).
    destruct (H 3 3 Hnt) as (_ & _ & _ & Hclosed). exact Hclosed.
Defined.

End Writer.

(** ** The scheduler: running the model *)

Section Run.

Import Rectangle.
Import TiffImage.

Context {U : Type}.

Lemma run_bind {A B} (m : M U A) (k : A -> M U B) (w : world U) :
  (m ≫= k) w = match m w with
               | (Returns a, w') => k a w'
               | (Raises e, w') => (Raises e, w')
               | (Diverges, w') => (Diverges, w')
               end.
Proof. reflexivity. Qed.

Lemma run_lift_Ok {A B} (a : A) (k : A -> M U B) (w : world U) :
  (lift (Ok a) ≫= k) w = k a w.
Proof. reflexivity. Qed.

Lemma run_lift_Raise {A B} (e : exn) (k : A -> M U B) (w : world U) :
  (lift (Raise e) ≫= k) w = (Raises e, w).
Proof. reflexivity. Qed.

Lemma run_load {B} (l : positive) (v : list Rect) (k : list Rect -> M U B) (w : world U) :
  lists w !! l = Some v -> (load l ≫= k) w = k v w.
Proof. intros H. rewrite run_bind. unfold load. by rewrite H. Qed.

Lemma world_eta (w : world U) : World (lists w) (trace w) (user w) = w.
Proof. by destruct w. Qed.

Lemma py_index_nat {A} (l : list A) (i : nat) (a : A) :
  l !! i = Some a -> py_index l (Z.of_nat i) = Ok a.
Proof.
  intros H. pose proof (lookup_lt_Some _ _ _ H) as Hlt.
  unfold py_index.
  destruct (Z.ltb_spec (Z.of_nat i) 0); [lia |].
  destruct (Z.leb_spec 0 (Z.of_nat i)); [| lia].
  destruct (Z.ltb_spec (Z.of_nat i) (Z.of_nat (length l))); [| lia].
  cbn [andb]. by rewrite Nat2Z.id, H.
Qed.

(** The inner loop keeps, in order, the ROIs the aligned region does not
    contain and collects, in order, the ones it contains. *)
Lemma collect_rois_run (read_roi : Rect) (block_rois : positive) (fuel : nat) :
  forall (index : nat) (applicable_rois l : list Rect) (w : world U),
    lists w !! block_rois = Some l ->
    (index <= length l)%nat ->
    (length l - index < fuel)%nat ->
    collect_rois fuel read_roi block_rois index applicable_rois w
    = (Returns (applicable_rois
                ++ filter (fun r => contains_rect read_roi r = true) (drop index l)),
       World (<[block_rois :=
                  take index l
                  ++ filter (fun r => ~ contains_rect read_roi r = true) (drop index l)]>
                (lists w))
             (trace w) (user w)).
Proof.
  induction fuel as [|fuel IH]; intros index app l w Hl Hi Hf; [lia |].
  cbn [collect_rois]. rewrite (run_load _ _ _ _ Hl).
  case_bool_decide as Hlt.
  - destruct (lookup_lt_is_Some_2 l index Hlt) as [r Hr].
    rewrite (py_index_nat _ _ _ Hr), run_lift_Ok.
    rewrite (drop_S _ _ _ Hr).
    destruct (contains_rect read_roi r) eqn:Hc; cbn [negb].
    + rewrite run_bind. unfold store at 1.
      rewrite (IH index (app ++ [r]) (delete index l)).
      * cbn [lists trace user]. rewrite insert_insert_eq.
        rewrite filter_cons_True by done.
        rewrite filter_cons_False by (intros H; by apply H).
        rewrite delete_take_drop.
        rewrite take_app_le by (rewrite length_take; lia).
        rewrite take_take, Nat.min_id.
        rewrite drop_app_length' by (rewrite length_take; lia).
        by rewrite <- app_assoc.
      * cbn [lists]. by rewrite lookup_insert_eq.
      * rewrite length_delete by eauto. lia.
      * rewrite length_delete by eauto. lia.
    + rewrite (IH (S index) app l w Hl) by lia.
      rewrite filter_cons_False by (rewrite Hc; done).
      rewrite filter_cons_True by (rewrite Hc; done).
      rewrite (take_S_r _ _ _ Hr), <- app_assoc. reflexivity.
  - cbn. rewrite drop_ge, take_ge by lia.
    rewrite !filter_nil, !app_nil_r.
    rewrite insert_id by done. by rewrite world_eta.
Qed.

Section Grouping.

Variables (self : TiffImage.t) (bounds : Rect) (bsx bsy : Z) (nb : Z * Z).
Hypothesis Hbounds : whole_bounds self = Ok bounds.
Hypothesis Hblocks : block_info self 0 = Ok ((bsx, bsy), nb).
Hypothesis Hbsx : 0 < bsx.
Hypothesis Hbsy : 0 < bsy.

Lemma read_roi_of_first (first : Rect) :
  contains_rect bounds first = true ->
  exists read_roi,
    get_block_aligned_read_roi self first = Ok read_roi
    /\ contains_rect read_roi first = true
    /\ contains_rect bounds read_roi = true.
Proof.
  intros Hc.
  destruct (whole_bounds_shape _ _ Hbounds) as [H0x H0y].
  eexists. split; [by eapply get_block_aligned_read_roi_formula |].
  split; [apply intersection_contains; auto using aligned_contains |].
  by apply clipped_within.
Qed.

(** The outer loop empties the list and returns one job per group; the
    groups together hold the ROIs of the list, each once. *)
Lemma group_rois_run (block_rois : positive) (fuel : nat) :
  forall (l : list Rect) (jobs : list job) (w : world U),
    lists w !! block_rois = Some l ->
    Forall (fun r => contains_rect bounds r = true) l ->
    (length l < fuel)%nat ->
    exists js : list job,
      group_rois fuel self block_rois jobs w
      = (Returns (jobs ++ js),
         World (<[block_rois := []]> (lists w))
               (trace w ++ (Submit <$> ((fun j : job => j.1.2) <$> js)))
               (user w))
      /\ js ≫= (fun j : job => j.2) ≡ₚ l
      /\ Forall (Spec.job_of_group self) js.
Proof.
  induction fuel as [|fuel IH]; intros l jobs w Hl Hin Hf; [lia |].
  cbn [group_rois]. rewrite (run_load _ _ _ _ Hl).
  case_bool_decide as Hnil.
  - subst l. exists []. split; [| split; [done | constructor]].
    cbn. rewrite !app_nil_r, insert_id by done. by rewrite world_eta.
  - destruct l as [|first rest]; [done |].
    assert (Hfirst : contains_rect bounds first = true)
      by (by apply Forall_cons in Hin as [? _]).
    destruct (read_roi_of_first first Hfirst) as (read_roi & Hrr & Hcf & Hcb).
    change (py_index (first :: rest) 0) with (Ok first : result Rect).
    rewrite run_lift_Ok, Hrr, run_lift_Ok.
    rewrite run_bind.
    rewrite (collect_rois_run read_roi block_rois _ 0 [] (first :: rest) w Hl)
      by (cbn; lia).
    rewrite drop_0. cbn [take app].
    set (app := filter (fun r => contains_rect read_roi r = true) (first :: rest)).
    set (l' := filter (fun r => ~ contains_rect read_roi r = true) (first :: rest)).
    rewrite run_bind. unfold emit at 1. cbn [lists trace user].
    set (j := (read self read_roi None None, read_roi, app)).
    destruct (IH l' (jobs ++ [j])
                (World (<[block_rois := l']> (lists w)) (trace w ++ [Submit read_roi])
                       (user w)))
      as (js & Hrun & Hperm & Hjobs).
    + cbn [lists]. by rewrite lookup_insert_eq.
    + subst l'. apply Forall_forall. intros r Hr.
      apply list_elem_of_filter in Hr as [_ Hr].
      by eapply Forall_forall in Hin.
    + assert (length l' < length (first :: rest))%nat; [| lia].
      subst l'. apply length_filter_lt with (x := first); [by left |].
      intros H. by apply H.
    + exists (j :: js). split; [| split].
      * rewrite Hrun. cbn [lists trace user].
        rewrite insert_insert_eq, <- !app_assoc. reflexivity.
      * cbn [mbind list_bind]. change (j.2) with app. rewrite Hperm.
        subst app l'. apply filter_app_complement.
      * constructor; [| done].
        split; [done |]. split.
        -- exists first. split; [| done].
           subst j. cbn [fst snd]. subst app.
           apply list_elem_of_filter. split; [done | by left].
        -- subst j. cbn [fst snd]. subst app. apply Forall_forall. intros r Hr.
           by apply list_elem_of_filter in Hr as [Hr _].
Qed.

End Grouping.

Section Delivery.

Variable callback_function : Rect -> ndarray3 -> U -> result U.
Variables (show_progress : bool) (total_rois : Z).

Lemma apply_calls_app (c1 c2 : list (Rect * ndarray3)) (u : U) :
  Spec.apply_calls callback_function (c1 ++ c2) u
  = Spec.apply_calls callback_function c1 u ≫= Spec.apply_calls callback_function c2.
Proof.
  revert u. induction c1 as [|[roi data] c1 IH]; intros u; [done |].
  cbn [app Spec.apply_calls].
  destruct (callback_function roi data u) as [u1|e]; [| done].
  rewrite !bind_Ok_l. apply IH.
Qed.

Lemma apply_calls_total (calls : list (Rect * ndarray3)) (u : U) :
  (forall roi data u0, exists u1, callback_function roi data u0 = Ok u1) ->
  exists u', Spec.apply_calls callback_function calls u = Ok u'.
Proof.
  intros Hcb. revert u. induction calls as [|[roi data] calls IH]; intros u.
  - by exists u.
  - cbn [Spec.apply_calls]. destruct (Hcb roi data u) as [u1 ->].
    rewrite bind_Ok_l. apply IH.
Qed.

Lemma callbacks_app (t1 t2 : list event) :
  callbacks (t1 ++ t2) = callbacks t1 ++ callbacks t2.
Proof. apply omap_app. Qed.

Lemma submits_app (t1 t2 : list event) :
  submits (t1 ++ t2) = submits t1 ++ submits t2.
Proof. apply omap_app. Qed.

Lemma callbacks_Submit (rs : list Rect) : callbacks (Submit <$> rs) = [].
Proof. induction rs; [done | by cbn]. Qed.

Lemma submits_Submit (rs : list Rect) : submits (Submit <$> rs) = rs.
Proof. induction rs as [|r rs IH]; [done |]. cbn. by f_equal. Qed.

(** The delivery of one job whose read has returned: one call per ROI of
    the group, in order, each with its part of the buffer. *)
Lemma deliver_rois_run (buf : ndarray3) (read_roi : Rect) (rois : list Rect) :
  forall (num_remaining : Z) (w : world U) (u' : U),
    Spec.apply_calls callback_function (Spec.delivered (Ok buf, read_roi, rois)) (user w)
    = Ok u' ->
    exists (tr : list event) (n' : Z),
      deliver_rois callback_function show_progress total_rois buf read_roi rois
                   num_remaining w
      = (Returns n', World (lists w) (trace w ++ tr) u')
      /\ callbacks tr = Spec.delivered (Ok buf, read_roi, rois)
      /\ submits tr = [].
Proof.
  induction rois as [|roi rois IH]; intros n w u' Hu.
  - injection Hu as <-. exists [], n. cbn. by rewrite app_nil_r, world_eta.
  - cbn [Spec.delivered fmap list_fmap Spec.apply_calls] in Hu.
    apply bind_Ok in Hu as (u1 & Hcall & Hu).
    cbn [deliver_rois]. rewrite run_bind. unfold call at 1.
    fold (Spec.sub_buffer buf read_roi roi). rewrite Hcall.
    set (w1 := World (lists w) (trace w ++ [Callback roi (Spec.sub_buffer buf read_roi roi)]) u1).
    destruct show_progress eqn:Hsp.
    + rewrite run_bind. unfold emit at 1.
      set (ev := Progress _ _).
      destruct (IH (n - 1) (World (lists w1) (trace w1 ++ [ev]) (user w1)) u' Hu)
        as (tr & n' & Hrun & Hcbs & Hsub).
      exists ([Callback roi (Spec.sub_buffer buf read_roi roi); ev] ++ tr), n'.
      split; [| split].
      * rewrite Hrun. subst w1. cbn [lists trace user].
        by rewrite <- !app_assoc.
      * rewrite callbacks_app, Hcbs. reflexivity.
      * rewrite submits_app, Hsub. reflexivity.
    + rewrite run_bind. change ((mret tt : M U unit) w1) with (Returns tt, w1).
      destruct (IH (n - 1) w1 u' Hu) as (tr & n' & Hrun & Hcbs & Hsub).
      exists ([Callback roi (Spec.sub_buffer buf read_roi roi)] ++ tr), n'.
      split; [| split].
      * rewrite Hrun. subst w1. cbn [lists trace user].
        by rewrite <- !app_assoc.
      * rewrite callbacks_app, Hcbs. reflexivity.
      * rewrite submits_app, Hsub. reflexivity.
Qed.

(** The delivery of the jobs up to the first whose read failed. *)
Lemma deliver_jobs_run (js rest : list job) :
  forall (num_remaining : Z) (w : world U) (u' : U),
    Forall (fun j : job => exists buf, j.1.1 = Ok buf) js ->
    Spec.apply_calls callback_function (js ≫= Spec.delivered) (user w) = Ok u' ->
    exists (tr : list event) (n' : Z),
      deliver_jobs callback_function show_progress total_rois (js ++ rest)
                   num_remaining w
      = deliver_jobs callback_function show_progress total_rois rest n'
                     (World (lists w) (trace w ++ tr) u')
      /\ callbacks tr = js ≫= Spec.delivered
      /\ submits tr = [].
Proof.
  induction js as [|[[b read_roi] rois] js IH]; intros n w u' Hok Hu.
  - injection Hu as <-. exists [], n. cbn. by rewrite app_nil_r, world_eta.
  - apply Forall_cons in Hok as [[buf Hbuf] Hok]. cbn [fst snd] in Hbuf. subst b.
    cbn [mbind list_bind] in Hu. rewrite apply_calls_app in Hu.
    apply bind_Ok in Hu as (u1 & Hu1 & Hu).
    cbn [app deliver_jobs]. rewrite run_lift_Ok, run_bind.
    destruct (deliver_rois_run buf read_roi rois n w u1 Hu1)
      as (tr1 & n1 & Hrun1 & Hcbs1 & Hsub1).
    rewrite Hrun1.
    destruct (IH n1 (World (lists w) (trace w ++ tr1) u1) u' Hok Hu)
      as (tr2 & n2 & Hrun2 & Hcbs2 & Hsub2).
    exists (tr1 ++ tr2), n2. split; [| split].
    + rewrite Hrun2. cbn [lists trace user]. by rewrite <- app_assoc.
    + rewrite callbacks_app, Hcbs1, Hcbs2. reflexivity.
    + rewrite submits_app, Hsub1, Hsub2. reflexivity.
Qed.

End Delivery.

Section Process.

Variables (self : TiffImage.t) (bounds : Rect).
Hypothesis Hbounds : whole_bounds self = Ok bounds.

Variable callback_function : Rect -> ndarray3 -> U -> result U.
Variable show_progress : bool.

Lemma check_rois_Ok (l : list Rect) :
  Forall (fun r => contains_rect bounds r = true) l -> check_rois bounds l = Ok tt.
Proof.
  induction 1 as [|r l Hr _ IH]; [done |]. cbn [check_rois]. by rewrite Hr.
Qed.

Lemma check_rois_Raise (l : list Rect) :
  Exists (fun r => contains_rect bounds r = false) l ->
  check_rois bounds l = Raise RegionOutOfBoundsError.
Proof.
  induction 1 as [r l Hr | r l _ IH]; cbn [check_rois].
  - by rewrite Hr.
  - destruct (contains_rect bounds r); [done | done].
Qed.

(** The copy of the list is a new object. *)
Lemma fresh_ne (w : world U) (requested_rois : positive) (l : list Rect) :
  lists w !! requested_rois = Some l -> fresh (dom (lists w)) <> requested_rois.
Proof.
  intros Hl Heq. apply (is_fresh (dom (lists w))).
  rewrite Heq. by eapply elem_of_dom_2.
Qed.

(** With a ROI outside the bounds, [process_rois] raises right after copying
    the list. *)
Lemma process_rois_outside_run (fuel : nat) (requested_rois : positive)
    (l : list Rect) (w : world U) :
  lists w !! requested_rois = Some l ->
  Exists (fun r => contains_rect bounds r = false) l ->
  process_rois fuel self requested_rois callback_function show_progress w
  = (Raises RegionOutOfBoundsError,
     World (<[fresh (dom (lists w)) := l]> (lists w)) (trace w) (user w)).
Proof.
  intros Hl Hout. unfold process_rois.
  rewrite (whole_bounds_open _ _ Hbounds), run_lift_Ok.
  rewrite (run_load _ _ _ _ Hl).
  rewrite run_bind. unfold alloc at 1.
  rewrite Hbounds, run_lift_Ok.
  rewrite (run_load _ l).
  - by rewrite (check_rois_Raise _ Hout), run_lift_Raise.
  - cbn [lists]. rewrite lookup_insert_ne; [done | by eapply fresh_ne].
Qed.

Variables (bsx bsy : Z) (nb : Z * Z).
Hypothesis Hblocks : block_info self 0 = Ok ((bsx, bsy), nb).
Hypothesis Hbsx : 0 < bsx.
Hypothesis Hbsy : 0 < bsy.

(** With every ROI within the bounds, [process_rois] submits the read of
    every group and then starts the delivery of the jobs. *)
Lemma process_rois_grouped (fuel : nat) (requested_rois : positive)
    (l : list Rect) (w : world U) :
  lists w !! requested_rois = Some l ->
  Forall (fun r => contains_rect bounds r = true) l ->
  (length l < fuel)%nat ->
  exists js : list job,
    js ≫= (fun j : job => j.2) ≡ₚ l
    /\ Forall (Spec.job_of_group self) js
    /\ process_rois fuel self requested_rois callback_function show_progress w
       = (deliver_jobs callback_function show_progress (Z.of_nat (length l)) js
                       (Z.of_nat (length l))
          ≫= fun _ => if show_progress then emit Newline else mret tt)
           (World (<[fresh (dom (lists w)) := []]> (lists w))
                  (trace w ++ (Submit <$> ((fun j : job => j.1.2) <$> js)))
                  (user w)).
Proof.
  intros Hl Hin Hf.
  set (br := fresh (dom (lists w))).
  set (w1 := World (<[br := l]> (lists w)) (trace w) (user w)).
  assert (Hbr : lists w1 !! br = Some l) by (cbn; by rewrite lookup_insert_eq).
  destruct (group_rois_run self bounds bsx bsy nb Hbounds Hblocks Hbsx Hbsy
              br fuel l [] w1 Hbr Hin Hf) as (js & Hrun & Hperm & Hjobs).
  exists js. split; [done |]. split; [done |].
  unfold process_rois.
  rewrite (whole_bounds_open _ _ Hbounds), run_lift_Ok.
  rewrite (run_load _ _ _ _ Hl).
  rewrite run_bind. unfold alloc at 1. fold br. fold w1.
  rewrite Hbounds, run_lift_Ok.
  rewrite (run_load _ l)
    by (cbn [lists w1]; rewrite lookup_insert_ne; [done | by eapply fresh_ne]).
  rewrite (check_rois_Ok _ Hin), run_lift_Ok.
  rewrite (run_load _ _ _ _ Hbr).
  rewrite run_bind, Hrun. cbn [app lists trace user w1].
  by rewrite insert_insert_eq.
Qed.

End Process.

End Run.

(** ** The band reader *)

Section Reader.

Import Rectangle.
Import TiffImage.

Lemma _read_bands_shape (self : TiffImage.t) (roi : Rect) (bands : list Z) :
  forall (i : Z) (buf buf' : ndarray3),
    _read_bands self roi i bands buf = Ok buf' -> shape3 buf' = shape3 buf.
Proof.
  induction bands as [|b bands IH]; intros i buf buf' H; cbn [_read_bands] in H.
  - by injection H as <-.
  - apply bind_Ok in H as (band & _ & H). apply bind_Ok in H as (p & _ & H).
    destruct (negb _); [discriminate |].
    destruct (ReadAsArray _ _ _ _ _) as [arr|]; [| discriminate].
    by apply IH in H.
Qed.

Lemma np_zeros_Ok (a b c : Z) (buf : ndarray3) :
  np_zeros a b c = Ok buf -> shape3 buf = (a, b, c) /\ 0 <= a /\ 0 <= b /\ 0 <= c.
Proof.
  unfold np_zeros.
  destruct (Z.ltb_spec a 0), (Z.ltb_spec b 0), (Z.ltb_spec c 0); cbn [orb];
    try discriminate.
  intros Hz. injection Hz as <-. cbn. by repeat split.
Qed.

(** Without a buffer of the caller, [_read] returns an array whose first
    axis is the width of the region, whose second axis is its height and
    whose third axis has one plane per band of the image. *)
Lemma _read_shape (self : TiffImage.t) (roi : Rect) (bands : list Z) (n : Z)
    (out : ndarray3) :
  num_bands self = Ok n ->
  _read self roi bands None = Ok out ->
  shape3 out = (Rectangle.width roi, Rectangle.height roi, n).
Proof.
  intros Hn H. unfold _read in H.
  apply bind_Ok in H as (? & _ & H). rewrite Hn, bind_Ok_l in H.
  apply bind_Ok in H as (buf0 & H0 & H). apply bind_Ok in H as (buf1 & H1 & H).
  injection H as <-.
  apply bind_Ok in H0 as (dtype & _ & H0).
  apply np_zeros_Ok in H0 as [H0 _]. apply _read_bands_shape in H1.
  unfold np_transpose_120. rewrite H1, H0. reflexivity.
Qed.

Lemma read_shape (self : TiffImage.t) (roi : Rect) (bands : option (list Z)) (n : Z)
    (out : ndarray3) :
  num_bands self = Ok n ->
  read self roi bands None = Ok out ->
  shape3 out = (Rectangle.width roi, Rectangle.height roi, n).
Proof.
  intros Hn H. unfold read in H.
  apply bind_Ok in H as (bounds & _ & H).
  destruct (negb _); [discriminate |].
  apply bind_Ok in H as (bs & _ & H). by eapply _read_shape.
Qed.

Lemma slice_adjust_inside (n start len : Z) :
  0 <= start -> 0 <= len -> start + len <= n ->
  slice_adjust n start (start + len) = (start, len).
Proof.
  intros H0 Hl Hn. unfold slice_adjust.
  destruct (Z.ltb_spec start 0); [lia |].
  destruct (Z.ltb_spec (start + len) 0); [lia |].
  f_equal; lia.
Qed.

(** The part of the buffer handed over for a ROI of the group has the width
    and the height of the ROI on its first two axes. *)
Lemma sub_buffer_shape (buf : ndarray3) (read_roi roi : Rect) (n : Z) :
  shape3 buf = (Rectangle.width read_roi, Rectangle.height read_roi, n) ->
  contains_rect read_roi roi = true ->
  wf roi ->
  shape3 (Spec.sub_buffer buf read_roi roi)
  = (Rectangle.width roi, Rectangle.height roi, n).
Proof.
  intros Hs Hc [Hwx Hwy].
  apply contains_rect_spec in Hc as (H1 & H2 & H3 & H4).
  unfold Spec.sub_buffer, slice3. rewrite Hs.
  unfold Rectangle.width, Rectangle.height in *.
  rewrite !slice_adjust_inside by lia. reflexivity.
Qed.

(** It holds the items of the buffer from the offset
    [roi.min - read_roi.min] on. *)
Lemma sub_buffer_item (buf : ndarray3) (read_roi roi : Rect) (n i j k : Z) :
  shape3 buf = (Rectangle.width read_roi, Rectangle.height read_roi, n) ->
  contains_rect read_roi roi = true ->
  wf roi ->
  item3 (Spec.sub_buffer buf read_roi roi) i j k
  = item3 buf (min_x roi - min_x read_roi + i) (min_y roi - min_y read_roi + j) k.
Proof.
  intros Hs Hc [Hwx Hwy].
  apply contains_rect_spec in Hc as (H1 & H2 & H3 & H4).
  unfold Spec.sub_buffer, slice3. rewrite Hs.
  unfold Rectangle.width, Rectangle.height in *.
  rewrite !slice_adjust_inside by lia. reflexivity.
Qed.

(** The loop over the bands goes through when every band resolves, its
    window read succeeds and the buffer has a plane of the shape of the
    region for it. *)
Lemma _read_bands_Ok (self : TiffImage.t) (roi : Rect) (bands : list Z) :
  forall (i n0 : Z) (buf : ndarray3),
    shape3 buf = (n0, Rectangle.width roi, Rectangle.height roi) ->
    0 <= i -> i + Z.of_nat (length bands) <= n0 ->
    Forall (fun b => exists band arr,
                _gdal_band self b = Ok band
                /\ ReadAsArray band (min_y roi) (min_x roi)
                     (Rectangle.height roi) (Rectangle.width roi) = Some arr) bands ->
    exists buf', _read_bands self roi i bands buf = Ok buf'.
Proof.
  induction bands as [|b bands IH]; intros i n0 buf Hs Hi Hn Hb; cbn [_read_bands].
  - by eexists.
  - apply Forall_cons in Hb as [(band & arr & Hband & Harr) Hb].
    rewrite Hband, bind_Ok_l. unfold plane. rewrite Hs.
    cbn [length] in Hn.
    destruct (Z.leb_spec 0 i); [| lia]. destruct (Z.ltb_spec i n0); [| lia].
    cbn [andb]. rewrite bind_Ok_l. cbn [shape2].
    rewrite bool_decide_eq_true_2 by done. cbn [negb]. rewrite Harr.
    apply (IH (i + 1) n0); [done | lia | lia | done].
Qed.

(** A plane of the wrong shape stops the loop at its first band. *)
Lemma _read_bands_mismatch (self : TiffImage.t) (roi : Rect) (b : Z) (rest : list Z)
    (band : Band) (buf : ndarray3) (n0 n1 n2 : Z) :
  _gdal_band self b = Ok band ->
  shape3 buf = (n0, n1, n2) -> 0 < n0 ->
  (n1, n2) <> (Rectangle.width roi, Rectangle.height roi) ->
  _read_bands self roi 0 (b :: rest) buf = Raise BufferShapeError.
Proof.
  intros Hband Hs Hn Hne. cbn [_read_bands].
  rewrite Hband, bind_Ok_l. unfold plane. rewrite Hs.
  destruct (Z.ltb_spec 0 n0); [| lia]. change (0 <=? 0) with true.
  cbn [andb]. rewrite bind_Ok_l.
  cbn [shape2]. by rewrite bool_decide_eq_false_2.
Qed.

(** The loop leaves the planes before [i] as they are. *)
Lemma _read_bands_below (self : TiffImage.t) (roi : Rect) (bands : list Z) :
  forall (i : Z) (buf buf' : ndarray3),
    _read_bands self roi i bands buf = Ok buf' ->
    forall j x y, j < i -> item3 buf' j x y = item3 buf j x y.
Proof.
  induction bands as [|b bands IH]; intros i buf buf' H j x y Hj;
    cbn [_read_bands] in H.
  - by injection H as <-.
  - apply bind_Ok in H as (band & _ & H). apply bind_Ok in H as (p & _ & H).
    destruct (negb _); [discriminate |].
    destruct (ReadAsArray _ _ _ _ _) as [arr|]; [| discriminate].
    rewrite (IH _ _ _ H j x y) by lia. cbn [set_plane item3].
    destruct (Z.eqb_spec j i); [lia | done].
Qed.

(** After the loop the plane of the [k]-th listed band holds what the
    backend read for that band in the window of the region. *)
Lemma _read_bands_items (self : TiffImage.t) (roi : Rect) (bands : list Z) :
  forall (i : Z) (buf buf' : ndarray3),
    _read_bands self roi i bands buf = Ok buf' ->
    forall (k : nat) (b : Z),
      bands !! k = Some b ->
      exists band arr,
        _gdal_band self b = Ok band
        /\ ReadAsArray band (min_y roi) (min_x roi)
             (Rectangle.height roi) (Rectangle.width roi) = Some arr
        /\ forall x y, item3 buf' (i + Z.of_nat k) x y = arr x y.
Proof.
  induction bands as [|b0 bands IH]; intros i buf buf' H k b Hk; [done |].
  cbn [_read_bands] in H.
  apply bind_Ok in H as (band & Hband & H). apply bind_Ok in H as (p & _ & H).
  destruct (negb _); [discriminate |].
  destruct (ReadAsArray _ _ _ _ _) as [arr|] eqn:Harr; [| discriminate].
  destruct k as [|k].
  - injection Hk as <-. exists band, arr. split; [done |]. split; [done |].
    intros x y. rewrite (_read_bands_below _ _ _ _ _ _ H) by lia.
    cbn [set_plane item3]. destruct (Z.eqb_spec (i + Z.of_nat 0) i); [done | lia].
  - destruct (IH _ _ _ H k b Hk) as (band' & arr' & Hb' & Ha' & Hitems).
    exists band', arr'. split; [done |]. split; [done |].
    intros x y. rewrite <- Hitems. f_equal. lia.
Qed.

(** C7 does not hold as stated: the first axis of the buffer is the width
    of the region and the second its height; without a buffer of the caller
    the third axis has one plane per band of the image, whatever the band
    list; and with an empty band list a buffer of the wrong spatial shape is
    accepted. *)
Lemma read_shape_not_as_stated :
  let region := Rectangle.mk 0 0 30 20 in
  shape3 <$> read Sample.rgb_image region (Some [0; 1; 2]) None = Ok (30, 20, 3)
  /\ (30, 20, 3) <> (Rectangle.height region, Rectangle.width region, 3)
  /\ shape3 <$> read Sample.rgb_image region (Some [0]) None = Ok (30, 20, 3)
  /\ (30, 20, 3) <> (Rectangle.height region, Rectangle.width region,
                     Z.of_nat (length [0]))
  /\ shape3 <$> read Sample.rgb_image region (Some []) (Some (Sample.buffer 3 5 5))
     = Ok (5, 5, 3).
Proof. vm_compute. repeat split; discriminate. Qed.

(** C7, amended.  On an open image, [read] raises the out-of-bounds
    exception for a region that is not contained in the full extent.  For a
    well-formed region within the extent and a band list that names as many
    bands as the image has, each of which resolves and has its window read
    by the backend, [read] without a buffer of the caller returns a buffer of
    shape [(width, height, len(bands))] when [numpy_type()] finds the type
    of band 0, and raises what [numpy_type()] raises when it does not (on an
    image without bands, [IndexError]).  With a band list whose first band
    resolves, a buffer of the caller (bands first, at least one plane) whose
    spatial shape differs from [(width, height)] of the region raises the
    buffer-shape exception. *)
Theorem read_correct
    (self : TiffImage.t) (bounds region : Rect) (n : Z) (bands : list Z) :
  whole_bounds self = Ok bounds ->
  num_bands self = Ok n ->
  (contains_rect bounds region = false ->
   forall buf, read self region (Some bands) buf = Raise OutOfBoundsError)
  /\ (contains_rect bounds region = true ->
      wf region ->
      Z.of_nat (length bands) = n ->
      (exists dtype, numpy_type self 0 = Ok dtype) ->
      Forall (fun b => exists band arr,
                  _gdal_band self b = Ok band
                  /\ ReadAsArray band (min_y region) (min_x region)
                       (Rectangle.height region) (Rectangle.width region) = Some arr)
             bands ->
      exists out,
        read self region (Some bands) None = Ok out
        /\ shape3 out = (Rectangle.width region, Rectangle.height region,
                         Z.of_nat (length bands)))
  /\ (contains_rect bounds region = true ->
      forall (buf : ndarray3) (b : Z) (rest : list Z) (band : Band) (n0 n1 n2 : Z),
        bands = b :: rest ->
        _gdal_band self b = Ok band ->
        shape3 buf = (n0, n1, n2) -> 0 < n0 ->
        (n1, n2) <> (Rectangle.width region, Rectangle.height region) ->
        read self region (Some bands) (Some buf) = Raise BufferShapeError)
  /\ (contains_rect bounds region = true ->
      forall e, numpy_type self 0 = Raise e ->
                read self region (Some bands) None = Raise e).
Proof.
  intros Hb Hn. pose proof (whole_bounds_open _ _ Hb) as Hopen.
  split; [| split; [| split]].
  - intros Hc buf. unfold read. by rewrite Hb, bind_Ok_l, Hc.
  - intros Hc [Hwx Hwy] Hlen [dtype Hdtype] Hbands.
    assert (Hz : exists buf0, np_zeros n (Rectangle.width region) (Rectangle.height region)
                              = Ok buf0
                              /\ shape3 buf0 = (n, Rectangle.width region,
                                                Rectangle.height region)).
    { unfold np_zeros, Rectangle.width, Rectangle.height.
      destruct (Z.ltb_spec n 0); [lia |].
      destruct (Z.ltb_spec (max_x region - min_x region) 0); [lia |].
      destruct (Z.ltb_spec (max_y region - min_y region) 0); [lia |].
      by eexists. }
    destruct Hz as (buf0 & Hz & Hs0).
    destruct (_read_bands_Ok self region bands 0 n buf0 Hs0 ltac:(lia) ltac:(lia) Hbands)
      as [buf1 H1].
    assert (Hread : read self region (Some bands) None = Ok (np_transpose_120 buf1)).
    { unfold read. rewrite Hb, bind_Ok_l, Hc. cbn [negb]. rewrite bind_Ok_l.
      unfold _read.
      by rewrite Hopen, bind_Ok_l, Hn, bind_Ok_l, Hdtype, bind_Ok_l, Hz, bind_Ok_l, H1. }
    eexists. split; [exact Hread |].
    rewrite Hlen. by eapply read_shape.
  - intros Hc buf b rest band n0 n1 n2 -> Hband Hs Hn0 Hne.
    unfold read. rewrite Hb, bind_Ok_l, Hc. cbn [negb]. rewrite bind_Ok_l.
    unfold _read. rewrite Hopen, !bind_Ok_l.
    by rewrite (_read_bands_mismatch self region b rest band buf n0 n1 n2).
  - intros Hc e He. unfold read. rewrite Hb, bind_Ok_l, Hc. cbn [negb].
    rewrite bind_Ok_l. unfold _read. by rewrite Hopen, bind_Ok_l, Hn, bind_Ok_l, He.
Qed.

Lemma read_correct_witness :
  let region := Rectangle.mk 0 0 30 20 in
  read Sample.rgb_image (Rectangle.mk 0 50 30 70) (Some [0; 1; 2]) None
  = Raise OutOfBoundsError
  /\ (exists out,
        read Sample.rgb_image region (Some [0; 1; 2]) None = Ok out
        /\ shape3 out = (30, 20, 3))
  /\ read Sample.rgb_image region (Some [0; 1; 2]) (Some (Sample.buffer 3 20 30))
     = Raise BufferShapeError
  /\ read Sample.bandless_image region (Some []) None = Raise IndexError.
Proof.
  intros region.
  assert (Hb : whole_bounds Sample.rgb_image = Ok (Rectangle.mk 0 0 100 60))
    by reflexivity.
  assert (Hn : num_bands Sample.rgb_image = Ok 3) by reflexivity.
  split; [| split; [| split]].
  - destruct (read_correct Sample.rgb_image _ (Rectangle.mk 0 50 30 70) 3 [0; 1; 2]
                Hb Hn) as (Hout & _).
    apply Hout. reflexivity.
  - destruct (read_correct Sample.rgb_image _ region 3 [0; 1; 2] Hb Hn)
      as (_ & Hin & _).
    apply Hin.
    + reflexivity.
    + split; cbn; lia.
    + reflexivity.
    + by eexists.
    + repeat constructor; eexists _, _; split; reflexivity.
  - destruct (read_correct Sample.rgb_image _ region 3 [0; 1; 2] Hb Hn)
      as (_ & _ & Hshape & _).
    apply (Hshape eq_refl (Sample.buffer 3 20 30) 0 [1; 2] (Sample.band 16 16) 3 20 30);
      [reflexivity | reflexivity | reflexivity | lia | discriminate].
  - assert (Hb0 : whole_bounds Sample.bandless_image = Ok (Rectangle.mk 0 0 100 100))
      by reflexivity.
    assert (Hn0 : num_bands Sample.bandless_image = Ok 0) by reflexivity.
    destruct (read_correct Sample.bandless_image _ region 0 [] Hb0 Hn0)
      as (_ & _ & _ & Hdtype).
    apply (Hdtype eq_refl). reflexivity.
Defined.

End Reader.

(** ** The scheduler: frame *)

Section Frame.

Import Rectangle.
Import TiffImage.

Context {U X : Type}.
Variable f : world U -> X.

Lemma preserves_bind {A B} (m : M U A) (k : A -> M U B) :
  Spec.preserves f m -> (forall a, Spec.preserves f (k a)) -> Spec.preserves f (m ≫= k).
Proof.
  intros Hm Hk w w' o. rewrite run_bind.
  destruct (m w) as [[a|e|] w1] eqn:E; intros H.
  - rewrite (Hk a _ _ _ H). by eapply Hm.
  - injection H as <- <-. by eapply Hm.
  - injection H as <- <-. by eapply Hm.
Qed.

Lemma preserves_ret {A} (a : A) : Spec.preserves f (mret a : M U A).
Proof. intros w w' o H. by injection H as <- <-. Qed.

Lemma preserves_lift {A} (r : result A) : Spec.preserves f (lift r : M U A).
Proof. intros w w' o H. by injection H as <- <-. Qed.

Lemma preserves_diverge {A} : Spec.preserves f (diverge : M U A).
Proof. intros w w' o H. by injection H as <- <-. Qed.

Lemma preserves_load (l : positive) : Spec.preserves f (load l).
Proof.
  intros w w' o. unfold load.
  destruct (lists w !! l); intros H; by injection H as <- <-.
Qed.

(** The loops that group: they store into [block_rois] and emit [Submit]. *)
Section Groups.

Variable block_rois : positive.
Hypothesis f_store : forall v, Spec.preserves f (store block_rois v).
Hypothesis f_submit : forall r, Spec.preserves f (emit (Submit r)).

Lemma preserves_collect_rois (read_roi : Rect) (fuel : nat) :
  forall index applicable_rois,
    Spec.preserves f (collect_rois fuel read_roi block_rois index applicable_rois).
Proof.
  induction fuel as [|fuel IH]; intros index app; cbn [collect_rois].
  - apply preserves_diverge.
  - apply preserves_bind; [apply preserves_load |]. intros l.
    destruct (bool_decide _); [| apply preserves_ret].
    apply preserves_bind; [apply preserves_lift |]. intros r.
    destruct (negb _); [apply IH |].
    apply preserves_bind; [apply f_store |]. intros _. apply IH.
Qed.

Lemma preserves_group_rois (self : TiffImage.t) (fuel : nat) :
  forall jobs, Spec.preserves f (group_rois fuel self block_rois jobs).
Proof.
  induction fuel as [|fuel IH]; intros jobs; cbn [group_rois].
  - apply preserves_diverge.
  - apply preserves_bind; [apply preserves_load |]. intros l.
    destruct (bool_decide _); [apply preserves_ret |].
    apply preserves_bind; [apply preserves_lift |]. intros first.
    apply preserves_bind; [apply preserves_lift |]. intros read_roi.
    apply preserves_bind; [apply preserves_collect_rois |]. intros app.
    apply preserves_bind; [apply f_submit |]. intros _. apply IH.
Qed.

End Groups.

(** The loops that deliver: they call back and report progress. *)
Section Delivers.

Variable cb : Rect -> ndarray3 -> U -> result U.
Hypothesis f_call : forall roi data, Spec.preserves f (call cb roi data).
Hypothesis f_progress : forall a b, Spec.preserves f (emit (Progress a b)).

Lemma preserves_deliver_rois (sp : bool) (total : Z) (buf : ndarray3)
    (read_roi : Rect) (rois : list Rect) :
  forall n, Spec.preserves f (deliver_rois cb sp total buf read_roi rois n).
Proof.
  induction rois as [|roi rois IH]; intros n; cbn [deliver_rois].
  - apply preserves_ret.
  - apply preserves_bind; [apply f_call |]. intros _.
    apply preserves_bind; [destruct sp; [apply f_progress | apply preserves_ret] |].
    intros _. apply IH.
Qed.

Lemma preserves_deliver_jobs (sp : bool) (total : Z) (jobs : list job) :
  forall n, Spec.preserves f (deliver_jobs cb sp total jobs n).
Proof.
  induction jobs as [|[[b rr] rois] jobs IH]; intros n; cbn [deliver_jobs].
  - apply preserves_ret.
  - apply preserves_bind; [apply preserves_lift |]. intros buf.
    apply preserves_bind; [apply preserves_deliver_rois |]. intros n'. apply IH.
Qed.

End Delivers.

End Frame.

Section FrameInstances.

Import TiffImage.

Context {U : Type}.

Lemma lists_emit (k : positive) (e : event) :
  Spec.preserves (fun w : world U => lists w !! k) (emit e).
Proof. intros w w' o H. by injection H as <- <-. Qed.

Lemma lists_call (k : positive) (cb : Rect -> ndarray3 -> U -> result U)
    (roi : Rect) (data : ndarray3) :
  Spec.preserves (fun w : world U => lists w !! k) (call cb roi data).
Proof.
  intros w w' o. unfold call.
  destruct (cb roi data (user w)); intros H; by injection H as <- <-.
Qed.

Lemma lists_store (k l : positive) (v : list Rect) :
  k <> l -> Spec.preserves (fun w : world U => lists w !! k) (store l v).
Proof.
  intros Hne w w' o H. injection H as <- <-. cbn.
  by rewrite lookup_insert_ne.
Qed.

Lemma submits_emit (e : event) :
  (forall r, e <> Submit r) ->
  Spec.preserves (fun w : world U => submits (trace w)) (emit e).
Proof.
  intros He w w' o H. injection H as <- <-. cbn [trace].
  rewrite submits_app. destruct e; cbn; rewrite ?app_nil_r; try done.
  by destruct (He read_roi).
Qed.

Lemma submits_call (cb : Rect -> ndarray3 -> U -> result U)
    (roi : Rect) (data : ndarray3) :
  Spec.preserves (fun w : world U => submits (trace w)) (call cb roi data).
Proof.
  intros w w' o. unfold call.
  destruct (cb roi data (user w)); intros H; injection H as <- <-; cbn [trace];
    rewrite submits_app; cbn; by rewrite app_nil_r.
Qed.

End FrameInstances.

(** ** The scheduler: the properties *)

Section SchedulerProperties.

Import Rectangle.
Import TiffImage.

Context {U : Type}.

(** C10.  [process_rois] leaves the caller's list object as it is: however
    the call ends (it returns, it raises, or it is still running when the
    fuel is spent), the list object passed as [requested_rois] holds the
    same elements in the same order afterwards; the grouping pops from a
    copy, a new list object. *)
Theorem process_rois_keeps_requested_rois
    (fuel : nat) (self : TiffImage.t) (requested_rois : positive)
    (callback_function : Rect -> ndarray3 -> U -> result U) (show_progress : bool)
    (w : world U) :
  lists (process_rois fuel self requested_rois callback_function show_progress w).2
    !! requested_rois
  = lists w !! requested_rois.
Proof.
  destruct (process_rois fuel self requested_rois callback_function show_progress w)
    as [o w'] eqn:Hrun.
  cbn [snd]. unfold process_rois in Hrun. rewrite run_bind in Hrun.
  destruct (__asert_open self) as [[]|e]; cbn in Hrun;
    [| by injection Hrun as <- <-].
  rewrite run_bind in Hrun. unfold load at 1 in Hrun.
  destruct (lists w !! requested_rois) as [l|] eqn:Hl;
    [| by injection Hrun as <- <-].
  rewrite run_bind in Hrun. unfold alloc at 1 in Hrun.
  set (br := fresh (dom (lists w))) in Hrun.
  assert (Hne : requested_rois <> br)
    by (intros ->; by eapply (fresh_ne w (fresh (dom (lists w))))).
  match type of Hrun with
  | ?m ?w1 = _ =>
      assert (Hk : Spec.preserves (fun w : world U => lists w !! requested_rois) m)
  end.
  { apply preserves_bind; [apply preserves_lift |]. intros wb.
    apply preserves_bind; [apply preserves_load |]. intros l1.
    apply preserves_bind; [apply preserves_lift |]. intros _.
    apply preserves_bind; [apply preserves_load |]. intros l2.
    apply preserves_bind.
    { apply preserves_group_rois; intros; [by apply lists_store | apply lists_emit]. }
    intros jobs.
    apply preserves_bind.
    { apply preserves_deliver_jobs; intros; [apply lists_call | apply lists_emit]. }
    intros _. destruct show_progress; [apply lists_emit | apply preserves_ret]. }
  rewrite (Hk _ _ _ Hrun). cbn [lists]. rewrite lookup_insert_ne by done.
  by symmetry.
Qed.

(** C5.  If a requested ROI is not contained in the bounds of the (open)
    image, [process_rois] raises the out-of-bounds exception with nothing
    added to the trace: no read submitted, no callback made; the caller's
    state and list are as before. *)
Theorem process_rois_fail_fast
    (fuel : nat) (self : TiffImage.t) (bounds : Rect) (requested_rois : positive)
    (l : list Rect) (callback_function : Rect -> ndarray3 -> U -> result U)
    (show_progress : bool) (w : world U) :
  whole_bounds self = Ok bounds ->
  lists w !! requested_rois = Some l ->
  Exists (fun r => contains_rect bounds r = false) l ->
  exists w' : world U,
    process_rois fuel self requested_rois callback_function show_progress w
    = (Raises RegionOutOfBoundsError, w')
    /\ trace w' = trace w
    /\ submits (trace w') = submits (trace w)
    /\ callbacks (trace w') = callbacks (trace w)
    /\ user w' = user w
    /\ lists w' !! requested_rois = Some l.
Proof.
  intros Hb Hl Hout. eexists. split.
  - by eapply process_rois_outside_run.
  - cbn [trace user lists]. repeat split.
    rewrite lookup_insert_ne; [done | by eapply fresh_ne].
Qed.

Lemma delivered_fst (js : list job) :
  Forall (fun j : job => exists buf, j.1.1 = Ok buf) js ->
  (js ≫= Spec.delivered).*1 = js ≫= (fun j : job => j.2).
Proof.
  induction 1 as [|[[b rr] rois] js [buf Hb] _ IH]; [done |].
  cbn [fst snd] in Hb. subst b.
  cbn [mbind list_bind Spec.delivered]. rewrite fmap_app, IH. f_equal.
  rewrite <- list_fmap_compose. apply list_fmap_id.
Qed.

(** The reads of the jobs succeed when the reads of the aligned regions of
    the requested ROIs do. *)
Lemma jobs_reads_succeed (self : TiffImage.t) (l : list Rect) (js : list job) :
  js ≫= (fun j : job => j.2) ≡ₚ l ->
  Forall (Spec.job_of_group self) js ->
  (forall first read_roi,
     first ∈ l -> get_block_aligned_read_roi self first = Ok read_roi ->
     exists buf, read self read_roi None None = Ok buf) ->
  Forall (fun j : job => exists buf, j.1.1 = Ok buf) js.
Proof.
  intros Hperm Hjobs Hreads. apply Forall_forall. intros j Hj.
  apply (proj1 (Forall_forall _ _) Hjobs) in Hj as Hgood.
  destruct Hgood as (Hread & (first & Hfirst & Hal) & _).
  assert (Hin : first ∈ l).
  { rewrite <- Hperm. apply list_elem_of_bind. by exists j. }
  destruct (Hreads first _ Hin Hal) as [buf Hbuf].
  exists buf. by rewrite Hread.
Qed.

(** C2, amended.  On an open image with blocks of positive extents, for a
    list of well-formed ROIs all within the bounds, a callback that does not
    raise and reads of the aligned regions that succeed, [process_rois]
    returns; the callbacks it made are one per requested ROI (their ROIs are
    a permutation of the list); each was handed the slice, starting at
    offset [roi.min - read_roi.min], of the buffer read for the aligned
    region [read_roi] of a requested ROI, and the shape of what it was handed
    is [(roi.width(), roi.height(), number of bands)]. *)
Theorem process_rois_delivers
    (fuel : nat) (self : TiffImage.t) (bounds : Rect) (bsx bsy : Z) (nb : Z * Z)
    (n : Z) (requested_rois : positive) (l : list Rect)
    (callback_function : Rect -> ndarray3 -> U -> result U) (show_progress : bool)
    (w : world U) :
  whole_bounds self = Ok bounds ->
  block_info self 0 = Ok ((bsx, bsy), nb) ->
  0 < bsx -> 0 < bsy ->
  num_bands self = Ok n ->
  lists w !! requested_rois = Some l ->
  Forall (fun r => contains_rect bounds r = true /\ wf r) l ->
  (forall first read_roi,
     first ∈ l -> get_block_aligned_read_roi self first = Ok read_roi ->
     exists buf, read self read_roi None None = Ok buf) ->
  (forall roi data u, exists u', callback_function roi data u = Ok u') ->
  (length l < fuel)%nat ->
  exists (w' : world U) (calls : list (Rect * ndarray3)),
    process_rois fuel self requested_rois callback_function show_progress w
    = (Returns tt, w')
    /\ callbacks (trace w') = callbacks (trace w) ++ calls
    /\ calls.*1 ≡ₚ l
    /\ Forall (fun c : Rect * ndarray3 =>
                 exists first read_roi buf,
                   first ∈ l
                   /\ get_block_aligned_read_roi self first = Ok read_roi
                   /\ read self read_roi None None = Ok buf
                   /\ contains_rect read_roi c.1 = true
                   /\ c.2 = slice3 buf (min_x c.1 - min_x read_roi)
                                   (min_x c.1 - min_x read_roi + Rectangle.width c.1)
                                   (min_y c.1 - min_y read_roi)
                                   (min_y c.1 - min_y read_roi + Rectangle.height c.1)
                   /\ shape3 c.2 = (Rectangle.width c.1, Rectangle.height c.1, n))
              calls.
Proof.
  intros Hb Hbi Hx Hy Hn Hl Hin Hreads Hcb Hf.
  apply Forall_and in Hin as [Hin Hwf].
  destruct (process_rois_grouped self bounds Hb callback_function show_progress
              bsx bsy nb Hbi Hx Hy fuel requested_rois l w Hl Hin Hf)
    as (js & Hperm & Hjobs & Hrun).
  pose proof (jobs_reads_succeed self l js Hperm Hjobs Hreads) as Hok.
  destruct (apply_calls_total callback_function (js ≫= Spec.delivered) (user w) Hcb)
    as [u' Hu].
  match type of Hrun with
  | _ = _ ?w2 =>
      destruct (deliver_jobs_run callback_function show_progress
                  (Z.of_nat (length l)) js [] (Z.of_nat (length l)) w2 u' Hok Hu)
        as (tr & n' & Hd & Hcbs & Hsub)
  end.
  rewrite app_nil_r in Hd. rewrite run_bind, Hd in Hrun. cbn [deliver_jobs] in Hrun.
  change ((mret n' : M U Z) ?w3) with (Returns n', w3) in Hrun.
  cbn [lists trace user] in Hrun.
  assert (Hgood : Forall (fun c : Rect * ndarray3 =>
                 exists first read_roi buf,
                   first ∈ l
                   /\ get_block_aligned_read_roi self first = Ok read_roi
                   /\ read self read_roi None None = Ok buf
                   /\ contains_rect read_roi c.1 = true
                   /\ c.2 = slice3 buf (min_x c.1 - min_x read_roi)
                                   (min_x c.1 - min_x read_roi + Rectangle.width c.1)
                                   (min_y c.1 - min_y read_roi)
                                   (min_y c.1 - min_y read_roi + Rectangle.height c.1)
                   /\ shape3 c.2 = (Rectangle.width c.1, Rectangle.height c.1, n))
              (js ≫= Spec.delivered)).
  { apply Forall_bind, Forall_forall. intros [[b rr] rois] Hj.
    pose proof (proj1 (Forall_forall _ _) Hjobs _ Hj) as Hg.
    pose proof (proj1 (Forall_forall _ _) Hok _ Hj) as [buf Hbuf].
    destruct Hg as (Hread & (first & Hfirst & Hal) & Hcont).
    cbn [fst snd] in Hread, Hbuf, Hfirst, Hal, Hcont.
    assert (Hrd : read self rr None None = Ok buf) by congruence.
    clear Hread. subst b. cbn [Spec.delivered].
    apply Forall_fmap, Forall_forall. intros roi Hroi. cbn [compose fst snd].
    assert (Hmem : forall r, r ∈ rois -> r ∈ l).
    { intros r Hr. rewrite <- Hperm. apply list_elem_of_bind.
      exists (Ok buf, rr, rois). split; [exact Hr | exact Hj]. }
    exists first, rr, buf.
    split; [by apply Hmem |]. split; [done |]. split; [done |].
    assert (Hc : contains_rect rr roi = true)
      by (by apply (proj1 (Forall_forall _ _) Hcont)).
    split; [done |]. split; [reflexivity |].
    apply sub_buffer_shape; [| done |].
    - by eapply read_shape.
    - apply (proj1 (Forall_forall _ _) Hwf). by apply Hmem. }
  assert (Hfst : (js ≫= Spec.delivered).*1 ≡ₚ l)
    by (by rewrite delivered_fst).
  destruct show_progress;
    [unfold emit in Hrun
    | change ((mret tt : M U unit) ?w3) with (Returns tt, w3) in Hrun];
    cbn [lists trace user] in Hrun;
    eexists _, (js ≫= Spec.delivered); (split; [exact Hrun |]);
    cbn [trace]; (split; [| done]);
    rewrite !callbacks_app, callbacks_Submit, Hcbs; cbn [callbacks omap app];
    by rewrite ?app_nil_r.
Qed.

(** C6, amended.  On an open image with blocks of positive extents, for
    ROIs all within the bounds and a callback that does not raise, the reads
    of all the groups are submitted, whether reads fail or not.  When the
    read of a group has failed and the reads of the groups before it have
    not, [process_rois] raises the exception of that read; the callbacks made
    are those of the groups before it, each with a slice of a buffer that a
    read returned, none for the failed group or a later one; the state that
    the callbacks left in the caller's code stands. *)
Theorem process_rois_read_failure
    (fuel : nat) (self : TiffImage.t) (bounds : Rect) (bsx bsy : Z) (nb : Z * Z)
    (requested_rois : positive) (l : list Rect)
    (callback_function : Rect -> ndarray3 -> U -> result U) (show_progress : bool)
    (w : world U) :
  whole_bounds self = Ok bounds ->
  block_info self 0 = Ok ((bsx, bsy), nb) ->
  0 < bsx -> 0 < bsy ->
  lists w !! requested_rois = Some l ->
  Forall (fun r => contains_rect bounds r = true) l ->
  (forall roi data u, exists u', callback_function roi data u = Ok u') ->
  (length l < fuel)%nat ->
  exists (js : list job) (o : outcome unit) (w' : world U),
    process_rois fuel self requested_rois callback_function show_progress w = (o, w')
    /\ js ≫= (fun j : job => j.2) ≡ₚ l
    /\ Forall (Spec.job_of_group self) js
    /\ submits (trace w') = submits (trace w) ++ ((fun j : job => j.1.2) <$> js)
    /\ forall (js1 js2 : list job) (e : exn) (read_roi : Rect) (rois : list Rect),
         js = js1 ++ (Raise e, read_roi, rois) :: js2 ->
         Forall (fun j : job => exists buf, j.1.1 = Ok buf) js1 ->
         o = Raises e
         /\ callbacks (trace w') = callbacks (trace w) ++ (js1 ≫= Spec.delivered)
         /\ Spec.apply_calls callback_function (js1 ≫= Spec.delivered) (user w)
            = Ok (user w').
Proof.
  intros Hb Hbi Hx Hy Hl Hin Hcb Hf.
  destruct (process_rois_grouped self bounds Hb callback_function show_progress
              bsx bsy nb Hbi Hx Hy fuel requested_rois l w Hl Hin Hf)
    as (js & Hperm & Hjobs & Hrun).
  destruct (process_rois fuel self requested_rois callback_function show_progress w)
    as [o w'] eqn:Hrun'.
  exists js, o, w'. split; [done |]. split; [done |]. split; [done |].
  symmetry in Hrun. split.
  - match type of Hrun with
    | ?m ?w2 = _ =>
        assert (Hk : Spec.preserves (fun w : world U => submits (trace w)) m)
    end.
    { apply preserves_bind.
      { apply preserves_deliver_jobs; intros;
          [apply submits_call | by apply submits_emit]. }
      intros _. destruct show_progress;
        [by apply submits_emit | apply preserves_ret]. }
    rewrite (Hk _ _ _ Hrun). cbn [trace].
    by rewrite submits_app, submits_Submit.
  - intros js1 js2 e read_roi rois -> Hok.
    destruct (apply_calls_total callback_function (js1 ≫= Spec.delivered)
                (user w) Hcb) as [u' Hu].
    match type of Hrun with
    | _ ?w2 = _ =>
        destruct (deliver_jobs_run callback_function show_progress
                    (Z.of_nat (length l)) js1 ((Raise e, read_roi, rois) :: js2)
                    (Z.of_nat (length l)) w2 u' Hok Hu)
          as (tr & n' & Hd & Hcbs & Hsub)
    end.
    rewrite run_bind, Hd in Hrun. cbn [deliver_jobs] in Hrun.
    rewrite run_lift_Raise in Hrun. injection Hrun as <- <-.
    split; [done |]. cbn [trace user]. split; [| done].
    rewrite !callbacks_app, callbacks_Submit, Hcbs. by rewrite app_nil_r.
Qed.

End SchedulerProperties.

Section SchedulerSamples.

Import TiffImage.

Lemma process_rois_fail_fast_witness :
  exists w' : world nat,
    process_rois 5 Sample.image 1 Sample.count_calls false
      (Sample.world_of [Rectangle.mk 0 0 50 50; Rectangle.mk 60 60 101 100])
    = (Raises RegionOutOfBoundsError, w')
    /\ trace w' = []
    /\ submits (trace w') = []
    /\ callbacks (trace w') = []
    /\ user w' = 0%nat
    /\ lists w' !! 1%positive
       = Some [Rectangle.mk 0 0 50 50; Rectangle.mk 60 60 101 100].
Proof.
  apply (process_rois_fail_fast 5 Sample.image (Rectangle.mk 0 0 100 100) 1
           [Rectangle.mk 0 0 50 50; Rectangle.mk 60 60 101 100]
           Sample.count_calls false
           (Sample.world_of [Rectangle.mk 0 0 50 50; Rectangle.mk 60 60 101 100])).
  - reflexivity.
  - reflexivity.
  - apply Exists_cons_tl, Exists_cons_hd. reflexivity.
Defined.


(** C2 does not hold as stated: for a ROI 10 wide and 20 high the callback
    is handed an array whose first two axes are [(10, 20)], the width and
    then the height, not [(height, width)]. *)
Lemma process_rois_shape_width_first :
  let roi := Rectangle.mk 10 10 20 30 in
  let run := process_rois 2 Sample.image 1 Sample.count_calls false
               (Sample.world_of [roi]) in
  run.1 = Returns tt
  /\ (fun c : Rect * ndarray3 => (c.1, (shape3 c.2).1)) <$> callbacks (trace run.2)
     = [(roi, (10, 20))]
  /\ (10, 20) <> (Rectangle.height roi, Rectangle.width roi).
Proof. vm_compute. repeat split; discriminate. Qed.

Lemma process_rois_delivers_witness :
  exists (w' : world nat) (calls : list (Rect * ndarray3)),
    process_rois 5 Sample.image 1 Sample.count_calls false
      (Sample.world_of [Rectangle.mk 0 0 50 50; Rectangle.mk 60 60 100 100;
                        Rectangle.mk 10 10 20 30])
    = (Returns tt, w')
    /\ callbacks (trace w') = [] ++ calls
    /\ calls.*1 ≡ₚ [Rectangle.mk 0 0 50 50; Rectangle.mk 60 60 100 100;
                     Rectangle.mk 10 10 20 30].
Proof.
  destruct (process_rois_delivers 5 Sample.image (Rectangle.mk 0 0 100 100)
              32 32 (4, 4) 1 1
              [Rectangle.mk 0 0 50 50; Rectangle.mk 60 60 100 100;
               Rectangle.mk 10 10 20 30]
              Sample.count_calls false
              (Sample.world_of [Rectangle.mk 0 0 50 50; Rectangle.mk 60 60 100 100;
                                Rectangle.mk 10 10 20 30]))
    as (w' & calls & Hrun & Hcalls & Hperm & _).
  - reflexivity.
  - reflexivity.
  - lia.
  - lia.
  - reflexivity.
  - reflexivity.
  - repeat constructor; cbn; lia.
  - intros first read_roi Hin Hal.
    repeat (apply elem_of_cons in Hin as [-> | Hin]);
      [| | | by apply elem_of_nil in Hin];
      vm_compute in Hal; injection Hal as <-; eexists; reflexivity.
  - intros roi data u. eexists. reflexivity.
  - cbn. lia.
  - exists w', calls. auto.
Defined.

(** C6 does not hold as stated: on a backend that fails every read, the
    read of the first group fails and the read of the second group is
    submitted all the same. *)
Lemma process_rois_submits_after_failure :
  let rois := [Rectangle.mk 0 0 50 50; Rectangle.mk 60 60 100 100] in
  let run := process_rois 3 Sample.broken_image 1 Sample.count_calls false
               (Sample.world_of rois) in
  run.1 = Raises BackendIOError
  /\ submits (trace run.2) = [Rectangle.mk 0 0 64 64; Rectangle.mk 32 32 100 100]
  /\ read Sample.broken_image (Rectangle.mk 0 0 64 64) None None
     = Raise BackendIOError.
Proof. vm_compute. repeat split. Qed.

Lemma process_rois_read_failure_witness :
  exists (js : list job) (o : outcome unit) (w' : world nat),
    process_rois 3 Sample.flaky_image 1 Sample.count_calls false
      (Sample.world_of [Rectangle.mk 0 0 50 50; Rectangle.mk 60 60 100 100]) = (o, w')
    /\ submits (trace w') = [] ++ ((fun j : job => j.1.2) <$> js)
    /\ forall (js1 js2 : list job) (e : exn) (read_roi : Rect) (rois : list Rect),
         js = js1 ++ (Raise e, read_roi, rois) :: js2 ->
         Forall (fun j : job => exists buf, j.1.1 = Ok buf) js1 ->
         o = Raises e.
Proof.
  destruct (process_rois_read_failure 3 Sample.flaky_image (Rectangle.mk 0 0 100 100)
              32 32 (4, 4) 1
              [Rectangle.mk 0 0 50 50; Rectangle.mk 60 60 100 100]
              Sample.count_calls false
              (Sample.world_of [Rectangle.mk 0 0 50 50; Rectangle.mk 60 60 100 100]))
    as (js & o & w' & Hrun & _ & _ & Hsub & Hfail).
  - reflexivity.
  - reflexivity.
  - lia.
  - lia.
  - reflexivity.
  - repeat constructor.
  - intros roi data u. eexists. reflexivity.
  - cbn. lia.
  - exists js, o, w'. split; [exact Hrun |]. split; [exact Hsub |].
    intros js1 js2 e read_roi rois Hjs Hok.
    by destruct (Hfail js1 js2 e read_roi rois Hjs Hok) as [-> _].
Defined.

(** The run of the sample on the flaky backend: the first group is
    delivered, the read of the second fails. *)
Example process_rois_flaky_run :
  let run := process_rois 3 Sample.flaky_image 1 Sample.count_calls false
               (Sample.world_of [Rectangle.mk 0 0 50 50; Rectangle.mk 60 60 100 100]) in
  run.1 = Raises BackendIOError
  /\ submits (trace run.2) = [Rectangle.mk 0 0 64 64; Rectangle.mk 32 32 100 100]
  /\ (callbacks (trace run.2)).*1 = [Rectangle.mk 0 0 50 50]
  /\ user run.2 = 1%nat.
Proof. vm_compute. repeat split. Qed.

End SchedulerSamples.

(** * Further properties *)

(** ** The block aligner, further *)

Section AlignerMore.

Import Rectangle.

Variables (self : TiffImage.t) (bounds : Rect) (bsx bsy : Z) (nb : Z * Z).
Hypothesis Hbounds : TiffImage.whole_bounds self = Ok bounds.
Hypothesis Hblocks : TiffImage.block_info self 0 = Ok ((bsx, bsy), nb).
Hypothesis Hbsx : 0 < bsx.
Hypothesis Hbsy : 0 < bsy.

Lemma aligned_of_block_aligned (r : Rect) :
  Spec.block_aligned bsx bsy r -> Spec.aligned bsx bsy r = r.
Proof.
  intros ([kx Hx] & [kX HX] & [ky Hy] & [kY HY]).
  apply rect_ext.
  - rewrite aligned_min_x, Hx. rewrite Z.div_mul by lia. reflexivity.
  - rewrite aligned_min_y, Hy. rewrite Z.div_mul by lia. reflexivity.
  - rewrite aligned_max_x, HX.
    replace (kX * bsx - 1) with (bsx - 1 + (kX - 1) * bsx) by ring.
    rewrite Z.div_add, Z.div_small by lia. ring.
  - rewrite aligned_max_y, HY.
    replace (kY * bsy - 1) with (bsy - 1 + (kY - 1) * bsy) by ring.
    rewrite Z.div_add, Z.div_small by lia. ring.
Qed.

(** X1.  A ROI within the bounds whose four sides are multiples of the block
    extents is returned as it is. *)
Theorem get_block_aligned_read_roi_whole_blocks (desired : Rect) :
  contains_rect bounds desired = true ->
  Spec.block_aligned bsx bsy desired ->
  TiffImage.get_block_aligned_read_roi self desired = Ok desired.
Proof.
  intros Hc Ha.
  rewrite (get_block_aligned_read_roi_formula self desired bounds bsx bsy nb) by done.
  rewrite (aligned_of_block_aligned _ Ha). f_equal.
  apply contains_rect_spec in Hc as (H1 & H2 & H3 & H4).
  apply rect_ext; unfold get_intersection; cbn; lia.
Qed.

(** X2.  The aligner is monotone: of two ROIs within the bounds, the one
    that contains the other gets the region that contains the other's. *)
Theorem get_block_aligned_read_roi_monotone (inner outer : Rect) :
  contains_rect bounds outer = true ->
  contains_rect outer inner = true ->
  exists r_inner r_outer,
    TiffImage.get_block_aligned_read_roi self inner = Ok r_inner
    /\ TiffImage.get_block_aligned_read_roi self outer = Ok r_outer
    /\ contains_rect r_outer r_inner = true.
Proof.
  intros Hbo Hoi.
  assert (Hbi : contains_rect bounds inner = true).
  { apply contains_rect_spec in Hbo. apply contains_rect_spec in Hoi.
    apply contains_rect_spec. lia. }
  eexists _, _.
  split; [by eapply get_block_aligned_read_roi_formula |].
  split; [by eapply get_block_aligned_read_roi_formula |].
  apply intersection_mono, aligned_least; [done | done | |].
  - apply aligned_block_aligned.
  - pose proof (aligned_contains bsx bsy outer Hbsx Hbsy) as Ho.
    apply contains_rect_spec in Ho. apply contains_rect_spec in Hoi.
    apply contains_rect_spec. lia.
Qed.

(** X3.  The aligned region reaches less than one block beyond the ROI on
    each of its four sides, and it is well formed when the ROI is. *)
Theorem get_block_aligned_read_roi_overread (desired : Rect) :
  contains_rect bounds desired = true ->
  exists r,
    TiffImage.get_block_aligned_read_roi self desired = Ok r
    /\ min_x desired - bsx < min_x r <= min_x desired
    /\ min_y desired - bsy < min_y r <= min_y desired
    /\ max_x desired <= max_x r < max_x desired + bsx
    /\ max_y desired <= max_y r < max_y desired + bsy
    /\ (wf desired -> wf r).
Proof.
  intros Hc.
  destruct (whole_bounds_shape _ _ Hbounds) as [H0x H0y].
  eexists. split; [by eapply get_block_aligned_read_roi_formula |].
  apply contains_rect_spec in Hc as (H1 & H2 & H3 & H4).
  unfold get_intersection. cbn [min_x min_y max_x max_y].
  rewrite aligned_max_x, aligned_max_y, aligned_min_x, aligned_min_y.
  pose proof (block_start_le bsx Hbsx (min_x desired)).
  pose proof (block_start_le bsy Hbsy (min_y desired)).
  pose proof (block_stop_ge bsx Hbsx (max_x desired)).
  pose proof (block_stop_ge bsy Hbsy (max_y desired)).
  pose proof (block_stop_lt bsx Hbsx (max_x desired)).
  pose proof (block_stop_lt bsy Hbsy (max_y desired)).
  pose proof (block_stop_ge bsx Hbsx (min_x desired + 1)) as Hlx.
  pose proof (block_stop_ge bsy Hbsy (min_y desired + 1)) as Hly.
  replace (min_x desired + 1 - 1) with (min_x desired) in Hlx by ring.
  replace (min_y desired + 1 - 1) with (min_y desired) in Hly by ring.
  unfold wf. cbn [min_x min_y max_x max_y]. rewrite H0x, H0y.
  repeat split; try lia.
Qed.

End AlignerMore.

Section AlignerMoreSamples.

Lemma get_block_aligned_read_roi_whole_blocks_witness :
  TiffImage.get_block_aligned_read_roi Sample.image (Rectangle.mk 32 64 96 96)
  = Ok (Rectangle.mk 32 64 96 96).
Proof.
  apply (get_block_aligned_read_roi_whole_blocks Sample.image
           (Rectangle.mk 0 0 100 100) 32 32 (4, 4));
    [reflexivity | reflexivity | lia | lia | reflexivity |].
  repeat split; [by exists 1 | by exists 3 | by exists 2 | by exists 3].
Defined.

Lemma get_block_aligned_read_roi_monotone_witness :
  exists r_inner r_outer,
    TiffImage.get_block_aligned_read_roi Sample.image (Rectangle.mk 40 40 50 50)
    = Ok r_inner
    /\ TiffImage.get_block_aligned_read_roi Sample.image (Rectangle.mk 30 30 70 70)
       = Ok r_outer
    /\ Rectangle.contains_rect r_outer r_inner = true.
Proof.
  apply (get_block_aligned_read_roi_monotone Sample.image
           (Rectangle.mk 0 0 100 100) 32 32 (4, 4));
    [reflexivity | reflexivity | lia | lia | reflexivity | reflexivity].
Defined.

Lemma get_block_aligned_read_roi_overread_witness :
  exists r,
    TiffImage.get_block_aligned_read_roi Sample.image (Rectangle.mk 40 40 50 50) = Ok r
    /\ 40 - 32 < Rectangle.min_x r <= 40
    /\ 40 - 32 < Rectangle.min_y r <= 40
    /\ 50 <= Rectangle.max_x r < 50 + 32
    /\ 50 <= Rectangle.max_y r < 50 + 32
    /\ (Rectangle.wf (Rectangle.mk 40 40 50 50) -> Rectangle.wf r).
Proof.
  apply (get_block_aligned_read_roi_overread Sample.image
           (Rectangle.mk 0 0 100 100) 32 32 (4, 4));
    [reflexivity | reflexivity | lia | lia | reflexivity].
Defined.

End AlignerMoreSamples.

(** ** The scheduler, further: traces *)

Section Appends.

Import TiffImage.

Context {U : Type}.
Variable P : event -> Prop.

Lemma appends_bind {A B} (m : M U A) (k : A -> M U B) :
  Laws.appends P m -> (forall a, Laws.appends P (k a)) -> Laws.appends P (m ≫= k).
Proof.
  intros Hm Hk w w' o. rewrite run_bind.
  destruct (m w) as [[a|e|] w1] eqn:E; intros H.
  - destruct (Hm _ _ _ E) as (t1 & H1 & F1).
    destruct (Hk a _ _ _ H) as (t2 & H2 & F2).
    exists (t1 ++ t2). rewrite H2, H1, app_assoc. split; [done |].
    by apply Forall_app.
  - injection H as <- <-. by eapply Hm.
  - injection H as <- <-. by eapply Hm.
Qed.

Lemma appends_nothing {A} (m : M U A) :
  (forall w w' o, m w = (o, w') -> trace w' = trace w) -> Laws.appends P m.
Proof.
  intros Hm w w' o H. exists []. rewrite app_nil_r. split; [by eapply Hm | constructor].
Qed.

Lemma appends_ret {A} (a : A) : Laws.appends P (mret a : M U A).
Proof. apply appends_nothing. intros w w' o H. by injection H as <- <-. Qed.

Lemma appends_lift {A} (r : result A) : Laws.appends P (lift r : M U A).
Proof. apply appends_nothing. intros w w' o H. by injection H as <- <-. Qed.

Lemma appends_emit (e : event) : P e -> Laws.appends P (emit e : M U unit).
Proof.
  intros He w w' o H. injection H as <- <-. exists [e]. split; [done |].
  by repeat constructor.
Qed.

Lemma appends_call (cb : Rect -> ndarray3 -> U -> result U) (roi : Rect)
    (data : ndarray3) :
  P (Callback roi data) -> Laws.appends P (call cb roi data).
Proof.
  intros He w w' o. unfold call.
  destruct (cb roi data (user w)); intros H; injection H as <- <-;
    exists [Callback roi data]; (split; [done | by repeat constructor]).
Qed.

Variable cb : Rect -> ndarray3 -> U -> result U.
Hypothesis P_callback : forall roi data, P (Callback roi data).
Hypothesis P_progress : forall a b, P (Progress a b).

Lemma appends_deliver_rois (sp : bool) (total : Z) (buf : ndarray3)
    (read_roi : Rect) (rois : list Rect) :
  forall n, Laws.appends P (deliver_rois cb sp total buf read_roi rois n).
Proof.
  induction rois as [|roi rois IH]; intros n; cbn [deliver_rois].
  - apply appends_ret.
  - apply appends_bind; [by apply appends_call |]. intros _.
    apply appends_bind; [destruct sp; [by apply appends_emit | apply appends_ret] |].
    intros _. apply IH.
Qed.

Lemma appends_deliver_jobs (sp : bool) (total : Z) (jobs : list job) :
  forall n, Laws.appends P (deliver_jobs cb sp total jobs n).
Proof.
  induction jobs as [|[[b rr] rois] jobs IH]; intros n; cbn [deliver_jobs].
  - apply appends_ret.
  - apply appends_bind; [apply appends_lift |]. intros buf.
    apply appends_bind; [apply appends_deliver_rois |]. intros n'. apply IH.
Qed.

End Appends.

Section ProcessMore.

Import Rectangle.
Import TiffImage.

Context {U : Type}.

Variables (self : TiffImage.t) (bounds : Rect).
Hypothesis Hbounds : whole_bounds self = Ok bounds.

Variable callback_function : Rect -> ndarray3 -> U -> result U.
Variable show_progress : bool.

(** What is left of [process_rois] once the ROIs have been checked. *)
Lemma process_rois_unfold (fuel : nat) (requested_rois : positive)
    (l : list Rect) (w : world U) :
  lists w !! requested_rois = Some l ->
  Forall (fun r => contains_rect bounds r = true) l ->
  process_rois fuel self requested_rois callback_function show_progress w
  = (group_rois fuel self (fresh (dom (lists w))) []
     ≫= fun jobs =>
          deliver_jobs callback_function show_progress (Z.of_nat (length l)) jobs
                       (Z.of_nat (length l))
          ≫= fun _ => if show_progress then emit Newline else mret tt)
      (World (<[fresh (dom (lists w)) := l]> (lists w)) (trace w) (user w)).
Proof.
  intros Hl Hin. unfold process_rois.
  rewrite (whole_bounds_open _ _ Hbounds), run_lift_Ok.
  rewrite (run_load _ _ _ _ Hl).
  rewrite run_bind. unfold alloc at 1.
  rewrite Hbounds, run_lift_Ok.
  rewrite (run_load _ l)
    by (cbn [lists]; rewrite lookup_insert_ne; [done | by eapply fresh_ne]).
  rewrite (check_rois_Ok _ _ Hin), run_lift_Ok.
  rewrite (run_load _ l) by (cbn [lists]; by rewrite lookup_insert_eq).
  reflexivity.
Qed.

Lemma group_rois_nil (fuel : nat) (block_rois : positive) (jobs : list job)
    (w : world U) :
  lists w !! block_rois = Some [] ->
  group_rois (S fuel) self block_rois jobs w = (Returns jobs, w).
Proof. intros Hl. cbn [group_rois]. by rewrite (run_load _ _ _ _ Hl). Qed.

(** One turn of the outer loop. *)
Lemma group_rois_step (fuel : nat) (block_rois : positive) (jobs : list job)
    (w : world U) (first read_roi : Rect) (rest : list Rect) :
  lists w !! block_rois = Some (first :: rest) ->
  get_block_aligned_read_roi self first = Ok read_roi ->
  group_rois (S fuel) self block_rois jobs w
  = group_rois fuel self block_rois
      (jobs ++ [(read self read_roi None None, read_roi,
                 filter (fun r => contains_rect read_roi r = true) (first :: rest))])
      (World (<[block_rois :=
                  filter (fun r => ~ contains_rect read_roi r = true) (first :: rest)]>
                (lists w))
             (trace w ++ [Submit read_roi]) (user w)).
Proof.
  intros Hl Hrr. cbn [group_rois]. rewrite (run_load _ _ _ _ Hl).
  rewrite bool_decide_eq_false_2 by done.
  change (py_index (first :: rest) 0) with (Ok first : result Rect).
  rewrite run_lift_Ok, Hrr, run_lift_Ok, run_bind.
  rewrite (collect_rois_run read_roi block_rois _ 0 [] (first :: rest) w Hl)
    by (cbn; lia).
  rewrite drop_0. cbn [take app].
  rewrite run_bind. unfold emit at 1. reflexivity.
Qed.

(** X4.  With an empty list of ROIs [process_rois] on an open image
    returns at once: no read is submitted and the callback is not called. *)
Theorem process_rois_empty (fuel : nat) (requested_rois : positive) (w : world U) :
  lists w !! requested_rois = Some [] ->
  (0 < fuel)%nat ->
  exists w' : world U,
    process_rois fuel self requested_rois callback_function show_progress w
    = (Returns tt, w')
    /\ submits (trace w') = submits (trace w)
    /\ callbacks (trace w') = callbacks (trace w)
    /\ user w' = user w
    /\ lists w' !! requested_rois = Some [].
Proof.
  intros Hl Hf. destruct fuel as [|fuel]; [lia |].
  rewrite (process_rois_unfold _ _ [] w Hl) by constructor.
  rewrite run_bind, group_rois_nil by (cbn [lists]; by rewrite lookup_insert_eq).
  rewrite run_bind. cbn [deliver_jobs].
  change ((mret ?n : M U Z) ?w3) with (Returns n, w3).
  assert (Hk : lists (World (<[fresh (dom (lists w)) := []]> (lists w)) (trace w)
                            (user w)) !! requested_rois = Some []).
  { cbn [lists]. rewrite lookup_insert_ne; [done | by eapply fresh_ne]. }
  destruct show_progress.
  - eexists. split; [reflexivity |]. cbn [trace user lists].
    rewrite submits_app, callbacks_app. cbn. by rewrite !app_nil_r.
  - eexists. split; [reflexivity |]. by cbn [trace user lists].
Qed.

End ProcessMore.

Section DeliveryMore.

Import Rectangle.
Import TiffImage.

Context {U : Type}.
Variable callback_function : Rect -> ndarray3 -> U -> result U.
Variables (show_progress : bool) (total_rois : Z).

Lemma run_bind_assoc {A B C} (m : M U A) (k1 : A -> M U B) (k2 : B -> M U C)
    (w : world U) :
  ((m ≫= k1) ≫= k2) w = (m ≫= fun a => k1 a ≫= k2) w.
Proof. rewrite !run_bind. by destruct (m w) as [[a|e|] w1]. Qed.

(** The delivery of one job stops at the first call of the callback that
    raises. *)
Lemma deliver_rois_raise (buf : ndarray3) (read_roi : Rect) (rois : list Rect) :
  forall (num_remaining : Z) (w : world U) (e : exn),
    Spec.apply_calls callback_function (Spec.delivered (Ok buf, read_roi, rois)) (user w)
    = Raise e ->
    exists (tr : list event) (c1 c2 : list (Rect * ndarray3)) (x : Rect * ndarray3)
           (u1 : U),
      deliver_rois callback_function show_progress total_rois buf read_roi rois
                   num_remaining w
      = (Raises e, World (lists w) (trace w ++ tr) u1)
      /\ Spec.delivered (Ok buf, read_roi, rois) = c1 ++ x :: c2
      /\ callbacks tr = c1 ++ [x]
      /\ submits tr = []
      /\ Spec.apply_calls callback_function c1 (user w) = Ok u1
      /\ callback_function x.1 x.2 u1 = Raise e.
Proof.
  induction rois as [|roi rois IH]; intros n w e Hu; [discriminate |].
  cbn [Spec.delivered fmap list_fmap Spec.apply_calls] in Hu.
  cbn [deliver_rois]. rewrite run_bind. unfold call at 1.
  fold (Spec.sub_buffer buf read_roi roi).
  set (data := Spec.sub_buffer buf read_roi roi) in *.
  destruct (callback_function roi data (user w)) as [u'|e0] eqn:Hcall.
  - rewrite bind_Ok_l in Hu.
    set (w1 := World (lists w) (trace w ++ [Callback roi data]) u').
    assert (Hstep : exists ev : list event,
               callbacks ev = [] /\ submits ev = []
               /\ forall k : unit -> M U Z,
                    ((if show_progress
                      then emit (Progress (total_rois - (n - 1)) total_rois)
                      else mret tt) ≫= k) w1
                    = k tt (World (lists w1) (trace w1 ++ ev) (user w1))).
    { destruct show_progress.
      - exists [Progress (total_rois - (n - 1)) total_rois]. by repeat split.
      - exists []. repeat split. intros k. rewrite run_bind.
        change ((mret tt : M U unit) w1) with (Returns tt, w1).
        by rewrite app_nil_r, world_eta. }
    destruct Hstep as (ev & Hev1 & Hev2 & Hev).
    rewrite Hev.
    destruct (IH (n - 1) (World (lists w1) (trace w1 ++ ev) (user w1)) e Hu)
      as (tr & c1 & c2 & x & u1 & Hrun & Hsplit & Hcbs & Hsub & Hc1 & Hx).
    exists ([Callback roi data] ++ ev ++ tr), ((roi, data) :: c1), c2, x, u1.
    split; [| split; [| split; [| split; [| split]]]].
    + rewrite Hrun. subst w1. cbn [lists trace user]. by rewrite <- !app_assoc.
    + cbn [Spec.delivered fmap list_fmap] in *. fold data. by rewrite Hsplit.
    + rewrite !callbacks_app, Hev1, Hcbs. reflexivity.
    + rewrite !submits_app, Hev2, Hsub. reflexivity.
    + cbn [Spec.apply_calls]. by rewrite Hcall, bind_Ok_l.
    + done.
  - injection Hu as <-.
    exists [Callback roi data], [], (Spec.delivered (Ok buf, read_roi, rois)),
           (roi, data), (user w).
    repeat split; done.
Qed.

(** The delivery of the jobs stops at the first call that raises. *)
Lemma deliver_jobs_raise (js : list job) :
  forall (num_remaining : Z) (w : world U) (e : exn),
    Forall (fun j : job => exists buf, j.1.1 = Ok buf) js ->
    Spec.apply_calls callback_function (js ≫= Spec.delivered) (user w) = Raise e ->
    exists (tr : list event) (c1 c2 : list (Rect * ndarray3)) (x : Rect * ndarray3)
           (u1 : U),
      deliver_jobs callback_function show_progress total_rois js num_remaining w
      = (Raises e, World (lists w) (trace w ++ tr) u1)
      /\ js ≫= Spec.delivered = c1 ++ x :: c2
      /\ callbacks tr = c1 ++ [x]
      /\ submits tr = []
      /\ Spec.apply_calls callback_function c1 (user w) = Ok u1
      /\ callback_function x.1 x.2 u1 = Raise e.
Proof.
  induction js as [|[[b read_roi] rois] js IH]; intros n w e Hok Hu; [discriminate |].
  apply Forall_cons in Hok as [[buf Hbuf] Hok]. cbn [fst snd] in Hbuf. subst b.
  cbn [mbind list_bind] in Hu. rewrite apply_calls_app in Hu.
  cbn [deliver_jobs]. rewrite run_lift_Ok, run_bind.
  destruct (Spec.apply_calls callback_function
              (Spec.delivered (Ok buf, read_roi, rois)) (user w)) as [u'|e0] eqn:H1.
  - rewrite bind_Ok_l in Hu.
    destruct (deliver_rois_run callback_function show_progress total_rois
                buf read_roi rois n w u' H1) as (tr1 & n1 & Hrun1 & Hcbs1 & Hsub1).
    rewrite Hrun1.
    destruct (IH n1 (World (lists w) (trace w ++ tr1) u') e Hok Hu)
      as (tr & c1 & c2 & x & u1 & Hrun & Hsplit & Hcbs & Hsub & Hc1 & Hx).
    exists (tr1 ++ tr), (Spec.delivered (Ok buf, read_roi, rois) ++ c1), c2, x, u1.
    split; [| split; [| split; [| split; [| split]]]].
    + rewrite Hrun. cbn [lists trace user]. by rewrite <- app_assoc.
    + cbn [mbind list_bind]. by rewrite Hsplit, <- app_assoc.
    + rewrite callbacks_app, Hcbs1, Hcbs. by rewrite app_assoc.
    + rewrite submits_app, Hsub1, Hsub. reflexivity.
    + rewrite apply_calls_app, H1, bind_Ok_l. exact Hc1.
    + done.
  - injection Hu as <-.
    destruct (deliver_rois_raise buf read_roi rois n w e0 H1)
      as (tr & c1 & c2 & x & u1 & Hrun & Hsplit & Hcbs & Hsub & Hc1 & Hx).
    rewrite Hrun.
    exists tr, c1, (c2 ++ (js ≫= Spec.delivered)), x, u1.
    repeat split; try done.
    cbn [mbind list_bind]. rewrite Hsplit, <- app_assoc. reflexivity.
Qed.

(** What follows a call of the callback comes after it in the trace. *)
Lemma call_then {A} (roi : Rect) (data : ndarray3) (k : unit -> M U A) :
  (forall a, Laws.appends (fun _ => True) (k a)) ->
  forall (w w' : world U) (o : outcome A),
    (call callback_function roi data ≫= k) w = (o, w') ->
    exists tr, trace w' = trace w ++ Callback roi data :: tr.
Proof.
  intros Hk w w' o. rewrite run_bind. unfold call.
  destruct (callback_function roi data (user w)) as [u'|e]; intros H.
  - destruct (Hk tt _ _ _ H) as (tr & Htr & _). exists tr.
    rewrite Htr. cbn [trace]. by rewrite <- app_assoc.
  - injection H as <- <-. exists []. reflexivity.
Qed.

End DeliveryMore.

(** ** The scheduler, further: order and counts *)

Section ProcessOrder.

Import Rectangle.
Import TiffImage.

Context {U : Type}.

Variables (self : TiffImage.t) (bounds : Rect) (bsx bsy : Z) (nb : Z * Z).
Hypothesis Hbounds : whole_bounds self = Ok bounds.
Hypothesis Hblocks : block_info self 0 = Ok ((bsx, bsy), nb).
Hypothesis Hbsx : 0 < bsx.
Hypothesis Hbsy : 0 < bsy.

Variable callback_function : Rect -> ndarray3 -> U -> result U.
Variable show_progress : bool.

Lemma bind_length_ge {A B} (f : A -> list B) (l : list A) :
  Forall (fun a => f a <> []) l -> (length l <= length (l ≫= f))%nat.
Proof.
  induction 1 as [|a l Ha _ IH]; [done |].
  cbn [mbind list_bind length]. rewrite length_app.
  destruct (f a); [done |]. cbn [length]. lia.
Qed.

Lemma jobs_count (l : list Rect) (js : list job) :
  Forall (fun r => contains_rect bounds r = true) l ->
  js ≫= (fun j : job => j.2) ≡ₚ l ->
  Forall (Spec.job_of_group self) js ->
  (length js <= length l)%nat
  /\ (l <> [] -> js <> [])
  /\ Forall (fun j : job => contains_rect bounds j.1.2 = true) js.
Proof.
  intros Hin Hperm Hjobs. split; [| split].
  - rewrite <- Hperm. apply bind_length_ge.
    eapply Forall_impl; [exact Hjobs |].
    intros j (_ & (first & Hf & _) & _) Hnil. rewrite Hnil in Hf.
    by apply elem_of_nil in Hf.
  - intros Hl ->. cbn in Hperm. symmetry in Hperm.
    by apply Permutation_nil_r in Hperm.
  - apply Forall_forall. intros j Hj.
    destruct (proj1 (Forall_forall _ _) Hjobs _ Hj) as (_ & (first & Hf & Hal) & _).
    assert (Hfl : first ∈ l).
    { rewrite <- Hperm. apply list_elem_of_bind. by exists j. }
    pose proof (proj1 (Forall_forall _ _) Hin _ Hfl) as Hc.
    destruct (read_roi_of_first self bounds bsx bsy nb Hbounds Hblocks Hbsx Hbsy
                first Hc) as (rr & Hrr & _ & Hb).
    congruence.
Qed.

(** The trace of a run on ROIs within the bounds: the submissions of the
    groups, then events that are not submissions. *)
Lemma process_rois_trace (fuel : nat) (requested_rois : positive)
    (l : list Rect) (w : world U) :
  lists w !! requested_rois = Some l ->
  Forall (fun r => contains_rect bounds r = true) l ->
  (length l < fuel)%nat ->
  exists (js : list job) (tr : list event),
    js ≫= (fun j : job => j.2) ≡ₚ l
    /\ Forall (Spec.job_of_group self) js
    /\ trace (process_rois fuel self requested_rois callback_function
                           show_progress w).2
       = trace w ++ (Submit <$> ((fun j : job => j.1.2) <$> js)) ++ tr
    /\ Forall Laws.not_submit tr.
Proof.
  intros Hl Hin Hf.
  destruct (process_rois_grouped self bounds Hbounds callback_function show_progress
              bsx bsy nb Hblocks Hbsx Hbsy fuel requested_rois l w Hl Hin Hf)
    as (js & Hperm & Hjobs & Hrun).
  destruct (process_rois fuel self requested_rois callback_function show_progress w)
    as [o w'] eqn:Hrun'.
  symmetry in Hrun.
  match type of Hrun with
  | ?m ?w2 = _ => assert (Hk : Laws.appends Laws.not_submit m)
  end.
  { apply appends_bind; [by apply appends_deliver_jobs |]. intros _.
    destruct show_progress; [by apply appends_emit | apply appends_ret]. }
  destruct (Hk _ _ _ Hrun) as (tr & Htr & Hns).
  exists js, tr. split; [done |]. split; [done |]. split; [| done].
  cbn [snd]. rewrite Htr. cbn [trace]. by rewrite <- app_assoc.
Qed.

(** X5.  Every read is submitted before the first callback is made: however
    the run on ROIs within the bounds ends, its trace is the submissions of
    the reads followed by events none of which is a submission. *)
Theorem process_rois_submits_first (fuel : nat) (requested_rois : positive)
    (l : list Rect) (w : world U) :
  lists w !! requested_rois = Some l ->
  Forall (fun r => contains_rect bounds r = true) l ->
  (length l < fuel)%nat ->
  exists (rs : list Rect) (tr : list event),
    trace (process_rois fuel self requested_rois callback_function show_progress w).2
    = trace w ++ (Submit <$> rs) ++ tr
    /\ Forall Laws.not_submit tr.
Proof.
  intros Hl Hin Hf.
  destruct (process_rois_trace fuel requested_rois l w Hl Hin Hf)
    as (js & tr & _ & _ & Htr & Hns).
  by exists ((fun j : job => j.1.2) <$> js), tr.
Qed.

Lemma submits_not_submit (tr : list event) :
  Forall Laws.not_submit tr -> submits tr = [].
Proof.
  induction 1 as [|e tr He _ IH]; [done |].
  destruct e; cbn in *; done.
Qed.

(** X6.  At most one read per requested ROI: however the run on ROIs
    within the bounds ends, the regions it has submitted are no more than
    the ROIs, at least one if there is a ROI, and each lies within the bounds
    of the image. *)
Theorem process_rois_read_count (fuel : nat) (requested_rois : positive)
    (l : list Rect) (w : world U) :
  lists w !! requested_rois = Some l ->
  Forall (fun r => contains_rect bounds r = true) l ->
  (length l < fuel)%nat ->
  exists rs : list Rect,
    submits (trace (process_rois fuel self requested_rois callback_function
                                 show_progress w).2)
    = submits (trace w) ++ rs
    /\ (length rs <= length l)%nat
    /\ (l <> [] -> rs <> [])
    /\ Forall (fun r => contains_rect bounds r = true) rs.
Proof.
  intros Hl Hin Hf.
  destruct (process_rois_trace fuel requested_rois l w Hl Hin Hf)
    as (js & tr & Hperm & Hjobs & Htr & Hns).
  destruct (jobs_count l js Hin Hperm Hjobs) as (Hlen & Hne & Hb).
  exists ((fun j : job => j.1.2) <$> js).
  split; [| split; [| split]].
  - rewrite Htr, !submits_app, submits_Submit, (submits_not_submit _ Hns).
    by rewrite app_nil_r.
  - by rewrite length_fmap.
  - intros Hl0 Hnil. apply fmap_nil_inv in Hnil. by apply Hne.
  - by apply Forall_fmap.
Qed.

(** X7.  The first requested ROI comes first: the first read submitted is
    that of its aligned region, and when that read returns, the first call
    of the callback is for the first ROI, with its part of that buffer. *)
Theorem process_rois_first_roi_first (fuel : nat) (requested_rois : positive)
    (first : Rect) (rest : list Rect) (w : world U) :
  lists w !! requested_rois = Some (first :: rest) ->
  Forall (fun r => contains_rect bounds r = true) (first :: rest) ->
  (length (first :: rest) < fuel)%nat ->
  exists (read_roi : Rect) (rs : list Rect),
    get_block_aligned_read_roi self first = Ok read_roi
    /\ submits (trace (process_rois fuel self requested_rois callback_function
                                    show_progress w).2)
       = submits (trace w) ++ read_roi :: rs
    /\ forall buf,
         read self read_roi None None = Ok buf ->
         exists cs,
           callbacks (trace (process_rois fuel self requested_rois callback_function
                                          show_progress w).2)
           = callbacks (trace w)
             ++ (first, slice3 buf (min_x first - min_x read_roi)
                          (min_x first - min_x read_roi + Rectangle.width first)
                          (min_y first - min_y read_roi)
                          (min_y first - min_y read_roi + Rectangle.height first))
                :: cs.
Proof.
  intros Hl Hin Hf.
  assert (Hfirst : contains_rect bounds first = true)
    by (by apply Forall_cons in Hin as [? _]).
  destruct (read_roi_of_first self bounds bsx bsy nb Hbounds Hblocks Hbsx Hbsy
              first Hfirst) as (read_roi & Hrr & Hcf & Hcb).
  destruct fuel as [|fuel]; [cbn in Hf; lia |].
  pose proof (process_rois_unfold self bounds Hbounds callback_function show_progress
                (S fuel) requested_rois (first :: rest) w Hl Hin) as Hrun.
  set (br := fresh (dom (lists w))) in *.
  rewrite run_bind in Hrun.
  rewrite (group_rois_step self fuel br [] _ first read_roi rest) in Hrun
    by (done || (cbn [lists]; by rewrite lookup_insert_eq)).
  cbn [lists trace user app] in Hrun. rewrite insert_insert_eq in Hrun.
  rewrite filter_cons_True in Hrun by done.
  set (app := filter (fun r => contains_rect read_roi r = true) rest) in *.
  set (l' := filter (fun r => ~ contains_rect read_roi r = true) (first :: rest)) in *.
  set (j1 := (read self read_roi None None, read_roi, first :: app)) in *.
  destruct (group_rois_run self bounds bsx bsy nb Hbounds Hblocks Hbsx Hbsy br fuel l'
              [j1] (World (<[br := l']> (lists w)) (trace w ++ [Submit read_roi])
                          (user w)))
    as (js & Hg & _ & _).
  { cbn [lists]. by rewrite lookup_insert_eq. }
  { subst l'. apply Forall_forall. intros r Hr.
    apply list_elem_of_filter in Hr as [_ Hr]. by eapply Forall_forall in Hin. }
  { assert (length l' < length (first :: rest))%nat; [| lia].
    subst l'. apply length_filter_lt with (x := first); [by left |].
    intros H. by apply H. }
  rewrite Hg in Hrun. cbn [lists trace user app] in Hrun.
  destruct (process_rois (S fuel) self requested_rois callback_function
              show_progress w) as [o w'] eqn:Hrun'.
  symmetry in Hrun. cbn [snd].
  exists read_roi, ((fun j : job => j.1.2) <$> js).
  split; [done |]. split.
  - match type of Hrun with
    | ?m ?w2 = _ =>
        assert (Hk : Spec.preserves (fun w : world U => submits (trace w)) m)
    end.
    { apply preserves_bind.
      { apply preserves_deliver_jobs; intros;
          [apply submits_call | by apply submits_emit]. }
      intros _. destruct show_progress;
        [by apply submits_emit | apply preserves_ret]. }
    rewrite (Hk _ _ _ Hrun). cbn [trace].
    rewrite !submits_app, submits_Submit. cbn. by rewrite <- app_assoc.
  - intros buf Hbuf. subst j1. rewrite Hbuf in Hrun.
    change ([(Ok buf, read_roi, first :: app)] ++ js)
      with ((Ok buf, read_roi, first :: app) :: js) in Hrun.
    cbn [deliver_jobs deliver_rois] in Hrun.
    rewrite run_bind, run_lift_Ok in Hrun.
    rewrite <- run_bind in Hrun.
    rewrite !run_bind_assoc in Hrun.
    apply call_then in Hrun as [tr Htr].
    + exists (callbacks tr). rewrite Htr. cbn [trace].
      rewrite !callbacks_app, callbacks_Submit. cbn [callbacks omap].
      by rewrite !app_nil_r.
    + intros _.
      repeat first
        [ apply appends_ret
        | apply appends_lift
        | (apply appends_emit; done)
        | (apply appends_deliver_rois; done)
        | (apply appends_deliver_jobs; done)
        | (apply appends_bind; [| intros ?])
        | match goal with
          | |- Laws.appends _ (if ?b then _ else _) => destruct b
          | |- Laws.appends ?P (fun w => (if ?b then ?x else ?y) w) =>
              change (Laws.appends P (if b then x else y))
          end ].
Qed.

End ProcessOrder.

(** ** The scheduler, further: one group, raising callbacks, closed images *)

Section ProcessGroups.

Import Rectangle.
Import TiffImage.

Context {U : Type}.

Variables (self : TiffImage.t) (bounds : Rect).
Hypothesis Hbounds : whole_bounds self = Ok bounds.

Variable callback_function : Rect -> ndarray3 -> U -> result U.
Variable show_progress : bool.

Lemma filter_all {A} (P : A -> Prop) `{!forall x, Decision (P x)} (l : list A) :
  Forall P l -> filter P l = l.
Proof.
  induction 1 as [|a l Ha _ IH]; [done |].
  by rewrite filter_cons_True, IH.
Qed.

Lemma filter_none {A} (P : A -> Prop) `{!forall x, Decision (P x)} (l : list A) :
  Forall (fun a => ~ P a) l -> filter P l = [].
Proof.
  induction 1 as [|a l Ha _ IH]; [done |].
  by rewrite filter_cons_False.
Qed.

(** X8.  ROIs that all lie in the aligned region of the first of them are
    served by one read: that region is the only read submitted, and when the
    read returns and the callback does not raise, the callback is called for
    the ROIs in the order of the list. *)
Theorem process_rois_one_group (fuel : nat) (requested_rois : positive)
    (first : Rect) (rest : list Rect) (read_roi : Rect) (w : world U) :
  lists w !! requested_rois = Some (first :: rest) ->
  Forall (fun r => contains_rect bounds r = true) (first :: rest) ->
  get_block_aligned_read_roi self first = Ok read_roi ->
  Forall (fun r => contains_rect read_roi r = true) (first :: rest) ->
  (2 <= fuel)%nat ->
  let run := process_rois fuel self requested_rois callback_function show_progress w in
  submits (trace run.2) = submits (trace w) ++ [read_roi]
  /\ forall (buf : ndarray3) (u' : U),
       let calls :=
         (fun roi => (roi, slice3 buf (min_x roi - min_x read_roi)
                             (min_x roi - min_x read_roi + Rectangle.width roi)
                             (min_y roi - min_y read_roi)
                             (min_y roi - min_y read_roi + Rectangle.height roi)))
           <$> first :: rest in
       read self read_roi None None = Ok buf ->
       Spec.apply_calls callback_function calls (user w) = Ok u' ->
       run.1 = Returns tt
       /\ callbacks (trace run.2) = callbacks (trace w) ++ calls
       /\ user run.2 = u'.
Proof.
  intros Hl Hin Hrr Hall Hf run.
  destruct fuel as [|[|fuel]]; [lia | lia |].
  pose proof (process_rois_unfold self bounds Hbounds callback_function show_progress
                (S (S fuel)) requested_rois (first :: rest) w Hl Hin) as Hrun.
  fold run in Hrun.
  set (br := fresh (dom (lists w))) in *.
  rewrite run_bind in Hrun.
  rewrite (group_rois_step self (S fuel) br [] _ first read_roi rest) in Hrun
    by (done || (cbn [lists]; by rewrite lookup_insert_eq)).
  rewrite (filter_all _ _ Hall) in Hrun.
  rewrite filter_none in Hrun
    by (eapply Forall_impl; [exact Hall | intros r Hr Hn; by apply Hn]).
  rewrite group_rois_nil in Hrun by (cbn [lists]; by rewrite lookup_insert_eq).
  cbn [app lists trace user] in Hrun.
  set (j1 := (read self read_roi None None, read_roi, first :: rest)) in *.
  split.
  - destruct run as [o w'] eqn:Hrun'. symmetry in Hrun. cbn [snd].
    match type of Hrun with
    | ?m ?w2 = _ =>
        assert (Hk : Spec.preserves (fun w : world U => submits (trace w)) m)
    end.
    { apply preserves_bind.
      { apply preserves_deliver_jobs; intros;
          [apply submits_call | by apply submits_emit]. }
      intros _. destruct show_progress;
        [by apply submits_emit | apply preserves_ret]. }
    rewrite (Hk _ _ _ Hrun). cbn [trace]. rewrite submits_app. reflexivity.
  - intros buf u' calls Hbuf Hu.
    assert (Hd : Spec.delivered (Ok buf, read_roi, first :: rest) = calls)
      by reflexivity.
    match type of Hrun with
    | _ = _ ?w2 =>
        destruct (deliver_jobs_run callback_function show_progress
                    (Z.of_nat (length (first :: rest)))
                    [(Ok buf, read_roi, first :: rest)] []
                    (Z.of_nat (length (first :: rest))) w2 u')
          as (tr & n' & Hdj & Hcbs & Hsub)
    end.
    { repeat constructor. by eexists. }
    { cbn [mbind list_bind user]. by rewrite app_nil_r, Hd. }
    subst j1. rewrite Hbuf in Hrun.
    cbn [app] in Hdj. rewrite run_bind in Hrun.
    match type of Hdj with
    | _ = ?rhs =>
        match type of Hrun with
        | context [deliver_jobs ?a ?b ?c ?d ?e ?f] =>
            replace (deliver_jobs a b c d e f) with rhs in Hrun
              by (symmetry; exact Hdj)
        end
    end.
    cbn [deliver_jobs] in Hrun.
    change ((mret n' : M U Z) ?w3) with (Returns n', w3) in Hrun.
    cbn [mbind list_bind] in Hcbs. rewrite app_nil_r, Hd in Hcbs.
    destruct show_progress;
      [unfold emit in Hrun
      | change ((mret tt : M U unit) ?w3) with (Returns tt, w3) in Hrun];
      rewrite Hrun; cbn [fst snd lists trace user];
      (split; [done |]); (split; [| done]);
      rewrite !callbacks_app, Hcbs; cbn [callbacks omap app];
      by rewrite ?app_nil_r.
Qed.

End ProcessGroups.

Section ProcessRaise.

Import Rectangle.
Import TiffImage.

Context {U : Type}.

(** X9.  The callbacks are made in order until one raises: on ROIs within
    the bounds whose aligned regions can be read, there is a list of calls,
    one per requested ROI, such that the run makes them in order; if none
    raises it returns, and if one raises it raises the same exception right
    after that call, with no later call made and the state as the calls
    before left it. *)
Theorem process_rois_callback_raises
    (fuel : nat) (self : TiffImage.t) (bounds : Rect) (bsx bsy : Z) (nb : Z * Z)
    (requested_rois : positive) (l : list Rect)
    (callback_function : Rect -> ndarray3 -> U -> result U) (show_progress : bool)
    (w : world U) :
  whole_bounds self = Ok bounds ->
  block_info self 0 = Ok ((bsx, bsy), nb) ->
  0 < bsx -> 0 < bsy ->
  lists w !! requested_rois = Some l ->
  Forall (fun r => contains_rect bounds r = true) l ->
  (forall first read_roi,
     first ∈ l -> get_block_aligned_read_roi self first = Ok read_roi ->
     exists buf, read self read_roi None None = Ok buf) ->
  (length l < fuel)%nat ->
  exists (calls : list (Rect * ndarray3)) (o : outcome unit) (w' : world U),
    process_rois fuel self requested_rois callback_function show_progress w = (o, w')
    /\ calls.*1 ≡ₚ l
    /\ match Spec.apply_calls callback_function calls (user w) with
       | Ok u' =>
           o = Returns tt
           /\ callbacks (trace w') = callbacks (trace w) ++ calls
           /\ user w' = u'
       | Raise e =>
           o = Raises e
           /\ exists c1 x c2,
                calls = c1 ++ x :: c2
                /\ callbacks (trace w') = callbacks (trace w) ++ c1 ++ [x]
                /\ Spec.apply_calls callback_function c1 (user w) = Ok (user w')
                /\ callback_function x.1 x.2 (user w') = Raise e
       end.
Proof.
  intros Hb Hbi Hx Hy Hl Hin Hreads Hf.
  destruct (process_rois_grouped self bounds Hb callback_function show_progress
              bsx bsy nb Hbi Hx Hy fuel requested_rois l w Hl Hin Hf)
    as (js & Hperm & Hjobs & Hrun).
  pose proof (jobs_reads_succeed self l js Hperm Hjobs Hreads) as Hok.
  exists (js ≫= Spec.delivered).
  destruct (Spec.apply_calls callback_function (js ≫= Spec.delivered) (user w))
    as [u'|e] eqn:Hu.
  - match type of Hrun with
    | _ = _ ?w2 =>
        destruct (deliver_jobs_run callback_function show_progress
                    (Z.of_nat (length l)) js [] (Z.of_nat (length l)) w2 u' Hok Hu)
          as (tr & n' & Hd & Hcbs & Hsub)
    end.
    rewrite app_nil_r in Hd. rewrite run_bind, Hd in Hrun. cbn [deliver_jobs] in Hrun.
    change ((mret n' : M U Z) ?w3) with (Returns n', w3) in Hrun.
    cbn [lists trace user] in Hrun.
    destruct show_progress;
      [unfold emit in Hrun
      | change ((mret tt : M U unit) ?w3) with (Returns tt, w3) in Hrun];
      cbn [lists trace user] in Hrun;
      eexists _, _; (split; [exact Hrun |]);
      (split; [by rewrite delivered_fst |]);
      (split; [done |]); cbn [trace user]; (split; [| done]);
      rewrite !callbacks_app, callbacks_Submit, Hcbs; cbn [callbacks omap app];
      by rewrite ?app_nil_r.
  - match type of Hrun with
    | _ = _ ?w2 =>
        destruct (deliver_jobs_raise callback_function show_progress
                    (Z.of_nat (length l)) js (Z.of_nat (length l)) w2 e Hok Hu)
          as (tr & c1 & c2 & x & u1 & Hd & Hsplit & Hcbs & Hsub & Hc1 & Hxr)
    end.
    rewrite run_bind, Hd in Hrun.
    eexists _, _. split; [exact Hrun |].
    split; [by rewrite delivered_fst |].
    split; [done |]. exists c1, x, c2. cbn [trace user].
    split; [done |]. split; [| done].
    rewrite !callbacks_app, callbacks_Submit, Hcbs. by rewrite app_nil_r.
Qed.

(** X10.  A closed image serves nothing: after [close()] the accessors, the
    aligner, the band reader and [process_rois] raise the closed-image
    exception, [process_rois] leaving the lists, the trace and the caller's
    state untouched; closing again changes nothing. *)
Theorem closed_image_raises
    (self : TiffImage.t) (band : Z) (roi : Rect) (bands : list Z)
    (buf : option ndarray3) (fuel : nat) (requested_rois : positive)
    (callback_function : Rect -> ndarray3 -> U -> result U) (show_progress : bool)
    (w : world U) :
  let c := close self in
  close c = c
  /\ num_bands c = Raise ClosedSourceError
  /\ size c = Raise ClosedSourceError
  /\ block_info c band = Raise ClosedSourceError
  /\ get_block_aligned_read_roi c roi = Raise ClosedSourceError
  /\ _read c roi bands buf = Raise ClosedSourceError
  /\ process_rois fuel c requested_rois callback_function show_progress w
     = (Raises ClosedSourceError, w).
Proof. repeat split. Qed.

End ProcessRaise.

(** ** The band reader, further *)

Section ReaderMore.

Import Rectangle.
Import TiffImage.

Lemma np_transpose_120_item (buf : ndarray3) (x y k : Z) :
  item3 (np_transpose_120 buf) x y k = item3 buf k x y.
Proof. unfold np_transpose_120. by destruct (shape3 buf) as [[a b] c]. Qed.

Lemma _read_num_bands (self : TiffImage.t) (roi : Rect) (bands : list Z)
    (out : ndarray3) :
  _read self roi bands None = Ok out -> exists n, num_bands self = Ok n.
Proof.
  unfold _read. intros H. apply bind_Ok in H as (? & _ & H).
  destruct (num_bands self) as [n|e]; [by eexists | discriminate].
Qed.

(** The plane of the [k]-th listed band of what [_read] returns holds what
    the backend read for that band in the window of the region. *)
Lemma _read_items (self : TiffImage.t) (roi : Rect) (bands : list Z) (out : ndarray3) :
  _read self roi bands None = Ok out ->
  forall (k : nat) (b : Z),
    bands !! k = Some b ->
    exists band arr,
      _gdal_band self b = Ok band
      /\ ReadAsArray band (min_y roi) (min_x roi)
           (Rectangle.height roi) (Rectangle.width roi) = Some arr
      /\ forall x y, item3 out x y (Z.of_nat k) = arr x y.
Proof.
  intros H k b Hk. unfold _read in H.
  apply bind_Ok in H as (u0 & _ & H). apply bind_Ok in H as (buf0 & _ & H).
  apply bind_Ok in H as (buf1 & H1 & H). injection H as <-.
  destruct (_read_bands_items self roi bands 0 buf0 buf1 H1 k b Hk)
    as (band & arr & Hb & Ha & Hitems).
  exists band, arr. split; [done |]. split; [done |].
  intros x y. rewrite np_transpose_120_item. apply Hitems.
Qed.

(** X11.  Reading the aligned region and slicing gives the pixels of the
    ROI: on a backend whose window reads return the pixels of the window,
    the slice of the buffer of a region at offset [roi.min - region.min]
    has the shape and, band by band, the items of the buffer that a read of
    the ROI itself returns. *)
Theorem read_region_then_slice
    (self : TiffImage.t) (read_roi roi : Rect) (bands : list Z) (big small : ndarray3) :
  (forall b band, b ∈ bands -> _gdal_band self b = Ok band ->
                  exists pix, Laws.reads_pixels band pix) ->
  contains_rect read_roi roi = true ->
  wf roi ->
  _read self read_roi bands None = Ok big ->
  _read self roi bands None = Ok small ->
  let part := slice3 big (min_x roi - min_x read_roi)
                     (min_x roi - min_x read_roi + Rectangle.width roi)
                     (min_y roi - min_y read_roi)
                     (min_y roi - min_y read_roi + Rectangle.height roi) in
  shape3 part = shape3 small
  /\ forall (i j : Z) (k : nat),
       0 <= i < Rectangle.width roi -> 0 <= j < Rectangle.height roi ->
       (k < length bands)%nat ->
       item3 part i j (Z.of_nat k) = item3 small i j (Z.of_nat k).
Proof.
  intros Hpix Hc Hwf Hbig Hsmall part.
  destruct (_read_num_bands _ _ _ _ Hbig) as [n Hn].
  pose proof (_read_shape _ _ _ _ _ Hn Hbig) as Hsb.
  pose proof (_read_shape _ _ _ _ _ Hn Hsmall) as Hss.
  split.
  - subst part. fold (Spec.sub_buffer big read_roi roi).
    by rewrite (sub_buffer_shape big read_roi roi n), Hss.
  - intros i j k Hi Hj Hk.
    subst part. fold (Spec.sub_buffer big read_roi roi).
    rewrite (sub_buffer_item big read_roi roi n) by done.
    destruct (lookup_lt_is_Some_2 bands k Hk) as [b Hb].
    destruct (_read_items _ _ _ _ Hbig k b Hb) as (band & arr & Hband & Harr & Hitems).
    destruct (_read_items _ _ _ _ Hsmall k b Hb)
      as (band' & arr' & Hband' & Harr' & Hitems').
    assert (band' = band) by congruence. subst band'.
    destruct (Hpix b band) as [pix Hp]; [by eapply list_elem_of_lookup_2 | done |].
    rewrite Hitems, Hitems'.
    apply contains_rect_spec in Hc as (H1 & H2 & H3 & H4).
    unfold Rectangle.width, Rectangle.height in *.
    rewrite (Hp _ _ _ _ _ Harr) by lia.
    rewrite (Hp _ _ _ _ _ Harr') by lia.
    f_equal; lia.
Qed.

Lemma read_region_then_slice_witness :
  exists big small,
    _read Sample.image (Rectangle.mk 0 0 64 64) [0] None = Ok big
    /\ _read Sample.image (Rectangle.mk 10 10 20 30) [0] None = Ok small
    /\ shape3 (slice3 big 10 20 10 30) = shape3 small
    /\ forall (i j : Z) (k : nat),
         0 <= i < 10 -> 0 <= j < 20 -> (k < 1)%nat ->
         item3 (slice3 big 10 20 10 30) i j (Z.of_nat k) = item3 small i j (Z.of_nat k).
Proof.
  eexists _, _. split; [reflexivity |]. split; [reflexivity |].
  apply (read_region_then_slice Sample.image (Rectangle.mk 0 0 64 64)
           (Rectangle.mk 10 10 20 30) [0]);
    [| reflexivity | | reflexivity | reflexivity].
  - intros b band Hin Hb. apply list_elem_of_singleton in Hin as ->.
    vm_compute in Hb. injection Hb as <-.
    exists SampleMore.pixels. intros xoff yoff xsize ysize arr Harr r c _ _.
    cbn in Harr. by injection Harr as <-.
  - split; cbn; lia.
Defined.

End ReaderMore.

(** ** The scheduler, further: samples *)

Section ProcessMoreSamples.

Import TiffImage.

Lemma process_rois_empty_witness :
  exists w' : world nat,
    process_rois 1 Sample.image 1 Sample.count_calls true (Sample.world_of [])
    = (Returns tt, w')
    /\ submits (trace w') = []
    /\ callbacks (trace w') = []
    /\ user w' = 0%nat
    /\ lists w' !! 1%positive = Some [].
Proof.
  apply (process_rois_empty Sample.image (Rectangle.mk 0 0 100 100) eq_refl
           Sample.count_calls true 1 1 (Sample.world_of []));
    [reflexivity | lia].
Defined.

Lemma process_rois_submits_first_witness :
  exists (rs : list Rect) (tr : list event),
    trace (process_rois 5 Sample.image 1 Sample.count_calls true
             (Sample.world_of SampleMore.rois3)).2
    = [] ++ (Submit <$> rs) ++ tr
    /\ Forall Laws.not_submit tr.
Proof.
  apply (process_rois_submits_first Sample.image (Rectangle.mk 0 0 100 100)
           32 32 (4, 4) eq_refl eq_refl ltac:(lia) ltac:(lia)
           Sample.count_calls true 5 1 SampleMore.rois3 (Sample.world_of SampleMore.rois3));
    [reflexivity | repeat constructor | cbn; lia].
Defined.

Lemma process_rois_read_count_witness :
  exists rs : list Rect,
    submits (trace (process_rois 5 Sample.image 1 Sample.count_calls true
                      (Sample.world_of SampleMore.rois3)).2)
    = [] ++ rs
    /\ (length rs <= 3)%nat
    /\ (SampleMore.rois3 <> [] -> rs <> [])
    /\ Forall (fun r => Rectangle.contains_rect (Rectangle.mk 0 0 100 100) r = true) rs.
Proof.
  apply (process_rois_read_count Sample.image (Rectangle.mk 0 0 100 100)
           32 32 (4, 4) eq_refl eq_refl ltac:(lia) ltac:(lia)
           Sample.count_calls true 5 1 SampleMore.rois3 (Sample.world_of SampleMore.rois3));
    [reflexivity | repeat constructor | cbn; lia].
Defined.

Lemma process_rois_first_roi_first_witness :
  exists (read_roi : Rect) (rs : list Rect),
    get_block_aligned_read_roi Sample.image (Rectangle.mk 0 0 50 50) = Ok read_roi
    /\ submits (trace (process_rois 5 Sample.image 1 SampleMore.picky false
                         (Sample.world_of SampleMore.rois3)).2)
       = [] ++ read_roi :: rs.
Proof.
  destruct (process_rois_first_roi_first Sample.image (Rectangle.mk 0 0 100 100)
              32 32 (4, 4) eq_refl eq_refl ltac:(lia) ltac:(lia)
              SampleMore.picky false 5 1 (Rectangle.mk 0 0 50 50)
              [Rectangle.mk 60 60 100 100; Rectangle.mk 10 10 20 30]
              (Sample.world_of SampleMore.rois3))
    as (read_roi & rs & Hrr & Hsub & _);
    [reflexivity | repeat constructor | cbn; lia |].
  by exists read_roi, rs.
Defined.

Lemma process_rois_one_group_witness :
  let run := process_rois 2 Sample.image 1 Sample.count_calls false
               (Sample.world_of [Rectangle.mk 40 40 50 50; Rectangle.mk 33 33 40 40;
                                 Rectangle.mk 50 50 64 64]) in
  submits (trace run.2) = [] ++ [Rectangle.mk 32 32 64 64].
Proof.
  intros run.
  apply (process_rois_one_group Sample.image (Rectangle.mk 0 0 100 100) eq_refl
           Sample.count_calls false 2 1 (Rectangle.mk 40 40 50 50)
           [Rectangle.mk 33 33 40 40; Rectangle.mk 50 50 64 64]
           (Rectangle.mk 32 32 64 64)
           (Sample.world_of [Rectangle.mk 40 40 50 50; Rectangle.mk 33 33 40 40;
                             Rectangle.mk 50 50 64 64]));
    [reflexivity | repeat constructor | reflexivity | repeat constructor | lia].
Defined.

Lemma process_rois_callback_raises_witness :
  exists (calls : list (Rect * ndarray3)) (o : outcome unit) (w' : world nat),
    process_rois 5 Sample.image 1 SampleMore.picky false (Sample.world_of SampleMore.rois3)
    = (o, w')
    /\ calls.*1 ≡ₚ SampleMore.rois3.
Proof.
  destruct (process_rois_callback_raises 5 Sample.image (Rectangle.mk 0 0 100 100)
              32 32 (4, 4) 1 SampleMore.rois3 SampleMore.picky false (Sample.world_of SampleMore.rois3))
    as (calls & o & w' & Hrun & Hperm & _).
  - reflexivity.
  - reflexivity.
  - lia.
  - lia.
  - reflexivity.
  - repeat constructor.
  - intros first read_roi Hin Hal.
    repeat (apply elem_of_cons in Hin as [-> | Hin]);
      [| | | by apply elem_of_nil in Hin];
      vm_compute in Hal; injection Hal as <-; eexists; reflexivity.
  - cbn. lia.
  - by exists calls, o, w'.
Defined.

(** The run of the sample with the raising callback: the ROIs of the first
    group are delivered, the call for the ROI at 60 raises, nothing follows. *)
Example process_rois_picky_run :
  let run := process_rois 5 Sample.image 1 SampleMore.picky false
               (Sample.world_of SampleMore.rois3) in
  run.1 = Raises CallbackError
  /\ (callbacks (trace run.2)).*1
     = [Rectangle.mk 0 0 50 50; Rectangle.mk 10 10 20 30; Rectangle.mk 60 60 100 100]
  /\ user run.2 = 2%nat.
Proof. vm_compute. repeat split. Qed.

End ProcessMoreSamples.

(** ** Opening several files as one image *)

Section InitMore.

Import TiffImage.

Lemma band_map_lookup (hs : list Dataset) :
  forall (o k : nat),
    match (imap (fun i h => ((o + i)%nat, h)) hs
           ≫= fun ih : nat * Dataset =>
                (fun j : nat => (ih.1, Z.of_nat j + 1)) <$> seq 0 (length (bands ih.2)))
          !! k with
    | Some (i, b) =>
        exists h, (o <= i)%nat /\ hs !! (i - o)%nat = Some h
                  /\ GetRasterBand h b = concat (bands <$> hs) !! k
                  /\ is_Some (concat (bands <$> hs) !! k)
    | None => concat (bands <$> hs) !! k = None
    end.
Proof.
  induction hs as [|h hs IH]; intros o k; [done |].
  cbn [imap mbind list_bind fmap list_fmap concat fst snd].
  destruct (decide (k < length (bands h))%nat) as [Hk|Hk].
  - rewrite lookup_app_l by (by rewrite length_fmap, length_seq).
    rewrite list_lookup_fmap, lookup_seq_lt by done. cbn.
    rewrite lookup_app_l by done.
    destruct (lookup_lt_is_Some_2 (bands h) k Hk) as [band Hband].
    exists h. split; [lia |]. split; [by replace (o + 0 - o)%nat with 0%nat by lia |].
    split; [| by rewrite Hband].
    unfold GetRasterBand. destruct (Z.leb_spec 1 (Z.of_nat k + 1)); [| lia].
    f_equal. lia.
  - rewrite lookup_app_r by (rewrite length_fmap, length_seq; lia).
    rewrite length_fmap, length_seq.
    rewrite (lookup_app_r (bands h)) by lia.
    specialize (IH (S o) (k - length (bands h))%nat).
    rewrite (imap_ext _ (fun i h0 => ((S o + i)%nat, h0))) by (intros; cbn; f_equal; lia).
    destruct (_ !! _) as [[i b]|]; [| done].
    destruct IH as (h' & Ho & Hh' & Hg & Hs).
    exists h'. split; [lia |]. split; [| done].
    replace (i - o)%nat with (S (i - S o)) by lia. done.
Qed.

(** A negative index counts from the end of a list. *)
Lemma py_index_from_end {A} (l : list A) (k : nat) (a : A) :
  l !! k = Some a -> py_index l (Z.of_nat k - Z.of_nat (length l)) = Ok a.
Proof.
  intros H. pose proof (lookup_lt_Some _ _ _ H) as Hlt. unfold py_index.
  destruct (Z.ltb_spec (Z.of_nat k - Z.of_nat (length l)) 0); [| lia].
  replace (Z.of_nat k - Z.of_nat (length l) + Z.of_nat (length l))
    with (Z.of_nat k) by ring.
  destruct (Z.leb_spec 0 (Z.of_nat k)); [| lia].
  destruct (Z.ltb_spec (Z.of_nat k) (Z.of_nat (length l))); [| lia].
  cbn [andb]. by rewrite Nat2Z.id, H.
Qed.

Lemma py_index_beyond {A} (l : list A) (k : Z) :
  Z.of_nat (length l) <= k -> py_index l k = Raise IndexError.
Proof.
  intros H. unfold py_index.
  destruct (Z.ltb_spec k 0); [lia |].
  destruct (Z.ltb_spec k (Z.of_nat (length l))); [lia |].
  by rewrite andb_false_r.
Qed.

Lemma band_map_length (hs : list Dataset) :
  length (make_band_map hs) = length (concat (bands <$> hs)).
Proof.
  unfold make_band_map.
  assert (H : forall o : nat,
             length (imap (fun i h => ((o + i)%nat, h)) hs
                     ≫= fun ih : nat * Dataset =>
                          (fun j : nat => (ih.1, Z.of_nat j + 1))
                            <$> seq 0 (length (bands ih.2)))
             = length (concat (bands <$> hs))).
  { induction hs as [|h hs IH]; intros o; [done |].
    cbn [imap mbind list_bind fmap list_fmap concat fst snd].
    rewrite !length_app, length_fmap, length_seq. f_equal.
    rewrite (imap_ext _ (fun i h0 => ((S o + i)%nat, h0)))
      by (intros; cbn; f_equal; lia).
    apply IH. }
  apply (H 0%nat).
Qed.

(** X12.  Several files opened as one image have their bands in the order
    of the files: after [__init__] on opened datasets of one size, the image
    has as many bands as the files together, band [k] is the [k]-th band of
    the files laid end to end, a band index beyond them raises [IndexError],
    and a negative index counts from the last band. *)
Theorem init_bands_in_file_order (hs : list Dataset) (img : TiffImage.t) :
  init hs = Ok img ->
  let all := concat (bands <$> hs) in
  num_bands img = Ok (Z.of_nat (length all))
  /\ (forall (k : nat) (band : Band),
        all !! k = Some band -> _gdal_band img (Z.of_nat k) = Ok band)
  /\ (forall k : Z, Z.of_nat (length all) <= k -> _gdal_band img k = Raise IndexError)
  /\ (forall (k : nat) (band : Band),
        all !! k = Some band ->
        _gdal_band img (Z.of_nat k - Z.of_nat (length all)) = Ok band).
Proof.
  intros Hinit all. unfold init in Hinit.
  destruct (forallb _ hs); [| discriminate]. injection Hinit as <-.
  pose proof (band_map_length hs) as Hlen. fold all in Hlen.
  assert (Hres : forall (k : nat) (band : Band),
             all !! k = Some band ->
             exists i b h, make_band_map hs !! k = Some (i, b)
                           /\ hs !! i = Some h /\ GetRasterBand h b = Some band).
  { intros k band Hk. pose proof (band_map_lookup hs 0 k) as Hm.
    change (imap (fun i h => ((0 + i)%nat, h)) hs)
      with (imap (fun i h => (i, h)) hs) in Hm.
    fold (make_band_map hs) in Hm. fold all in Hm.
    destruct (make_band_map hs !! k) as [[i b]|]; [| congruence].
    destruct Hm as (h & _ & Hh & Hg & _).
    exists i, b, h. rewrite Nat.sub_0_r in Hh. split; [done |]. split; [done |].
    congruence. }
  assert (Hband : forall (k : nat) (band : Band),
             all !! k = Some band ->
             forall hb, make_band_map hs !! k = Some hb ->
                        (ds ← py_index hs (Z.of_nat hb.1);
                         match GetRasterBand ds hb.2 with
                         | Some ret => Ok ret
                         | None => Raise AssertionError
                         end) = Ok band).
  { intros k band Hk hb Hhb.
    destruct (Hres k band Hk) as (i & b & h & Hm & Hh & Hg).
    assert (hb = (i, b)) by congruence. subst hb. cbn [fst snd].
    by rewrite (py_index_nat _ _ _ Hh), bind_Ok_l, Hg. }
  split; [| split; [| split]].
  - unfold num_bands. cbn. by rewrite Hlen.
  - intros k band Hk.
    destruct (Hres k band Hk) as (i & b & h & Hm & Hh & Hg).
    unfold _gdal_band. cbn [_band_map _handles attr]. rewrite bind_Ok_l.
    rewrite (py_index_nat _ _ _ Hm), !bind_Ok_l.
    by apply (Hband k band Hk).
  - intros k Hk. unfold _gdal_band. cbn [_band_map _handles attr].
    rewrite bind_Ok_l, (py_index_beyond (make_band_map hs) k) by (rewrite Hlen; lia).
    reflexivity.
  - intros k band Hk.
    pose proof (lookup_lt_Some _ _ _ Hk) as Hlt.
    destruct (Hres k band Hk) as (i & b & h & Hm & Hh & Hg).
    unfold _gdal_band. cbn [_band_map _handles attr]. rewrite bind_Ok_l.
    rewrite <- Hlen, (py_index_from_end _ _ _ Hm), !bind_Ok_l.
    by apply (Hband k band Hk).
Qed.

Lemma init_bands_in_file_order_witness :
  exists img,
    init SampleFiles.two_files = Ok img
    /\ num_bands img = Ok 3
    /\ _gdal_band img 2 = Ok (Sample.band 8 8)
    /\ _gdal_band img 3 = Raise IndexError
    /\ _gdal_band img (-1) = Ok (Sample.band 8 8).
Proof.
  eexists. split; [reflexivity |].
  destruct (init_bands_in_file_order SampleFiles.two_files _ eq_refl)
    as (Hn & Hk & Hout & Hneg).
  split; [exact Hn |]. split; [exact (Hk 2%nat _ eq_refl) |].
  split; [apply Hout; cbn; lia |]. exact (Hneg 2%nat _ eq_refl).
Defined.

(** X13.  [__init__] accepts the opened datasets exactly when each has the
    pixel size of the first: then the image has that size, otherwise the
    construction raises the size-mismatch exception. *)
Theorem init_same_size (h0 : Dataset) (rest : list Dataset) :
  let same h := RasterXSize h = RasterXSize h0 /\ RasterYSize h = RasterYSize h0 in
  (Forall same rest ->
   exists img, init (h0 :: rest) = Ok img
               /\ size img = Ok (RasterYSize h0, RasterXSize h0))
  /\ (~ Forall same rest -> init (h0 :: rest) = Raise DimensionMismatchError).
Proof.
  intros same. unfold init.
  assert (Hb : forallb (fun h => (RasterXSize h =? RasterXSize h0)
                                 && (RasterYSize h =? RasterYSize h0)) (h0 :: rest)
               = true <-> Forall same rest).
  { rewrite forallb_forall, Forall_forall. cbn [In]. split.
    - intros H h Hh. apply list_elem_of_In in Hh.
      specialize (H h (or_intror Hh)).
      apply andb_true_iff in H as [H1 H2]. split; lia.
    - intros H h [<- | Hh]; [apply andb_true_iff; split; lia |].
      apply list_elem_of_In in Hh. destruct (H h Hh) as [H1 H2].
      apply andb_true_iff. split; lia. }
  destruct (forallb _ (h0 :: rest)) eqn:E.
  - split; [| intros Hn; exfalso; apply Hn; by apply Hb].
    intros _. eexists. split; reflexivity.
  - split; [| done]. intros Hs. apply Hb in Hs. discriminate.
Qed.

Lemma init_same_size_witness :
  (exists img, init SampleFiles.two_files = Ok img /\ size img = Ok (100, 100))
  /\ init (SampleFiles.two_files ++ [SampleFiles.odd_file])
     = Raise DimensionMismatchError.
Proof.
  split.
  - apply (init_same_size (Sample.dataset 100 100 [Sample.band 32 32; Sample.band 16 16])
             [Sample.dataset 100 100 [Sample.band 8 8]]).
    repeat constructor.
  - apply (init_same_size (Sample.dataset 100 100 [Sample.band 32 32; Sample.band 16 16])
             [Sample.dataset 100 100 [Sample.band 8 8]; SampleFiles.odd_file]).
    intros H. apply Forall_cons in H as [_ H]. apply Forall_cons in H as [[_ H] _].
    cbn in H. lia.
Defined.

End InitMore.

(** ** Division through a double *)

Section FloatCeil.

Import PyFloat.

Lemma round_half_even_near (n d : Z) :
  0 < d ->
  d * (2 * round_half_even n d - 1) <= 2 * n <= d * (2 * round_half_even n d + 1).
Proof.
  intros Hd. unfold round_half_even.
  pose proof (Z.div_mod n d ltac:(lia)) as Hdm.
  pose proof (Z.mod_pos_bound n d Hd) as Hr.
  destruct (Z.compare_spec (2 * (n mod d)) d) as [E|L|G].
  - destruct (Z.even (n / d)); nia.
  - nia.
  - nia.
Qed.

Lemma ceil_div_bounds (a b c : Z) :
  0 < b -> c = - ((- a) / b) -> (c - 1) * b < a <= c * b.
Proof.
  intros Hb ->.
  pose proof (Z.mul_div_le (- a) b Hb).
  pose proof (Z.mul_succ_div_gt (- a) b Hb).
  nia.
Qed.

Lemma ceil_unique (m P c : Z) :
  0 < P -> (c - 1) * P < m <= c * P -> - ((- m) / P) = c.
Proof.
  intros HP H.
  pose proof (Z.mul_div_le (- m) P HP).
  pose proof (Z.mul_succ_div_gt (- m) P HP).
  nia.
Qed.

(** Below 2^53 the ceiling of the double quotient is the ceiling of the
    quotient. *)
Lemma ceil_truediv_exact (a b : Z) :
  0 <= a < 2 ^ 53 -> 0 < b < 2 ^ 53 ->
  ceil_truediv a b = ceil_div a b.
Proof.
  intros Ha Hb. unfold ceil_truediv, truediv, ceil_div.
  destruct (Z.eqb_spec b 0) as [|_]; [lia |].
  destruct (Z.eqb_spec a 0) as [->|Ha0].
  { cbn. by rewrite Z.div_0_l by lia. }
  rewrite (Z.abs_eq a), (Z.abs_eq b) by lia.
  replace (Z.sgn a * Z.sgn b <? 0) with false
    by (symmetry; apply Z.ltb_ge; rewrite (Z.sgn_pos a), (Z.sgn_pos b) by lia; lia).
  unfold truediv_pos.
  set (S := a * 2 ^ 1200 / b).
  assert (H1200 : 0 < 2 ^ 1200) by (apply Z.pow_pos_nonneg; lia).
  assert (HS : S * b <= a * 2 ^ 1200 < (S + 1) * b).
  { subst S. pose proof (Z.mul_div_le (a * 2 ^ 1200) b ltac:(lia)).
    pose proof (Z.mul_succ_div_gt (a * 2 ^ 1200) b ltac:(lia)). nia. }
  assert (E53 : 2 ^ 1200 = 2 ^ 53 * 2 ^ 1147) by (rewrite <- Z.pow_add_r by lia; done).
  assert (H1147 : 0 < 2 ^ 1147) by (apply Z.pow_pos_nonneg; lia).
  assert (H53 : 0 < 2 ^ 53) by (apply Z.pow_pos_nonneg; lia).
  assert (HSlo : 2 ^ 1147 <= S) by nia.
  assert (HSpos : 0 < S) by lia.
  destruct (Z.log2_spec S HSpos) as [HL1 HL2].
  set (L := Z.log2 S) in *.
  assert (HLhi : L < 1253).
  { apply (Z.pow_lt_mono_r_iff 2); [lia | lia |].
    replace (2 ^ 1253) with (2 ^ 53 * 2 ^ 1200) by (rewrite <- Z.pow_add_r by lia; done).
    nia. }
  assert (HLlo : 1147 <= L).
  { assert (1147 < Z.succ L); [| lia].
    apply (Z.pow_lt_mono_r_iff 2); [lia | subst L; pose proof (Z.log2_nonneg S); lia |]. lia. }
  rewrite (Z.max_l (L - 1200 - 52) (- 1074)) by lia.
  set (k := 1252 - L).
  replace (- (L - 1200 - 52)) with k by (subst k; lia).
  replace (L - 1200 - 52) with (- k) by (subst k; lia).
  rewrite (Z.max_r 0 k), (Z.max_l 0 (- k)) by (subst k; lia).
  change (2 ^ 0) with 1. rewrite !Z.mul_1_r.
  set (P := 2 ^ k).
  assert (HP : 0 < P) by (apply Z.pow_pos_nonneg; subst k; lia).
  assert (HbP : b < 2 * P).
  { assert (E : 2 ^ 1253 = 2 ^ L * (2 * P)).
    { subst P. rewrite <- Z.pow_succ_r, <- Z.pow_add_r by (subst k; lia).
      f_equal. subst k. lia. }
    assert (E2 : 2 ^ 1253 = 2 ^ 53 * 2 ^ 1200) by (rewrite <- Z.pow_add_r by lia; done).
    assert (0 < 2 ^ L) by (apply Z.pow_pos_nonneg; lia).
    nia. }
  pose proof (round_half_even_near (a * P) b ltac:(lia)) as Hm.
  set (m := round_half_even (a * P) b) in *.
  set (c := - ((- a) / b)).
  pose proof (ceil_div_bounds a b c ltac:(lia) eq_refl) as Hc.
  assert (Hm1 : m <= c * P) by nia.
  assert (Hm2 : (c - 1) * P < m) by nia.
  assert (Hca : c <= a) by nia.
  assert (HP105 : P <= 2 ^ 105).
  { subst P. apply Z.pow_le_mono_r; subst k; lia. }
  assert (Hov : m < 2 ^ 1024).
  { assert (2 ^ 53 * 2 ^ 105 <= 2 ^ 1024)
      by (rewrite <- Z.pow_add_r by lia; apply Z.pow_le_mono_r; lia).
    assert (0 < 2 ^ 105) by (apply Z.pow_pos_nonneg; lia). nia. }
  destruct (Z.leb_spec (2 ^ 1024) m); [lia |].
  cbn [mbind result_bind mant expo]. unfold ceil. cbn [mant expo]. f_equal.
  destruct (Z.leb_spec 0 (- k)) as [Hk|Hk].
  - assert (k = 0) by (subst k; lia).
    assert (P = 1) by (subst P; replace k with 0; done).
    replace (- k) with 0 by lia. change (2 ^ 0) with 1. nia.
  - rewrite Z.opp_involutive. fold P. by apply ceil_unique.
Qed.

(** Beyond 2^53 the double loses the last bits of the quotient, and a
    divisor beyond the doubles makes the quotient 0.0. *)
Example ceil_truediv_beyond :
  ceil_truediv (2 ^ 53 + 1) 1 = Ok (2 ^ 53)
  /\ ceil_div (2 ^ 53 + 1) 1 = Ok (2 ^ 53 + 1)
  /\ ceil_truediv 10 (2 ^ 1100) = Ok 0
  /\ ceil_div 10 (2 ^ 1100) = Ok 1
  /\ ceil_truediv (2 ^ 1024) 1 = Raise OverflowError.
Proof. vm_compute. repeat split. Qed.

Lemma ceil_truediv_exact_nonneg (a b : Z) :
  0 <= a < 2 ^ 53 -> 0 <= b < 2 ^ 53 ->
  ceil_truediv a b = ceil_div a b.
Proof.
  intros Ha Hb. destruct (Z.eq_dec b 0) as [->|Hne].
  - reflexivity.
  - apply ceil_truediv_exact; lia.
Qed.

End FloatCeil.

(** ** The tile writer, further *)

Section WriterMore.

Import TiffWriter.

Lemma ceil_div_cover (a b : Z) :
  0 < b -> exists q, ceil_div a b = Ok q /\ (q - 1) * b < a <= q * b.
Proof.
  intros Hb. unfold ceil_div. destruct (Z.eqb_spec b 0); [lia |].
  eexists. split; [reflexivity |].
  pose proof (Z.mul_div_le (- a) b Hb).
  pose proof (Z.mul_succ_div_gt (- a) b Hb).
  nia.
Qed.

Lemma get_num_tiles_grid (self : t) :
  0 < _tile_width self -> 0 < _tile_height self ->
  exists nx ny,
    get_num_tiles self = Ok (nx, ny)
    /\ (nx - 1) * _tile_width self < _width self <= nx * _tile_width self
    /\ (ny - 1) * _tile_height self < _height self <= ny * _tile_height self.
Proof.
  intros Hw Hh. unfold get_num_tiles.
  destruct (ceil_div_cover (_width self) _ Hw) as (nx & -> & Hx).
  destruct (ceil_div_cover (_height self) _ Hh) as (ny & -> & Hy).
  by exists nx, ny.
Qed.

(** X14.  For a width, a height and tile sizes below 2^53 (GDAL takes
    them as C integers), the double that [get_num_tiles] divides through
    loses nothing: the counts are those of the exact ceiling, and with
    positive tile sizes they are the least that cover the image,
    [(nx - 1) * tile_w < width <= nx * tile_w] and the same along y; with a
    tile size of zero the call raises [ZeroDivisionError]. *)
Theorem get_num_tiles_covers (self : t) :
  0 <= _width self < 2 ^ 53 -> 0 <= _height self < 2 ^ 53 ->
  0 <= _tile_width self < 2 ^ 53 -> 0 <= _tile_height self < 2 ^ 53 ->
  (num_x ← PyFloat.ceil_truediv (_width self) (_tile_width self);
   num_y ← PyFloat.ceil_truediv (_height self) (_tile_height self);
   Ok (num_x, num_y)) = get_num_tiles self
  /\ (0 < _tile_width self -> 0 < _tile_height self ->
      exists nx ny,
        get_num_tiles self = Ok (nx, ny)
        /\ (nx - 1) * _tile_width self < _width self <= nx * _tile_width self
        /\ (ny - 1) * _tile_height self < _height self <= ny * _tile_height self)
  /\ (_tile_width self = 0 \/ _tile_height self = 0 ->
      get_num_tiles self = Raise ZeroDivisionError).
Proof.
  intros HW HH Htw Hth. split; [| split].
  - unfold get_num_tiles. by rewrite !ceil_truediv_exact_nonneg.
  - apply get_num_tiles_grid.
  - intros Hz. unfold get_num_tiles, ceil_div.
    destruct (Z.eqb_spec (_tile_width self) 0); [done |].
    destruct (Z.eqb_spec (_tile_height self) 0); [done | lia].
Qed.

Lemma get_num_tiles_covers_witness :
  (num_x ← PyFloat.ceil_truediv 10 4; num_y ← PyFloat.ceil_truediv 10 4; Ok (num_x, num_y))
  = get_num_tiles Sample.writer
  /\ exists nx ny,
       get_num_tiles Sample.writer = Ok (nx, ny)
       /\ (nx - 1) * 4 < 10 <= nx * 4
       /\ (ny - 1) * 4 < 10 <= ny * 4.
Proof.
  destruct (get_num_tiles_covers Sample.writer) as (Hfloat & Hcover & _);
    [cbn; lia | cbn; lia | cbn; lia | cbn; lia |].
  split; [exact Hfloat |]. apply Hcover; cbn; lia.
Defined.

(** X15.  No accepted block reaches beyond the image: with positive tile
    sizes, a [write_block] that returns has
    [block_x * tile_w + data.shape[0] <= width] and
    [block_y * tile_h + data.shape[1] <= height]. *)
Theorem write_block_inside_image
    (self self' : t) (data : ndarray2) (block_x block_y band : Z) :
  0 < _tile_width self -> 0 < _tile_height self ->
  write_block self data block_x block_y band = Ok self' ->
  block_x * _tile_width self + (shape2 data).1 <= _width self
  /\ block_y * _tile_height self + (shape2 data).2 <= _height self.
Proof.
  intros Hw Hh Hwb.
  destruct (get_num_tiles_grid self Hw Hh) as (nx & ny & Hnt & Hx & Hy).
  unfold write_block in Hwb. rewrite Hnt, bind_Ok_l in Hwb. cbn [fst snd] in Hwb.
  destruct (Z.geb_spec block_x nx) as [|Hbx]; [discriminate |].
  destruct (Z.geb_spec block_y ny) as [|Hby]; [discriminate |].
  cbn [orb] in Hwb.
  destruct ((block_x =? nx - 1) || (block_y =? ny - 1)) eqn:Hedge.
  - destruct (Z.gtb_spec (block_x * _tile_width self + (shape2 data).1) (_width self));
      [discriminate |].
    destruct (Z.gtb_spec (block_y * _tile_height self + (shape2 data).2) (_height self));
      [discriminate |].
    lia.
  - apply orb_false_iff in Hedge as [Ex Ey].
    apply Z.eqb_neq in Ex. apply Z.eqb_neq in Ey.
    destruct (Z.eqb_spec (shape2 data).1 (_tile_width self)) as [->|]; [| discriminate].
    destruct (Z.eqb_spec (shape2 data).2 (_tile_height self)) as [->|]; [| discriminate].
    nia.
Qed.

Lemma write_block_inside_image_witness :
  exists self',
    write_block Sample.writer (Sample.block 2 2) 2 2 0 = Ok self'
    /\ 2 * 4 + 2 <= 10 /\ 2 * 4 + 2 <= 10.
Proof.
  eexists. split; [reflexivity |].
  eapply (write_block_inside_image Sample.writer _ (Sample.block 2 2) 2 2 0);
    [cbn; lia | cbn; lia | reflexivity].
Defined.

End WriterMore.

(** ** block_info *)

Section BlockInfo.

Import TiffImage.

(** X24.  [block_info] returns GDAL's block size with its two extents
    swapped, and counts the blocks by pairing the first returned extent with
    the height and the second with the width: [num blocks x] is the least
    count of blocks of the first extent that covers [height()], [num blocks
    y] the least count of blocks of the second extent that covers
    [width()]. *)
Theorem block_info_counts (self : TiffImage.t) (band : Z) (band_handle : Band)
    (w h : Z) :
  size self = Ok (w, h) ->
  _gdal_band self band = Ok band_handle ->
  0 < (GetBlockSize band_handle).1 -> 0 < (GetBlockSize band_handle).2 ->
  exists nx ny,
    block_info self band
    = Ok (((GetBlockSize band_handle).2, (GetBlockSize band_handle).1), (nx, ny))
    /\ (nx - 1) * (GetBlockSize band_handle).2 < h <= nx * (GetBlockSize band_handle).2
    /\ (ny - 1) * (GetBlockSize band_handle).1 < w <= ny * (GetBlockSize band_handle).1.
Proof.
  intros Hsize Hband H0 H1. unfold block_info, height, width.
  assert (Hopen : __asert_open self = Ok tt).
  { unfold size in Hsize. by destruct (__asert_open self) as [[]|]. }
  rewrite Hopen, Hband, Hsize. rewrite !bind_Ok_l. cbn [fst snd].
  destruct (ceil_div_cover h _ H1) as (nx & -> & Hx).
  rewrite !bind_Ok_l. cbn [fst snd].
  destruct (ceil_div_cover w _ H0) as (ny & -> & Hy).
  rewrite !bind_Ok_l. by exists nx, ny.
Qed.

Lemma block_info_counts_witness :
  exists nx ny,
    block_info (SampleFiles.oblong_image) 0 = Ok ((16, 32), (nx, ny))
    /\ (nx - 1) * 16 < 60 <= nx * 16
    /\ (ny - 1) * 32 < 100 <= ny * 32.
Proof.
  apply (block_info_counts (SampleFiles.oblong_image) 0 (Sample.band 32 16) 100 60);
    [reflexivity | reflexivity | cbn; lia | cbn; lia].
Defined.

End BlockInfo.

(** ** write_tiff *)

Section WriteTiffFacts.

Import TiffWriter.
Import WriteTiff.






(** The file of the sample: two writes, of bands 1 and 2. *)
Example write_tiff_sample :
  (fun ds => (fun w => (wr_band w, wr_xoff w, wr_yoff w, shape2 (wr_data w),
                        item2 (wr_data w) 2 1))
               <$> out_writes ds)
    <$> (write_tiff true (Rank3 SampleArrays.cube)).2
  = Some [(1, 0, 0, (3, 2), 21); (2, 0, 0, (3, 2), 121)].
Proof. reflexivity. Qed.

End WriteTiffFacts.

(** ** convert_input_images_pbs.py: the list files *)

Section Chunks.

Context {A : Type}.

Lemma chunks_fuel (k : nat) (l : list A) :
  (0 < k)%nat ->
  forall fuel, (length l <= fuel)%nat ->
               PbsLaws.chunks fuel k l = PbsLaws.chunks (length l) k l.
Proof.
  intros Hk. remember (length l) as n eqn:Hn. revert l Hn.
  induction n as [n IH] using lt_wf_ind. intros l Hn fuel Hf.
  destruct l as [|a l].
  - cbn in Hn. subst n. by destruct fuel.
  - cbn [length] in Hn. destruct n as [|n]; [done |]. destruct fuel as [|fuel]; [lia |].
    cbn [PbsLaws.chunks]. f_equal.
    assert (Hd : (length (drop k (a :: l)) <= n)%nat) by (rewrite length_drop; cbn; lia).
    rewrite (IH (length (drop k (a :: l))) ltac:(lia) _ eq_refl fuel) by lia.
    by rewrite (IH (length (drop k (a :: l))) ltac:(lia) _ eq_refl n) by lia.
Qed.

Lemma chunks_cons (k : nat) (l : list A) :
  (0 < k)%nat -> l <> [] ->
  PbsLaws.chunks (length l) k l
  = take k l :: PbsLaws.chunks (length (drop k l)) k (drop k l).
Proof.
  intros Hk Hl. destruct l as [|a l]; [done |].
  cbn [length PbsLaws.chunks]. f_equal.
  apply chunks_fuel; [done |]. rewrite length_drop. cbn. lia.
Qed.

Lemma chunks_nil (fuel k : nat) : PbsLaws.chunks fuel k ([] : list A) = [].
Proof. by destruct fuel. Qed.

(** The pieces laid end to end are the list; no piece is empty or longer
    than [k]; every piece but the last has [k] elements. *)
Lemma chunks_spec (k : nat) (l : list A) :
  (0 < k)%nat ->
  let cs := PbsLaws.chunks (length l) k l in
  concat cs = l
  /\ Forall (fun c => (0 < length c <= k)%nat) cs
  /\ (forall j c, cs !! j = Some c -> (S j < length cs)%nat -> length c = k)
  /\ (l <> [] -> (length cs - 1) * k < length l)%nat
  /\ (length l <= length cs * k)%nat.
Proof.
  intros Hk. remember (length l) as n eqn:Hn. revert l Hn.
  induction n as [n IH] using lt_wf_ind. intros l -> cs.
  destruct (decide (l = [])) as [->|Hl].
  - subst cs. cbn. repeat split; try done; auto.
  - subst cs. rewrite (chunks_cons k l Hk Hl).
    assert (Hlen : (length (drop k l) < length l)%nat).
    { rewrite length_drop. destruct l; [done | cbn; lia]. }
    destruct (IH _ Hlen (drop k l) eq_refl) as (Hc & Hf & Hall & Hlo & Hhi).
    remember (PbsLaws.chunks (length (drop k l)) k (drop k l)) as cs' eqn:Ecs.
    assert (Htake : (0 < length (take k l) <= k)%nat).
    { rewrite length_take. destruct l; [done | cbn; lia]. }
    assert (Hnext : cs' <> [] -> (k < length l)%nat).
    { intros Hne. destruct (decide (k < length l)%nat); [done |].
      rewrite drop_ge, chunks_nil in Ecs by lia. done. }
    split; [| split; [| split; [| split]]].
    + cbn [concat]. by rewrite Hc, take_drop.
    + by constructor.
    + intros j c Hj Hlt. destruct j as [|j].
      * injection Hj as <-. rewrite length_take.
        assert (k < length l)%nat; [| lia].
        apply Hnext. intros ->. cbn in Hlt. lia.
      * cbn in Hj. apply (Hall j c Hj). cbn [length] in Hlt. lia.
    + intros _. cbn [length]. rewrite length_drop in Hlo, Hhi.
      destruct (decide (cs' = [])) as [->|Hne].
      * cbn. destruct l; [done | cbn; lia].
      * specialize (Hnext Hne).
        assert (Hd : drop k l <> []).
        { intros E. apply (f_equal length) in E. rewrite length_drop in E.
          cbn in E. lia. }
        specialize (Hlo Hd). destruct cs'; [done |]. cbn [length] in *. nia.
    + cbn [length]. rewrite length_drop in Hhi. nia.
Qed.

End Chunks.

(** *** The names of the list files *)

Section Names.

Lemma string_length_app (a b : string) :
  String.length (a +:+ b) = (String.length a + String.length b)%nat.
Proof.
  induction a as [|x a IH]; [done |].
  change (S (String.length (a +:+ b)) = S (String.length a + String.length b)).
  by rewrite IH.
Qed.

Lemma string_app_inv_tail (a b c : string) : a +:+ c = b +:+ c -> a = b.
Proof.
  revert b. induction a as [|x a IH]; intros [|y b] H; [done | | |].
  - apply (f_equal String.length) in H.
    change (String y b +:+ c) with (String y (b +:+ c)) in H.
    cbn [String.length] in H. rewrite !string_length_app in H.
    cbn [String.length] in H. lia.
  - apply (f_equal String.length) in H.
    change (String x a +:+ c) with (String x (a +:+ c)) in H.
    cbn [String.length] in H. rewrite !string_length_app in H.
    cbn [String.length] in H. lia.
  - change (String x (a +:+ c) = String y (b +:+ c)) in H.
    injection H as -> H. f_equal. by apply IH.
Qed.

Lemma list_file_name_inj (output_prefix : string) (j k : nat) :
  Pbs.list_file_name output_prefix j = Pbs.list_file_name output_prefix k -> j = k.
Proof.
  unfold Pbs.list_file_name. intros H.
  apply (inj (String.app output_prefix)) in H.
  apply string_app_inv_tail in H. by apply (inj pretty) in H.
Qed.

Lemma list_file_names_NoDup (output_prefix : string) (o n : nat) :
  NoDup (Pbs.list_file_name output_prefix <$> seq o n).
Proof.
  apply NoDup_fmap_2_strong; [| apply NoDup_seq].
  intros j k _ _. apply list_file_name_inj.
Qed.

End Names.

(** *** The disk *)

Section Disk.

Lemma written_disk_cons (disk : gmap string (list string)) p c ps cs :
  PbsLaws.written_disk disk (p :: ps) (c :: cs)
  = PbsLaws.written_disk (<[p := c]> disk) ps cs.
Proof. done. Qed.

Lemma written_disk_other (ps : list string) :
  forall (cs : list (list string)) (disk : gmap string (list string)) (p : string),
    p ∉ ps -> PbsLaws.written_disk disk ps cs !! p = disk !! p.
Proof.
  induction ps as [|q ps IH]; intros cs disk p Hp; [done |].
  destruct cs as [|c cs]; [done |]. rewrite written_disk_cons.
  apply not_elem_of_cons in Hp as [Hne Hp].
  rewrite IH by done. by rewrite lookup_insert_ne.
Qed.

Lemma written_disk_lookup (ps : list string) :
  forall (cs : list (list string)) (disk : gmap string (list string)) j p c,
    NoDup ps -> ps !! j = Some p -> cs !! j = Some c ->
    PbsLaws.written_disk disk ps cs !! p = Some c.
Proof.
  induction ps as [|q ps IH]; intros cs disk j p c Hnd Hp Hc; [done |].
  destruct cs as [|c0 cs]; [done |]. rewrite written_disk_cons.
  apply NoDup_cons in Hnd as [Hq Hnd]. destruct j as [|j].
  - cbn in Hp, Hc. injection Hp as ->. injection Hc as ->.
    rewrite written_disk_other by done. by rewrite lookup_insert_eq.
  - cbn in Hp, Hc. by eapply IH.
Qed.

End Disk.

(** *** The lines of the shuffle *)

Section Lines.

Variable file_list : list string.

Lemma shuffled_lines_fmap (order : list nat) :
  Forall (fun o => (o < length file_list)%nat) order ->
  Forall2 (fun o line => exists f, file_list !! o = Some f /\ line = f +:+ Pbs.newline)
          order (Pbs.shuffled_lines file_list order).
Proof.
  induction 1 as [|o order Ho _ IH]; [constructor |].
  unfold Pbs.shuffled_lines. cbn [omap list_omap].
  destruct (lookup_lt_is_Some_2 file_list o Ho) as [f Hf].
  rewrite Hf. cbn. constructor; [by exists f | exact IH].
Qed.

Lemma shuffled_lines_seq :
  Pbs.shuffled_lines file_list (seq 0 (length file_list))
  = (fun f => f +:+ Pbs.newline) <$> file_list.
Proof.
  unfold Pbs.shuffled_lines.
  assert (H : forall pre l, omap (fun i => (fun f => f +:+ Pbs.newline) <$> (pre ++ l) !! i)
                             (seq (length pre) (length l))
                        = (fun f => f +:+ Pbs.newline) <$> l).
  { intros pre l. revert pre. induction l as [|a l IH]; intros pre; [done |].
    cbn [length seq omap list_omap].
    rewrite (lookup_app_r pre) by lia. rewrite Nat.sub_diag. cbn.
    f_equal. specialize (IH (pre ++ [a])).
    rewrite length_app, <- app_assoc in IH. cbn in IH.
    by rewrite Nat.add_1_r in IH. }
  apply (H [] file_list).
Qed.

Variable order : list nat.
Hypothesis Horder : order ≡ₚ seq 0 (length file_list).

Lemma order_length : length order = length file_list.
Proof. by rewrite Horder, length_seq. Qed.

Lemma order_in_range : Forall (fun o => (o < length file_list)%nat) order.
Proof.
  apply Forall_forall. intros o Ho. rewrite Horder in Ho.
  apply elem_of_seq in Ho. lia.
Qed.

Lemma shuffled_lines_length :
  length (Pbs.shuffled_lines file_list order) = length file_list.
Proof.
  rewrite <- (Forall2_length _ _ _ (shuffled_lines_fmap order order_in_range)).
  apply order_length.
Qed.

Lemma shuffled_lines_Permutation :
  Pbs.shuffled_lines file_list order ≡ₚ (fun f => f +:+ Pbs.newline) <$> file_list.
Proof.
  rewrite <- shuffled_lines_seq. unfold Pbs.shuffled_lines. by rewrite Horder.
Qed.

(** One turn of the inner loop reads the next line of the shuffle. *)
Lemma shuffled_lines_index (i : nat) :
  (i < length file_list)%nat ->
  exists o f, py_index (Z.of_nat <$> order) (Z.of_nat i) = Ok (Z.of_nat o)
              /\ py_index file_list (Z.of_nat o) = Ok f
              /\ Pbs.shuffled_lines file_list order !! i = Some (f +:+ Pbs.newline).
Proof.
  intros Hi. rewrite <- order_length in Hi.
  destruct (lookup_lt_is_Some_2 order i Hi) as [o Ho].
  pose proof (shuffled_lines_fmap order order_in_range) as HF.
  destruct (Forall2_lookup_l _ _ _ _ _ HF Ho) as (line & Hline & f & Hf & ->).
  exists o, f. split; [| split; [| done]].
  - apply py_index_nat. by rewrite list_lookup_fmap, Ho.
  - by apply py_index_nat.
Qed.

End Lines.

(** *** The two loops of write_input_files *)

Section Loops.

Variables (file_list : list string) (order : list nat).
Hypothesis Horder : order ≡ₚ seq 0 (length file_list).

Let n := length file_list.
Let lines := Pbs.shuffled_lines file_list order.
Let indices := Z.of_nat <$> order.

(** The inner loop writes the next lines of the shuffle until the file is
    full or the lines are used up. *)
Lemma write_lines_run (fpj : Z) :
  forall (fuel : nat) (c : Z) (i : nat) (written : list string),
    (i < n)%nat ->
    (Nat.min (Z.to_nat (fpj - c)) (n - i) < fuel)%nat ->
    Pbs.write_lines fuel file_list indices fpj c (Z.of_nat i) written
    = (Pbs.Done (Z.of_nat (i + Nat.min (Z.to_nat (fpj - c)) (n - i))),
       written ++ take (Nat.min (Z.to_nat (fpj - c)) (n - i)) (drop i lines)).
Proof.
  induction fuel as [|fuel IH]; intros c i written Hi Hfuel; [lia |].
  cbn [Pbs.write_lines]. destruct (Z.ltb_spec c fpj) as [Hc|Hc].
  - destruct (shuffled_lines_index file_list order Horder i Hi) as (o & f & Ho & Hf & Hline).
    unfold indices. rewrite Ho, Hf. fold indices. fold lines in Hline. fold n.
    rewrite (drop_S _ _ _ Hline).
    replace (Z.of_nat i + 1) with (Z.of_nat (S i)) by lia.
    rewrite Z.geb_leb. destruct (Z.leb_spec (Z.of_nat n) (Z.of_nat (S i))) as [Hn|Hn].
    + replace (Nat.min (Z.to_nat (fpj - c)) (n - i)) with 1%nat by lia.
      cbn [take]. rewrite take_0. do 2 f_equal. lia.
    + rewrite IH by lia.
      replace (Nat.min (Z.to_nat (fpj - c)) (n - i))
        with (S (Nat.min (Z.to_nat (fpj - (c + 1))) (n - S i))) by lia.
      cbn [take]. rewrite <- app_assoc. cbn [app]. do 3 f_equal. lia.
  - replace (Nat.min (Z.to_nat (fpj - c)) (n - i)) with 0%nat by lia.
    rewrite take_0, app_nil_r. do 2 f_equal. lia.
Qed.

Lemma lines_length : length lines = n.
Proof. apply shuffled_lines_length, Horder. Qed.

(** The outer loop writes the pieces of the shuffle one file after the
    other. *)
Lemma write_files_run (fpj : Z) (output_prefix : string) :
  0 < fpj ->
  forall (fuel i : nat) (outs : list string) (disk : gmap string (list string)),
    (i <= n)%nat -> (n - i < fuel)%nat ->
    Pbs.write_files fuel file_list indices fpj output_prefix outs (Z.of_nat i) disk
    = (Pbs.Done (outs ++ (Pbs.list_file_name output_prefix
                            <$> seq (length outs)
                                    (length (PbsLaws.chunks (n - i) (Z.to_nat fpj) (drop i lines))))),
       PbsLaws.written_disk disk
         (Pbs.list_file_name output_prefix
            <$> seq (length outs)
                    (length (PbsLaws.chunks (n - i) (Z.to_nat fpj) (drop i lines))))
         (PbsLaws.chunks (n - i) (Z.to_nat fpj) (drop i lines))).
Proof.
  intros Hfpj. induction fuel as [|fuel IH]; intros i outs disk Hi Hfuel; [lia |].
  cbn [Pbs.write_files]. fold n.
  destruct (Z.ltb_spec (Z.of_nat i) (Z.of_nat n)) as [Hlt|Hge].
  - assert (Hi' : (i < n)%nat) by lia.
    rewrite (write_lines_run fpj (S n) 0 i [] Hi') by lia.
    set (k := Nat.min (Z.to_nat (fpj - 0)) (n - i)).
    assert (Hk : (0 < k)%nat) by (subst k; lia).
    assert (Hlen : length (drop i lines) = (n - i)%nat)
      by (rewrite length_drop, lines_length; done).
    assert (Hne : drop i lines <> []).
    { intros E. rewrite E in Hlen. cbn in Hlen. lia. }
    rewrite IH by lia.
    rewrite <- Hlen at 1 2 3.
    rewrite (chunks_cons (Z.to_nat fpj) (drop i lines)) by (done || lia).
    assert (Htake : take (Z.to_nat fpj) (drop i lines) = take k (drop i lines)).
    { subst k. rewrite Z.sub_0_r.
      destruct (Nat.le_gt_cases (Z.to_nat fpj) (n - i)).
      - by rewrite Nat.min_l.
      - rewrite Nat.min_r by lia. by rewrite !take_ge by lia. }
    assert (Hdrop : drop (Z.to_nat fpj) (drop i lines) = drop (i + k) lines).
    { rewrite drop_drop. subst k. rewrite Z.sub_0_r.
      destruct (Nat.le_gt_cases (Z.to_nat fpj) (n - i)).
      - by rewrite Nat.min_l.
      - rewrite Nat.min_r by lia. by rewrite !drop_ge by (rewrite lines_length; lia). }
    rewrite Htake, Hdrop.
    assert (Hlen' : length (drop (i + k) lines) = (n - (i + k))%nat)
      by (rewrite length_drop, lines_length; done).
    rewrite Hlen'.
    cbn [length seq fmap list_fmap]. rewrite length_app. cbn [length].
    rewrite Nat.add_1_r, <- app_assoc. cbn [app].
    rewrite written_disk_cons. cbn [app]. done.
  - replace (n - i)%nat with 0%nat by lia. cbn. by rewrite app_nil_r.
Qed.

End Loops.

Section WriteInputFiles.

Variables (file_list : list string) (order : list nat).
Hypothesis Horder : order ≡ₚ seq 0 (length file_list).
Variables (files_per_job : Z) (output_prefix : string).
Hypothesis Hfpj : 0 < files_per_job.

Lemma write_input_files_run (fuel : nat) (disk : gmap string (list string)) :
  (length file_list < fuel)%nat ->
  Pbs.write_input_files fuel (Z.of_nat <$> order) file_list files_per_job
                        output_prefix disk
  = (Pbs.Done (Pbs.list_file_name output_prefix
                 <$> seq 0 (length (PbsLaws.chunks (length file_list)
                                      (Z.to_nat files_per_job)
                                      (Pbs.shuffled_lines file_list order)))),
     PbsLaws.written_disk disk
       (Pbs.list_file_name output_prefix
          <$> seq 0 (length (PbsLaws.chunks (length file_list)
                               (Z.to_nat files_per_job)
                               (Pbs.shuffled_lines file_list order))))
       (PbsLaws.chunks (length file_list) (Z.to_nat files_per_job)
          (Pbs.shuffled_lines file_list order))).
Proof.
  intros Hfuel. unfold Pbs.write_input_files.
  pose proof (write_files_run file_list order Horder files_per_job output_prefix
                Hfpj fuel 0 [] disk ltac:(lia) ltac:(lia)) as H.
  cbn [Z.of_nat length app] in H. rewrite Nat.sub_0_r, drop_0 in H. exact H.
Qed.

End WriteInputFiles.

Section ReadFiles.

Lemma read_files_written (ps : list string) (cs : list (list string))
    (disk : gmap string (list string)) :
  NoDup ps -> length ps = length cs ->
  PbsLaws.read_files (PbsLaws.written_disk disk ps cs) ps = cs.
Proof.
  intros Hnd Hlen. unfold PbsLaws.read_files.
  assert (HF : Forall2 (fun p c => PbsLaws.written_disk disk ps cs !! p = Some c) ps cs).
  { apply Forall2_same_length_lookup_2; [done |].
    intros j p c Hp Hc. by eapply written_disk_lookup. }
  revert HF. generalize (PbsLaws.written_disk disk ps cs). intros d HF.
  clear Hnd Hlen. induction HF as [|p c ps' cs' Hpc _ IH]; [done |].
  cbn [omap list_omap]. rewrite Hpc. cbn. f_equal. apply IH.
Qed.

End ReadFiles.

Section WriteInputFilesFacts.

(** X17.  [write_input_files]: with a positive [files_per_job], whatever
    order the shuffle leaves, the function returns the names
    [output_prefix + str(k) + '.txt'] for [k = 0, 1, ...], which are
    distinct; the files of these names, read one after the other, hold the
    lines of the shuffle, so every input path is listed exactly once; and
    no other path of the disk is written. *)
Theorem write_input_files_covers (file_list : list string) (order : list nat)
    (files_per_job : Z) (output_prefix : string)
    (disk : gmap string (list string)) (fuel : nat) :
  order ≡ₚ seq 0 (length file_list) ->
  0 < files_per_job ->
  (length file_list < fuel)%nat ->
  exists outs disk',
    Pbs.write_input_files fuel (Z.of_nat <$> order) file_list files_per_job
                          output_prefix disk = (Pbs.Done outs, disk')
    /\ outs = Pbs.list_file_name output_prefix <$> seq 0 (length outs)
    /\ NoDup outs
    /\ length (PbsLaws.read_files disk' outs) = length outs
    /\ concat (PbsLaws.read_files disk' outs) = Pbs.shuffled_lines file_list order
    /\ concat (PbsLaws.read_files disk' outs)
         ≡ₚ (fun f => f +:+ Pbs.newline) <$> file_list
    /\ (forall p, p ∉ outs -> disk' !! p = disk !! p).
Proof.
  intros Horder Hfpj Hfuel.
  rewrite (write_input_files_run file_list order Horder files_per_job
             output_prefix Hfpj fuel disk Hfuel).
  set (lines := Pbs.shuffled_lines file_list order).
  set (cs := PbsLaws.chunks (length file_list) (Z.to_nat files_per_job) lines).
  set (outs := Pbs.list_file_name output_prefix <$> seq 0 (length cs)).
  assert (Hlen : length outs = length cs)
    by (subst outs; by rewrite length_fmap, length_seq).
  assert (Hnd : NoDup outs) by apply list_file_names_NoDup.
  assert (Hcat : concat cs = lines).
  { subst cs. rewrite <- (shuffled_lines_length file_list order Horder).
    apply (chunks_spec (Z.to_nat files_per_job) lines). lia. }
  eexists outs, _. split; [reflexivity |].
  rewrite read_files_written by done.
  repeat split.
  - by rewrite Hlen.
  - done.
  - done.
  - done.
  - rewrite Hcat. by apply shuffled_lines_Permutation.
  - intros p Hp. by apply written_disk_other.
Qed.

(** X18.  [write_input_files]: with a positive [files_per_job], every list
    file holds at least one line and at most [files_per_job]; every list
    file but the last holds exactly [files_per_job]; so the number of list
    files is the number of input files divided by [files_per_job], rounded
    up. *)
Theorem write_input_files_sizes (file_list : list string) (order : list nat)
    (files_per_job : Z) (output_prefix : string)
    (disk : gmap string (list string)) (fuel : nat) :
  order ≡ₚ seq 0 (length file_list) ->
  0 < files_per_job ->
  (length file_list < fuel)%nat ->
  exists outs disk',
    Pbs.write_input_files fuel (Z.of_nat <$> order) file_list files_per_job
                          output_prefix disk = (Pbs.Done outs, disk')
    /\ length (PbsLaws.read_files disk' outs) = length outs
    /\ Forall (fun c => 0 < Z.of_nat (length c) <= files_per_job)
              (PbsLaws.read_files disk' outs)
    /\ (forall j c, PbsLaws.read_files disk' outs !! j = Some c ->
                    (S j < length outs)%nat ->
                    Z.of_nat (length c) = files_per_job)
    /\ (file_list <> [] ->
        (Z.of_nat (length outs) - 1) * files_per_job < Z.of_nat (length file_list))
    /\ Z.of_nat (length file_list) <= Z.of_nat (length outs) * files_per_job.
Proof.
  intros Horder Hfpj Hfuel.
  rewrite (write_input_files_run file_list order Horder files_per_job
             output_prefix Hfpj fuel disk Hfuel).
  set (lines := Pbs.shuffled_lines file_list order).
  assert (Hlines : length lines = length file_list)
    by apply (shuffled_lines_length file_list order Horder).
  rewrite <- Hlines.
  set (cs := PbsLaws.chunks (length lines) (Z.to_nat files_per_job) lines).
  set (outs := Pbs.list_file_name output_prefix <$> seq 0 (length cs)).
  assert (Hlen : length outs = length cs)
    by (subst outs; by rewrite length_fmap, length_seq).
  assert (Hnd : NoDup outs) by apply list_file_names_NoDup.
  destruct (chunks_spec (Z.to_nat files_per_job) lines ltac:(lia))
    as (_ & Hall & Hfull & Hlo & Hhi).
  fold cs in Hall, Hfull, Hlo, Hhi.
  eexists outs, _. split; [reflexivity |].
  rewrite read_files_written by done. rewrite Hlen.
  split; [done |]. split; [| split; [| split]].
  - eapply Forall_impl; [exact Hall |]. cbn. intros c Hc. lia.
  - intros j c Hj Hlt. rewrite (Hfull j c Hj Hlt). lia.
  - intros Hne. assert (Hl : lines <> []).
    { intros E. rewrite E in Hlines. destruct file_list; done. }
    specialize (Hlo Hl). nia.
  - nia.
Qed.

Lemma write_files_stuck (file_list : list string) (indices : list Z)
    (files_per_job : Z) (output_prefix : string) :
  file_list <> [] -> files_per_job <= 0 ->
  forall (fuel : nat) (outs : list string) (disk : gmap string (list string)),
    Pbs.write_files fuel file_list indices files_per_job output_prefix outs 0 disk
    = (Pbs.Loops,
       PbsLaws.written_disk disk
         (Pbs.list_file_name output_prefix <$> seq (length outs) fuel)
         (replicate fuel [])).
Proof.
  intros Hne Hfpj. induction fuel as [|fuel IH]; intros outs disk; [done |].
  cbn [Pbs.write_files Pbs.write_lines].
  destruct (Z.ltb_spec 0 (Z.of_nat (length file_list))) as [_|Hn].
  - destruct (Z.ltb_spec 0 files_per_job) as [|_]; [lia |].
    rewrite IH, length_app. cbn [length]. rewrite Nat.add_1_r. done.
  - destruct file_list; [done | cbn in Hn; lia].
Qed.

(** X19.  [write_input_files]: when [files_per_job] is zero or negative and
    there is an input file, the function never returns: the inner loop
    writes nothing, [input_iter] stays at zero, and every turn of the outer
    loop leaves one more empty list file. *)
Theorem write_input_files_never_returns (file_list : list string)
    (indices : list Z) (files_per_job : Z) (output_prefix : string)
    (disk : gmap string (list string)) (fuel : nat) :
  file_list <> [] -> files_per_job <= 0 ->
  (Pbs.write_input_files fuel indices file_list files_per_job output_prefix disk).1
  = Pbs.Loops
  /\ forall k, (k < fuel)%nat ->
       (Pbs.write_input_files fuel indices file_list files_per_job output_prefix disk).2
         !! Pbs.list_file_name output_prefix k = Some [].
Proof.
  intros Hne Hfpj. unfold Pbs.write_input_files.
  rewrite (write_files_stuck file_list indices files_per_job output_prefix Hne Hfpj).
  split; [done |]. intros k Hk. cbn [snd length].
  apply (written_disk_lookup _ _ _ k).
  - apply list_file_names_NoDup.
  - rewrite list_lookup_fmap, lookup_seq_lt by done. done.
  - by apply lookup_replicate_2.
Qed.

End WriteInputFilesFacts.

(** ** convert_input_images_pbs.py: submitBatchJobs *)

Section SubmitBatchJobs.

Context {J : Type}.
Variables (submitJob : Pbs.job -> J) (python_path : string).

Lemma submitted_app (tr1 tr2 : list Pbs.event) :
  Pbs.submitted (tr1 ++ tr2) = Pbs.submitted tr1 ++ Pbs.submitted tr2.
Proof. apply omap_app. Qed.

(** With a string to pass along, the loop submits one job per list file,
    in order. *)
Lemma submit_loop_str (opts : Pbs.options) (numProcesses maxHours : Z) (s : string) :
  forall (list_files : list string) (index : nat) (jobIDs : list J)
         (tr : list Pbs.event),
  exists js tr',
    Pbs.submit_loop submitJob opts numProcesses maxHours python_path (Pbs.ArgStr s)
                    list_files index jobIDs tr
    = (Pbs.Done (jobIDs ++ (submitJob <$> js)), tr')
    /\ Pbs.submitted tr' = Pbs.submitted tr ++ js
    /\ length js = length list_files
    /\ forall k f, list_files !! k = Some f ->
         exists j, js !! k = Some j
           /\ Pbs.job_name j = "DELTA_CI" +:+ Pbs.format_05d (index + k)
           /\ Pbs.job_command j
               = "convert_input_image_folder.py" +:+ " "
                 +:+ ("--input-file-list " +:+ f +:+ "  --num-processes "
                      +:+ pretty numProcesses) +:+ s
           /\ Pbs.job_log_prefix j
               = Pbs.path_join (Pbs.output_folder opts) (Pbs.job_name j)
           /\ Pbs.job_maxHours j = maxHours
           /\ Pbs.job_node_type j = Pbs.node_type opts.
Proof.
  induction list_files as [|f0 rest IH]; intros index jobIDs tr.
  - exists [], tr. cbn. rewrite !app_nil_r. repeat split; try done.
  - cbn [Pbs.submit_loop Pbs.str_iadd].
    match goal with
    | |- context [Pbs.submit_loop _ _ _ _ _ _ rest (S index) (jobIDs ++ [submitJob ?j]) ?t] =>
        destruct (IH (S index) (jobIDs ++ [submitJob j]) t)
          as (js & tr' & -> & Hsub & Hlen & Hjobs);
        exists (j :: js), tr'
    end.
    split; [by rewrite <- app_assoc |]. split; [| split].
    + rewrite Hsub, !submitted_app. cbn. by rewrite <- !app_assoc.
    + cbn. by rewrite Hlen.
    + intros [|k] f Hf.
      * cbn in Hf. injection Hf as <-. eexists. split; [reflexivity |].
        cbn. rewrite Nat.add_0_r. done.
      * cbn in Hf. destruct (Hjobs k f Hf) as (j & Hj & Hname & Hrest).
        exists j. split; [exact Hj |].
        replace (index + S k)%nat with (S index + k)%nat by lia. by split.
Qed.

(** X20.  [submitBatchJobs]: for a node type [getParallelParams] knows and a
    string to pass along, one job is submitted per list file, in the order
    of the list; the job of the [k]-th list file is named [DELTA_CI]
    followed by [k] on five digits, runs the conversion script on that list
    file with the process count of the node type, and the result is the
    list of the identifiers in the same order. *)
Theorem submitBatchJobs_one_job_per_list_file (list_files : list string)
    (opts : Pbs.options) (s : string) (numProcesses tasksPerJob maxHours : Z) :
  Pbs.getParallelParams (Pbs.node_type opts)
  = Pbs.Done (numProcesses, tasksPerJob, maxHours) ->
  exists js tr,
    Pbs.submitBatchJobs submitJob python_path list_files opts (Pbs.ArgStr s)
    = (Pbs.Done (submitJob <$> js), tr)
    /\ Pbs.submitted tr = js
    /\ length js = length list_files
    /\ forall k f, list_files !! k = Some f ->
         exists j, js !! k = Some j
           /\ Pbs.job_name j = "DELTA_CI" +:+ Pbs.format_05d k
           /\ Pbs.job_command j
               = "convert_input_image_folder.py" +:+ " "
                 +:+ ("--input-file-list " +:+ f +:+ "  --num-processes "
                      +:+ pretty numProcesses) +:+ s
           /\ Pbs.job_log_prefix j
               = Pbs.path_join (Pbs.output_folder opts) (Pbs.job_name j)
           /\ Pbs.job_maxHours j = maxHours
           /\ Pbs.job_node_type j = Pbs.node_type opts.
Proof.
  intros Hp. unfold Pbs.submitBatchJobs. rewrite Hp.
  match goal with
  | |- context [Pbs.submit_loop _ _ _ _ _ _ _ 0 [] ?t] =>
      destruct (submit_loop_str opts numProcesses maxHours s list_files 0 [] t)
        as (js & tr' & -> & Hsub & Hlen & Hjobs)
  end.
  exists js, tr'. repeat split; try done.
Qed.

Lemma submit_loop_list (opts : Pbs.options) (numProcesses maxHours : Z)
    (l : list string) (list_files : list string) (index : nat) (jobIDs : list J)
    (tr : list Pbs.event) :
  list_files <> [] ->
  Pbs.submit_loop submitJob opts numProcesses maxHours python_path (Pbs.ArgList l)
                  list_files index jobIDs tr
  = (Pbs.Fails (Pbs.Builtin TypeError), tr).
Proof. by destruct list_files. Qed.

Lemma getParallelParams_positive (nodeType : string) (numProcesses tasksPerJob maxHours : Z) :
  Pbs.getParallelParams nodeType = Pbs.Done (numProcesses, tasksPerJob, maxHours) ->
  0 < numProcesses /\ 0 < tasksPerJob /\ 0 < maxHours.
Proof.
  unfold Pbs.getParallelParams.
  repeat match goal with
         | |- context [String.eqb ?a ?b] => destruct (String.eqb a b)
         end; intros H; try discriminate H; injection H as <- <- <-; lia.
Qed.

(** X21.  [submitBatchJobs]: when [pass_along_args] is a list, as [main]
    builds it, and there is a list file, [args += pass_along_args] raises
    [TypeError] in the first turn of the loop: the call fails and no job is
    submitted. *)
Theorem submitBatchJobs_list_args (list_files : list string) (opts : Pbs.options)
    (l : list string) (p : Z * Z * Z) :
  list_files <> [] ->
  Pbs.getParallelParams (Pbs.node_type opts) = Pbs.Done p ->
  (Pbs.submitBatchJobs submitJob python_path list_files opts (Pbs.ArgList l)).1
  = Pbs.Fails (Pbs.Builtin TypeError)
  /\ Pbs.submitted
       (Pbs.submitBatchJobs submitJob python_path list_files opts (Pbs.ArgList l)).2
     = [].
Proof.
  intros Hne Hp. unfold Pbs.submitBatchJobs. rewrite Hp.
  destruct p as [[np tpj] mh]. by rewrite submit_loop_list.
Qed.

(** X22.  [submitBatchJobs]: for a node type that [getParallelParams] does
    not know, the exception of [getParallelParams] leaves the function
    before anything is printed, [which] is started or a job is
    submitted. *)
Theorem submitBatchJobs_unknown_node_type (list_files : list string)
    (opts : Pbs.options) (pass_along_args : Pbs.py_args) :
  Pbs.node_type opts ∉ ["san"; "ivy"; "has"; "bro"; "wes"] ->
  Pbs.submitBatchJobs submitJob python_path list_files opts pass_along_args
  = (Pbs.Fails (Pbs.Exception ("No params defined for node type "
                                +:+ Pbs.node_type opts)), []).
Proof.
  intros Hnt. unfold Pbs.submitBatchJobs, Pbs.getParallelParams.
  repeat match goal with
         | |- context [String.eqb ?a ?b] =>
             destruct (String.eqb_spec a b) as [E|_];
             [exfalso; apply Hnt; rewrite E; set_solver |]
         end.
  done.
Qed.

(** X23.  The split and the submission as [main] chains them: with the
    [tasksPerJob] of a known node type as [files_per_job], the split of a
    non-empty file list returns at least one list file; handed to
    [submitBatchJobs] with the list [main] builds for [pass_along_args],
    these list files lead to [TypeError] and to no submitted job. *)
Theorem split_then_submit_list_args (file_list : list string) (order : list nat)
    (opts : Pbs.options) (output_prefix : string)
    (disk : gmap string (list string)) (fuel : nat) (l : list string)
    (numProcesses tasksPerJob maxHours : Z) :
  file_list <> [] ->
  order ≡ₚ seq 0 (length file_list) ->
  (length file_list < fuel)%nat ->
  Pbs.getParallelParams (Pbs.node_type opts)
  = Pbs.Done (numProcesses, tasksPerJob, maxHours) ->
  exists outs disk',
    Pbs.write_input_files fuel (Z.of_nat <$> order) file_list tasksPerJob
                          output_prefix disk = (Pbs.Done outs, disk')
    /\ outs <> []
    /\ (Pbs.submitBatchJobs submitJob python_path outs opts (Pbs.ArgList l)).1
       = Pbs.Fails (Pbs.Builtin TypeError)
    /\ Pbs.submitted
         (Pbs.submitBatchJobs submitJob python_path outs opts (Pbs.ArgList l)).2
       = [].
Proof.
  intros Hne Horder Hfuel Hp.
  destruct (getParallelParams_positive _ _ _ _ Hp) as (_ & Htpj & _).
  rewrite (write_input_files_run file_list order Horder tasksPerJob
             output_prefix Htpj fuel disk Hfuel).
  set (lines := Pbs.shuffled_lines file_list order).
  assert (Hlines : length lines = length file_list)
    by apply (shuffled_lines_length file_list order Horder).
  rewrite <- Hlines.
  destruct (chunks_spec (Z.to_nat tasksPerJob) lines ltac:(lia))
    as (_ & _ & _ & _ & Hhi).
  set (cs := PbsLaws.chunks (length lines) (Z.to_nat tasksPerJob) lines) in *.
  assert (Hcs : (0 < length cs)%nat).
  { destruct file_list; [done |]. cbn in Hlines. destruct (length cs); [lia | lia]. }
  eexists _, _. split; [reflexivity |].
  assert (Houts : Pbs.list_file_name output_prefix <$> seq 0 (length cs) <> []).
  { destruct (length cs); [lia | done]. }
  split; [exact Houts |].
  unfold Pbs.submitBatchJobs. rewrite Hp. by rewrite submit_loop_list.
Qed.

End SubmitBatchJobs.

Section PbsSamples.

Lemma order_Permutation : SamplePbs.order ≡ₚ seq 0 (length SamplePbs.files).
Proof. by apply (bool_decide_unpack _). Qed.

Lemma write_input_files_covers_witness :
  exists outs disk',
    Pbs.write_input_files 6 (Z.of_nat <$> SamplePbs.order) SamplePbs.files 2
                          "job-" ∅ = (Pbs.Done outs, disk')
    /\ outs = Pbs.list_file_name "job-" <$> seq 0 (length outs)
    /\ NoDup outs
    /\ length (PbsLaws.read_files disk' outs) = length outs
    /\ concat (PbsLaws.read_files disk' outs)
       = Pbs.shuffled_lines SamplePbs.files SamplePbs.order
    /\ concat (PbsLaws.read_files disk' outs)
         ≡ₚ (fun f => f +:+ Pbs.newline) <$> SamplePbs.files
    /\ (forall p, p ∉ outs -> disk' !! p = (∅ : gmap string (list string)) !! p).
Proof.
  apply (write_input_files_covers SamplePbs.files SamplePbs.order 2 "job-" ∅ 6);
    [exact order_Permutation | lia | cbn; lia].
Defined.

Lemma write_input_files_sizes_witness :
  exists outs disk',
    Pbs.write_input_files 6 (Z.of_nat <$> SamplePbs.order) SamplePbs.files 2
                          "job-" ∅ = (Pbs.Done outs, disk')
    /\ length (PbsLaws.read_files disk' outs) = length outs
    /\ Forall (fun c => 0 < Z.of_nat (length c) <= 2)
              (PbsLaws.read_files disk' outs)
    /\ (forall j c, PbsLaws.read_files disk' outs !! j = Some c ->
                    (S j < length outs)%nat ->
                    Z.of_nat (length c) = 2)
    /\ (SamplePbs.files <> [] ->
        (Z.of_nat (length outs) - 1) * 2 < Z.of_nat (length SamplePbs.files))
    /\ Z.of_nat (length SamplePbs.files) <= Z.of_nat (length outs) * 2.
Proof.
  apply (write_input_files_sizes SamplePbs.files SamplePbs.order 2 "job-" ∅ 6);
    [exact order_Permutation | lia | cbn; lia].
Defined.

Lemma write_input_files_never_returns_witness :
  (Pbs.write_input_files 3 [] SamplePbs.files 0 "job-" ∅).1 = Pbs.Loops
  /\ forall k, (k < 3)%nat ->
       (Pbs.write_input_files 3 [] SamplePbs.files 0 "job-" ∅).2
         !! Pbs.list_file_name "job-" k = Some [].
Proof.
  apply (write_input_files_never_returns SamplePbs.files [] 0 "job-" ∅ 3);
    [discriminate | lia].
Defined.

Lemma submitBatchJobs_one_job_per_list_file_witness :
  exists js tr,
    Pbs.submitBatchJobs SamplePbs.submitJob "/usr/bin/python3"
                        ["job-0.txt"; "job-1.txt"] SamplePbs.opts
                        (Pbs.ArgStr " --image_type tif")
    = (Pbs.Done (SamplePbs.submitJob <$> js), tr)
    /\ Pbs.submitted tr = js
    /\ length js = 2%nat
    /\ forall k f, ["job-0.txt"; "job-1.txt"] !! k = Some f ->
         exists j, js !! k = Some j
           /\ Pbs.job_name j = "DELTA_CI" +:+ Pbs.format_05d k
           /\ Pbs.job_command j
               = "convert_input_image_folder.py" +:+ " "
                 +:+ ("--input-file-list " +:+ f +:+ "  --num-processes "
                      +:+ pretty 20) +:+ " --image_type tif"
           /\ Pbs.job_log_prefix j
               = Pbs.path_join (Pbs.output_folder SamplePbs.opts) (Pbs.job_name j)
           /\ Pbs.job_maxHours j = 2
           /\ Pbs.job_node_type j = Pbs.node_type SamplePbs.opts.
Proof.
  apply (submitBatchJobs_one_job_per_list_file SamplePbs.submitJob "/usr/bin/python3"
           ["job-0.txt"; "job-1.txt"] SamplePbs.opts " --image_type tif" 20 700 2).
  reflexivity.
Defined.

Lemma submitBatchJobs_list_args_witness :
  (Pbs.submitBatchJobs SamplePbs.submitJob "/usr/bin/python3" ["job-0.txt"]
                       SamplePbs.opts (Pbs.ArgList ["--image_type"; "tif"])).1
  = Pbs.Fails (Pbs.Builtin TypeError)
  /\ Pbs.submitted
       (Pbs.submitBatchJobs SamplePbs.submitJob "/usr/bin/python3" ["job-0.txt"]
                            SamplePbs.opts (Pbs.ArgList ["--image_type"; "tif"])).2
     = [].
Proof.
  apply (submitBatchJobs_list_args SamplePbs.submitJob "/usr/bin/python3"
           ["job-0.txt"] SamplePbs.opts ["--image_type"; "tif"] (20, 700, 2));
    [discriminate | reflexivity].
Defined.

Lemma submitBatchJobs_unknown_node_type_witness :
  Pbs.submitBatchJobs SamplePbs.submitJob "/usr/bin/python3" ["job-0.txt"]
                      SamplePbs.gpu_opts (Pbs.ArgStr "")
  = (Pbs.Fails (Pbs.Exception "No params defined for node type gpu"), []).
Proof.
  apply (submitBatchJobs_unknown_node_type SamplePbs.submitJob "/usr/bin/python3"
           ["job-0.txt"] SamplePbs.gpu_opts (Pbs.ArgStr "")).
  intros H. repeat (apply elem_of_cons in H as [H|H]; [discriminate H |]).
  by apply elem_of_nil in H.
Defined.

Lemma split_then_submit_list_args_witness :
  exists outs disk',
    Pbs.write_input_files 6 (Z.of_nat <$> SamplePbs.order) SamplePbs.files 700
                          "job-" ∅ = (Pbs.Done outs, disk')
    /\ outs <> []
    /\ (Pbs.submitBatchJobs SamplePbs.submitJob "/usr/bin/python3" outs
                            SamplePbs.opts (Pbs.ArgList ["--image_type"; "tif"])).1
       = Pbs.Fails (Pbs.Builtin TypeError)
    /\ Pbs.submitted
         (Pbs.submitBatchJobs SamplePbs.submitJob "/usr/bin/python3" outs
                              SamplePbs.opts (Pbs.ArgList ["--image_type"; "tif"])).2
       = [].
Proof.
  apply (split_then_submit_list_args SamplePbs.submitJob "/usr/bin/python3"
           SamplePbs.files SamplePbs.order SamplePbs.opts "job-" ∅ 6
           ["--image_type"; "tif"] 20 700 2);
    [discriminate | exact order_Permutation | cbn; lia | reflexivity].
Defined.

(** A run of the split on five files, two to a list file. *)
Example write_input_files_sample :
  Pbs.write_input_files 6 (Z.of_nat <$> SamplePbs.order) SamplePbs.files 2 "job-" ∅
  = (Pbs.Done ["job-0.txt"; "job-1.txt"; "job-2.txt"],
     {[ "job-0.txt" := ["d.tif" +:+ Pbs.newline; "a.tif" +:+ Pbs.newline];
        "job-1.txt" := ["e.tif" +:+ Pbs.newline; "b.tif" +:+ Pbs.newline];
        "job-2.txt" := ["c.tif" +:+ Pbs.newline] ]}).
Proof. by vm_compute. Qed.

End PbsSamples.
